(** * dlovely-websocket: the frame codec, the connection state machine,
      the subprotocol selector and the sign dispatcher

    A shallow embedding of the TypeScript sources ([lib/Connect.ts],
    [lib/Server.ts], [src/frame.ts], [src/SocketConnect.ts],
    [src/SocketApp.ts]) and the properties of the specification that are
    settled on it.

    Conventions.
    - A Node [Buffer] is a list of bytes, each an integer in [0, 256).
    - A JavaScript string is the list of its UTF-16 code units.
    - A JavaScript exception (a [RangeError] of a buffer read or write, a
      [TypeError]) is the result [None] of an [option]-valued function; an
      access that leaves the bounds of a buffer is reported the same way, so
      that "every access is within bounds" is the statement that the result
      is never [None].
    - Mutable objects (the connection, its socket, the streams it hands out)
      are threaded as an explicit state. *)

From Stdlib Require Import ZArith List Lia Bool String Ascii.
From stdpp Require Import base option list gmap strings numbers pretty.

Local Open Scope Z_scope.

(** ** JavaScript strings *)

Module JS.

(** A string is the sequence of its UTF-16 code units. *)
Definition jsstring := list Z.

(** An ASCII literal. *)
Definition str (s : string) : jsstring :=
  (λ a, Z.of_nat (nat_of_ascii a)) <$> list_ascii_of_string s.

(** An ASCII literal between double quotes. *)
Definition quoted (s : string) : jsstring := [34] ++ str s ++ [34].

(** [x.length] as a number. *)
Definition len {A} (l : list A) : Z := Z.of_nat (length l).

(** Truthiness of a string: only the empty string is falsy. *)
Definition truthy (s : jsstring) : bool :=
  match s with [] => false | _ => true end.

(** [Array.prototype.indexOf]: the first index holding [x], or [-1]. *)
Fixpoint indexOf_from (i : Z) (l : list jsstring) (x : jsstring) : Z :=
  match l with
  | [] => -1
  | y :: l' => if bool_decide (y = x) then i else indexOf_from (i + 1) l' x
  end.

Definition indexOf (l : list jsstring) (x : jsstring) : Z := indexOf_from 0 l x.

(** The property names a [for ... in] loop enumerates on an array: its
    indices, in ascending order, as decimal strings. *)
Definition for_in_keys {A} (l : list A) : list jsstring :=
  (λ i : nat, str (pretty i)) <$> seq 0 (length l).

End JS.

Import JS.

(** ** Node buffers *)

Module Buffer.

Definition Buffer := list Z.

Definition is_byte (b : Z) : Prop := 0 <= b < 256.

(** The largest length a buffer can have ([buffer.constants.MAX_LENGTH]
    never exceeds [2^53 - 1]).  Below this bound the double-precision
    arithmetic of the sources agrees with the integer arithmetic used
    here. *)
Definition kMaxLength : Z := 2 ^ 53 - 1.

Definition is_buffer (b : Buffer) : Prop :=
  Forall is_byte b ∧ len b <= kMaxLength.

(** [buf[i]]; [None] when [i] is outside the buffer. *)
Definition get (buf : Buffer) (i : Z) : option Z :=
  if i <? 0 then None else buf !! Z.to_nat i.

(** [buf.readUInt16BE(offset)]; [None] for the [RangeError] of a read
    that leaves the buffer. *)
Definition readUInt16BE (buf : Buffer) (offset : Z) : option Z :=
  b0 ← get buf offset;
  b1 ← get buf (offset + 1);
  Some (b0 * 256 + b1).

Definition readUInt32BE (buf : Buffer) (offset : Z) : option Z :=
  b0 ← get buf offset;
  b1 ← get buf (offset + 1);
  b2 ← get buf (offset + 2);
  b3 ← get buf (offset + 3);
  Some (((b0 * 256 + b1) * 256 + b2) * 256 + b3).

(** [buf.writeUInt16BE(value, offset)]; [None] for the [RangeError] of a
    value that is not an unsigned 16-bit integer or of an offset that
    leaves the buffer. *)
Definition writeUInt16BE (value offset : Z) (buf : Buffer) : option Buffer :=
  if (0 <=? value) && (value <=? 65535) && (0 <=? offset) && (offset + 2 <=? len buf)
  then Some (<[Z.to_nat (offset + 1) := value mod 256]>
             (<[Z.to_nat offset := value / 256]> buf))
  else None.

Definition writeUInt32BE (value offset : Z) (buf : Buffer) : option Buffer :=
  if (0 <=? value) && (value <=? 4294967295) && (0 <=? offset) && (offset + 4 <=? len buf)
  then Some (<[Z.to_nat (offset + 3) := value mod 256]>
             (<[Z.to_nat (offset + 2) := value / 256 mod 256]>
             (<[Z.to_nat (offset + 1) := value / 65536 mod 256]>
             (<[Z.to_nat offset := value / 16777216]> buf))))
  else None.

(** [buf.slice(start, end)]; [None] when the range is not inside the
    buffer (JavaScript would silently shorten the slice). *)
Definition slice (buf : Buffer) (start end_ : Z) : option Buffer :=
  if (0 <=? start) && (start <=? end_) && (end_ <=? len buf)
  then Some (take (Z.to_nat (end_ - start)) (drop (Z.to_nat start) buf))
  else None.

(** [buf.slice(start)]. *)
Definition slice_from (buf : Buffer) (start : Z) : option Buffer :=
  if (0 <=? start) && (start <=? len buf)
  then Some (drop (Z.to_nat start) buf)
  else None.

(** [Buffer.alloc(n)]: [n] zero bytes. *)
Definition alloc (n : Z) : Buffer := replicate (Z.to_nat n) 0.

(** The loop [for (i = 0; i < payload.length; i++) payload[i] ^= mask[i % 4]].
    A missing [mask[i % 4]] would be [undefined], which [^] reads as 0. *)
Fixpoint xorMask_from (i : nat) (mask payload : Buffer) : Buffer :=
  match payload with
  | [] => []
  | p :: payload' =>
      Z.lxor p (nth (i mod 4)%nat mask 0) :: xorMask_from (S i) mask payload'
  end.

Definition xorMask (mask payload : Buffer) : Buffer := xorMask_from 0 mask payload.

(** *** UTF-8 *)

(** A code point as UTF-16 code units. *)
Definition utf16 (cp : Z) : jsstring :=
  if cp <? 65536 then [cp]
  else [55296 + (cp - 65536) / 1024; 56320 + (cp - 65536) mod 1024].

(** State of the UTF-8 decoder inside a multi-byte sequence: the code
    point so far, the continuation bytes still missing and the range the
    next byte has to lie in. *)
Record utf8_state := {
  u_cp : Z;
  u_missing : nat;
  u_lower : Z;
  u_upper : Z
}.

Definition utf8_start : utf8_state :=
  {| u_cp := 0; u_missing := 0; u_lower := 128; u_upper := 191 |}.

(** A byte met outside a multi-byte sequence. *)
Definition utf8_lead (b : Z) : jsstring * utf8_state :=
  if (0 <=? b) && (b <=? 127) then ([b], utf8_start)
  else if (194 <=? b) && (b <=? 223) then
    ([], {| u_cp := Z.land b 31; u_missing := 1; u_lower := 128; u_upper := 191 |})
  else if (224 <=? b) && (b <=? 239) then
    ([], {| u_cp := Z.land b 15; u_missing := 2;
            u_lower := if b =? 224 then 160 else 128;
            u_upper := if b =? 237 then 159 else 191 |})
  else if (240 <=? b) && (b <=? 244) then
    ([], {| u_cp := Z.land b 7; u_missing := 3;
            u_lower := if b =? 240 then 144 else 128;
            u_upper := if b =? 244 then 143 else 191 |})
  else ([65533], utf8_start).

(** The decoder: an ill-formed sequence becomes U+FFFD and the offending
    byte is read again as the start of a sequence. *)
Fixpoint utf8_decode (st : utf8_state) (bytes : Buffer) : jsstring :=
  match bytes with
  | [] => match u_missing st with O => [] | S _ => [65533] end
  | b :: bytes' =>
      match u_missing st with
      | O => let '(out, st') := utf8_lead b in out ++ utf8_decode st' bytes'
      | S m =>
          if (u_lower st <=? b) && (b <=? u_upper st) then
            let cp := Z.lor (Z.shiftl (u_cp st) 6) (Z.land b 63) in
            match m with
            | O => utf16 cp ++ utf8_decode utf8_start bytes'
            | S _ => utf8_decode {| u_cp := cp; u_missing := m;
                                    u_lower := 128; u_upper := 191 |} bytes'
            end
          else
            let '(out, st') := utf8_lead b in
            65533 :: out ++ utf8_decode st' bytes'
      end
  end.

(** [buf.toString()]: the UTF-8 decoding of the bytes. *)
Definition toString (buf : Buffer) : jsstring := utf8_decode utf8_start buf.

Definition utf8_bytes (cp : Z) : Buffer :=
  if cp <? 128 then [cp]
  else if cp <? 2048 then [192 + cp / 64; 128 + cp mod 64]
  else if cp <? 65536 then [224 + cp / 4096; 128 + cp / 64 mod 64; 128 + cp mod 64]
  else [240 + cp / 262144; 128 + cp / 4096 mod 64; 128 + cp / 64 mod 64; 128 + cp mod 64].

Definition is_high_surrogate (c : Z) : bool := (55296 <=? c) && (c <=? 56319).
Definition is_low_surrogate (c : Z) : bool := (56320 <=? c) && (c <=? 57343).

(** [Buffer.from(string)]: the UTF-8 encoding of the string; a surrogate
    pair is one code point, a lone surrogate becomes U+FFFD. *)
Fixpoint from (s : jsstring) : Buffer :=
  match s with
  | [] => []
  | c :: s' =>
      if is_high_surrogate c then
        match s' with
        | d :: s'' =>
            if is_low_surrogate d
            then utf8_bytes (65536 + (c - 55296) * 1024 + (d - 56320)) ++ from s''
            else utf8_bytes 65533 ++ from s'
        | [] => utf8_bytes 65533
        end
      else if is_low_surrogate c then utf8_bytes 65533 ++ from s'
      else utf8_bytes c ++ from s'
  end.

(** A string of UTF-16 code units in which every surrogate is half of a
    pair: the strings [Buffer.from] encodes without loss. *)
Fixpoint well_formed (s : jsstring) : bool :=
  match s with
  | [] => true
  | c :: s' =>
      (0 <=? c) && (c <? 65536) &&
      (if is_high_surrogate c then
         match s' with
         | d :: s'' => is_low_surrogate d && well_formed s''
         | [] => false
         end
       else negb (is_low_surrogate c) && well_formed s')
  end.

End Buffer.

Import Buffer.

(** ** The frame codec ([src/frame.ts]) *)

Module frame.

(** [generateMetaData(fin, opcode, masked, payload)].  The four calls of
    [Math.floor(Math.random() * 256)] are the four values [key 0 .. key 3].
    The function masks [payload] in place; the embedding returns the
    meta-data together with the payload as it is left. *)
Definition generateMetaData (fin : bool) (opcode : Z) (masked : bool)
    (payload : Buffer) (key : nat → Z) : option (Buffer * Buffer) :=
  let len := len payload in
  let meta := alloc (2 + (if len <? 126 then 0 else if len <? 65536 then 2 else 8)
                       + (if masked then 4 else 0)) in
  let meta := <[0%nat := (if fin then 128 else 0) + opcode]> meta in
  let meta := <[1%nat := if masked then 128 else 0]> meta in
  let start := 2 in
  '(meta, start) ←
    (if len <? 126 then
       Some (<[1%nat := default 0 (meta !! 1%nat) + len]> meta, start)
     else if len <? 65536 then
       let meta := <[1%nat := default 0 (meta !! 1%nat) + 126]> meta in
       meta ← writeUInt16BE len 2 meta;
       Some (meta, start + 2)
     else
       let meta := <[1%nat := default 0 (meta !! 1%nat) + 127]> meta in
       meta ← writeUInt32BE (len / 2 ^ 32) 2 meta;
       meta ← writeUInt32BE (len mod 2 ^ 32) 6 meta;
       Some (meta, start + 8));
  if masked then
    let mask := [key 0%nat; key 1%nat; key 2%nat; key 3%nat] in
    let meta := <[Z.to_nat (start + 3) := key 3%nat]>
                (<[Z.to_nat (start + 2) := key 2%nat]>
                (<[Z.to_nat (start + 1) := key 1%nat]>
                (<[Z.to_nat start := key 0%nat]> meta))) in
    Some (meta, xorMask mask payload)
  else Some (meta, payload).

(** [Buffer.concat([meta, payload], meta.length + payload.length)] after
    [generateMetaData]. *)
Definition createFrame (fin : bool) (opcode : Z) (masked : bool)
    (payload : Buffer) (key : nat → Z) : option Buffer :=
  '(meta, payload) ← generateMetaData fin opcode masked payload key;
  Some (meta ++ payload).

Definition createTextFrame (data : jsstring) (masked : bool) (key : nat → Z)
    : option Buffer :=
  let payload := from data in
  createFrame true 1 masked payload key.

(** With [masked] the payload is a copy of [data], so [data] itself is
    never changed. *)
Definition createBinaryFrame (data : Buffer) (masked first fin : bool)
    (key : nat → Z) : option Buffer :=
  let payload := data in
  createFrame fin (if first then 2 else 0) masked payload key.

(** [createCloseFrame(code, reason = '', masked)]. *)
Definition createCloseFrame (code : Z) (reason : option jsstring) (masked : bool)
    (key : nat → Z) : option Buffer :=
  let reason := default [] reason in
  payload ←
    (if negb (code =? 0) && negb (code =? 1005)
     then writeUInt16BE code 0 (from (str "--" ++ reason))
     else Some (alloc 0));
  createFrame true 8 masked payload key.

Definition createPingFrame (data : jsstring) (masked : bool) (key : nat → Z)
    : option Buffer :=
  let payload := from data in
  createFrame true 9 masked payload key.

Definition createPongFrame (data : jsstring) (masked : bool) (key : nat → Z)
    : option Buffer :=
  let payload := from data in
  createFrame true 10 masked payload key.

End frame.

(** ** Decoding a frame

    The part of [extractFrame] that precedes the call of [processFrame]; the
    two connection classes differ only in the test of the mask bit, which is
    the parameter [violation]. *)

Inductive decoded :=
  | NeedMoreData                        (* [return] (undefined) *)
  | ProtocolError                       (* [return false] *)
  | Frame (fin : bool) (opcode : Z) (payload : Buffer) (rest : Buffer).

Definition valid_opcode (opcode : Z) : bool :=
  (opcode =? 0) || (opcode =? 1) || (opcode =? 2) ||
  (opcode =? 8) || (opcode =? 9) || (opcode =? 10).

Definition decodeFrame (violation : bool → bool) (buffer : Buffer) : option decoded :=
  if len buffer <? 2 then Some NeedMoreData else
  B ← get buffer 0;
  let HB := Z.shiftr B 4 in
  if negb (HB mod 8 =? 0) then Some ProtocolError else
  let fin := HB =? 8 in
  let opcode := B mod 16 in
  if negb (valid_opcode opcode) then Some ProtocolError else
  if (8 <=? opcode) && negb fin then Some ProtocolError else
  B ← get buffer 1;
  let hasMask := negb (Z.shiftr B 7 =? 0) in
  if violation hasMask then Some ProtocolError else
  let len7 := B mod 128 in
  let start := if hasMask then 6 else 2 in
  if len buffer <? start + len7 then Some NeedMoreData else
  '(len_, start) ←
    (if len7 =? 126 then
       l ← readUInt16BE buffer 2; Some (l, start + 2)
     else if len7 =? 127 then
       hi ← readUInt32BE buffer 2;
       lo ← readUInt32BE buffer 6;
       Some (hi * 2 ^ 32 + lo, start + 8)
     else Some (len7, start));
  if len buffer <? start + len_ then Some NeedMoreData else
  payload ← slice buffer start (start + len_);
  payload ←
    (if hasMask then
       mask ← slice buffer (start - 4) start;
       Some (xorMask mask payload)
     else Some payload);
  rest ← slice_from buffer (start + len_);
  Some (Frame fin opcode payload rest).


(** ** The state of a connection

    Both connection classes ([Connection] of [lib/Connect.ts] and
    [AppConnection] of [src/SocketConnect.ts]) keep the same fields. *)

Inductive ReadyState := CONNECTING | OPEN | CLOSING | CLOSED.

Global Instance ReadyState_eq_dec : EqDecision ReadyState.
Proof. solve_decision. Defined.

(** An [InStream]: the chunks pushed so far, and whether [push(null)] has
    signalled the end. *)
Record InStream := {
  pushed : list Buffer;
  ended : bool
}.

(** An [OutStream]: its accumulator and whether a fragment was sent. *)
Record OutStream := {
  o_buffer : Buffer;
  hasSent : bool
}.

(** The values the slot [frameBuffer] can hold.  An [InStream] is an object
    shared with the listeners of [binary]; the slot holds its reference. *)
Inductive slot :=
  | VUndefined
  | VNull
  | VString (s : jsstring)
  | VInStream (ref : nat).

(** The values the slot [outStream] can hold. *)
Inductive out_slot :=
  | OUndefined
  | OString (s : jsstring)
  | OOutStream (o : OutStream).

Inductive event :=
  | EConnect
  | EText (s : jsstring)
  | EBinary (ref : nat)
  | EPong (s : jsstring)
  | EClose (code : Z) (reason : option jsstring).

(** What was done to the socket: the buffers written, in order, and whether
    [end()] was called. *)
Record Socket := {
  written : list Buffer;
  finished : bool
}.

Record connection := {
  server : bool;             (* [this.server] is set: the server side *)
  readyState : ReadyState;
  buffer : Buffer;
  frameBuffer : slot;
  outStream : out_slot;
  socket : Socket;
  emitted : list event;      (* the events emitted, oldest first *)
  streams : list InStream;   (* the [InStream] objects created, by reference *)
  drawn : nat                (* how many times [Math.random()] was called *)
}.

Definition set_readyState (r : ReadyState) (c : connection) : connection :=
  {| server := server c; readyState := r; buffer := buffer c;
     frameBuffer := frameBuffer c; outStream := outStream c; socket := socket c;
     emitted := emitted c; streams := streams c; drawn := drawn c |}.

Definition set_buffer (b : Buffer) (c : connection) : connection :=
  {| server := server c; readyState := readyState c; buffer := b;
     frameBuffer := frameBuffer c; outStream := outStream c; socket := socket c;
     emitted := emitted c; streams := streams c; drawn := drawn c |}.

Definition set_frameBuffer (v : slot) (c : connection) : connection :=
  {| server := server c; readyState := readyState c; buffer := buffer c;
     frameBuffer := v; outStream := outStream c; socket := socket c;
     emitted := emitted c; streams := streams c; drawn := drawn c |}.

Definition set_outStream (v : out_slot) (c : connection) : connection :=
  {| server := server c; readyState := readyState c; buffer := buffer c;
     frameBuffer := frameBuffer c; outStream := v; socket := socket c;
     emitted := emitted c; streams := streams c; drawn := drawn c |}.

Definition set_socket (s : Socket) (c : connection) : connection :=
  {| server := server c; readyState := readyState c; buffer := buffer c;
     frameBuffer := frameBuffer c; outStream := outStream c; socket := s;
     emitted := emitted c; streams := streams c; drawn := drawn c |}.

Definition set_streams (l : list InStream) (c : connection) : connection :=
  {| server := server c; readyState := readyState c; buffer := buffer c;
     frameBuffer := frameBuffer c; outStream := outStream c; socket := socket c;
     emitted := emitted c; streams := l; drawn := drawn c |}.

Definition set_drawn (n : nat) (c : connection) : connection :=
  {| server := server c; readyState := readyState c; buffer := buffer c;
     frameBuffer := frameBuffer c; outStream := outStream c; socket := socket c;
     emitted := emitted c; streams := streams c; drawn := n |}.

(** [this.emit(...)]. *)
Definition emit (e : event) (c : connection) : connection :=
  {| server := server c; readyState := readyState c; buffer := buffer c;
     frameBuffer := frameBuffer c; outStream := outStream c; socket := socket c;
     emitted := emitted c ++ [e]; streams := streams c; drawn := drawn c |}.

(** [this.socket.write(data)]. *)
Definition socket_write (data : Buffer) (c : connection) : connection :=
  set_socket {| written := written (socket c) ++ [data];
                finished := finished (socket c) |} c.

(** [this.socket.end()]. *)
Definition socket_end (c : connection) : connection :=
  set_socket {| written := written (socket c); finished := true |} c.

(** [new InStream()]: the new object and its reference. *)
Definition new_InStream (c : connection) : nat * connection :=
  (length (streams c),
   set_streams (streams c ++ [{| pushed := []; ended := false |}]) c).

(** [stream.addData(data)]. *)
Definition addData (ref : nat) (data : Buffer) (c : connection) : connection :=
  set_streams
    (alter (λ s, {| pushed := pushed s ++ [data]; ended := ended s |}) ref (streams c)) c.

(** [stream.end()]. *)
Definition end_InStream (ref : nat) (c : connection) : connection :=
  set_streams
    (alter (λ s, {| pushed := pushed s; ended := true |}) ref (streams c)) c.

(** [this.socket.write(create...Frame(..., masked))]: a masked frame draws
    its four key bytes from the random source. *)
Definition write_frame (entropy : nat → Z) (masked : bool)
    (create : bool → (nat → Z) → option Buffer) (c : connection)
    : option connection :=
  data ← create masked (λ i, entropy (drawn c + i)%nat);
  Some (socket_write data (if masked then set_drawn (drawn c + 4)%nat c else c)).

Definition is_null (v : slot) : bool :=
  match v with VNull => true | _ => false end.

(** Truthiness of the slot: [undefined], [null] and the empty string are
    falsy. *)
Definition slot_truthy (v : slot) : bool :=
  match v with
  | VUndefined | VNull => false
  | VString s => truthy s
  | VInStream _ => true
  end.

(** How many [close] events were emitted. *)
Definition is_close (e : event) : bool :=
  match e with EClose _ _ => true | _ => false end.

Fixpoint count_close (es : list event) : nat :=
  match es with
  | [] => 0
  | e :: es => ((if is_close e then 1 else 0) + count_close es)%nat
  end.

Definition close_count (c : connection) : nat := count_close (emitted c).

(** The initial values of the static fields [binaryFragmentation] and
    [maxBufferLength] of both classes. *)
Definition default_binaryFragmentation : Z := 512 * 1024.
Definition default_maxBufferLength : Z := 2 * 1024 * 1024.

(** A connection as its constructor leaves it: [CONNECTING], nothing
    received, written or emitted.  [slot0] and [out0] are the initial values
    of the slots [frameBuffer] and [outStream]. *)
Definition constructed (server : bool) (slot0 : slot) (out0 : out_slot)
    : connection :=
  {| server := server; readyState := CONNECTING; buffer := [];
     frameBuffer := slot0; outStream := out0;
     socket := {| written := []; finished := false |};
     emitted := []; streams := []; drawn := 0 |}.

(** A connection right after its handshake: [OPEN], nothing buffered,
    [connect] emitted.  What the handshake itself wrote to the socket and
    drew from the random source is left out.  [slot0] and [out0] are the
    initial values of the slots [frameBuffer] and [outStream]. *)
Definition after_handshake (server : bool) (slot0 : slot) (out0 : out_slot)
    : connection :=
  {| server := server; readyState := OPEN; buffer := [];
     frameBuffer := slot0; outStream := out0;
     socket := {| written := []; finished := false |};
     emitted := [EConnect]; streams := []; drawn := 0 |}.

(** ** What the sending methods answer

    A sending method either writes a frame to the socket, or hands an
    [Error] to the listeners of [error] and leaves the connection as it
    is. *)

Inductive refusal :=
  | TextBeforeBinaryEnds     (* a text frame while a binary stream is open *)
  | BinaryBeforeBinaryEnds   (* binary frames while a binary stream is open *)
  | NotOpen                  (* the connection is not open *)
  | NonOpen.                 (* the same, in the words of [sendPing] *)

Inductive sent :=
  | Sent (c : connection)
  | Refused (why : refusal).

(** Truthiness of the slot [outStream]. *)
Definition out_truthy (v : out_slot) : bool :=
  match v with
  | OUndefined => false
  | OString s => truthy s
  | OOutStream _ => true
  end.

(** The argument of [send]: a string, a buffer, or anything else. *)
Inductive sendable :=
  | AString (s : jsstring)
  | ABuffer (b : Buffer)
  | AOther.

(** ** [Connection] ([lib/Connect.ts]) *)

Module Connection.
Section Connection.

(** The fields [frameBuffer] and [outStream] have no initialiser: they are
    undefined until they are assigned. *)
Definition opened (server : bool) : connection :=
  after_handshake server VUndefined OUndefined.

(** The values [Math.floor(Math.random() * 256)] returns, call by call. *)
Variable entropy : nat → Z.

(** The static field [Connection.maxBufferLength]. *)
Variable maxBufferLength : Z.

(** [readHandshake()], which reads the HTTP upgrade through SHA-1 and
    regular expressions; the properties below hold whatever it does. *)
Variable readHandshake : connection → option (bool * connection).

Definition processCloseFrame (payload : Buffer) (c : connection)
    : option connection :=
  '(code, reason) ←
    (if 2 <=? len payload then
       code ← readUInt16BE payload 0;
       rest ← slice_from payload 2;
       Some (code, toString rest)
     else Some (1005, []));
  c ← write_frame entropy (negb (server c))
        (frame.createCloseFrame code (Some reason)) c;
  let c := set_readyState CLOSED c in
  Some (emit (EClose code (Some reason)) c).

Definition processFrame (fin : bool) (opcode : Z) (payload : Buffer)
    (c : connection) : option (bool * connection) :=
  if opcode =? 8 then
    match readyState c with
    | CLOSING => Some (true, socket_end c)
    | OPEN => c ← processCloseFrame payload c; Some (true, c)
    | _ => Some (true, c)
    end
  else if opcode =? 9 then
    match readyState c with
    | OPEN =>
        c ← write_frame entropy (negb (server c))
              (frame.createPongFrame (toString payload)) c;
        Some (true, c)
    | _ => Some (true, c)
    end
  else if opcode =? 10 then
    Some (true, emit (EPong (toString payload)) c)
  else if negb (bool_decide (readyState c = OPEN)) then Some (true, c)
  else if (opcode =? 0) && is_null (frameBuffer c) then Some (false, c)
  else if negb (opcode =? 0) && negb (is_null (frameBuffer c)) then Some (false, c)
  else
    match frameBuffer c with
    | VString s =>
        let payload_string := toString payload in
        let c := set_frameBuffer
                   (VString (if truthy s then s ++ payload_string
                             else payload_string)) c in
        if fin then
          let c := emit (EText (match frameBuffer c with
                                | VString s => s | _ => [] end)) c in
          Some (true, set_frameBuffer VUndefined c)
        else Some (true, c)
    | v =>
        let '(ref, c) :=
          match v with
          | VInStream ref => (ref, c)
          | _ =>
              let '(ref, c) := new_InStream c in
              let c := set_frameBuffer (VInStream ref) c in
              (ref, emit (EBinary ref) c)
          end in
        let c := addData ref payload c in
        if fin then
          let c := end_InStream ref c in
          Some (true, set_frameBuffer VUndefined c)
        else Some (true, c)
    end.

Definition violation (c : connection) (hasMask : bool) : bool :=
  (server c && negb hasMask) || (negb (server c) && hasMask).

(** [extractFrame()]: [Some true] a frame was taken and processed,
    [Some false] something is wrong, [None] (undefined) not enough data. *)
Definition extractFrame (c : connection) : option (option bool * connection) :=
  d ← decodeFrame (violation c) (buffer c);
  match d with
  | NeedMoreData => Some (None, c)
  | ProtocolError => Some (Some false, c)
  | Frame fin opcode payload rest =>
      '(r, c) ← processFrame fin opcode payload (set_buffer rest c);
      Some (Some r, c)
  end.

Definition close (code : Z) (reason : option jsstring) (c : connection)
    : option connection :=
  c ←
    match readyState c with
    | OPEN =>
        c ← write_frame entropy (negb (server c))
              (frame.createCloseFrame code reason) c;
        Some (set_readyState CLOSING c)
    | CLOSED => Some c
    | _ => Some (set_readyState CLOSED (socket_end c))
    end;
  Some (emit (EClose code reason) c).

(** The loop [while ((temp = this.extractFrame()) === true) {}]; [fuel]
    bounds the number of passes. *)
Fixpoint extractLoop (fuel : nat) (c : connection)
    : option (option bool * connection) :=
  '(temp, c) ← extractFrame c;
  match temp, fuel with
  | Some true, S fuel => extractLoop fuel c
  | _, _ => Some (temp, c)
  end.

(** The test [this.readyState === this.CONNECTING && !this.readHandshake()]
    of [doRead], negated: whether the pass goes on to the frames. *)
Definition handshaken (c : connection) : option (bool * connection) :=
  if bool_decide (readyState c = CONNECTING) then readHandshake c
  else Some (true, c).

(** [doRead()]; [data] is what [this.socket.read()] returns ([None] for
    [null]).  Every pass of the loop consumes at least two bytes, so the
    length of the buffer is fuel enough. *)
Definition doRead (data : option Buffer) (c : connection) : option connection :=
  match data with
  | None => Some c
  | Some chunk =>
      let c := set_buffer (buffer c ++ chunk) c in
      '(go, c) ← handshaken c;
      if negb go then Some c else
      if negb (bool_decide (readyState c = CLOSED)) then
        '(temp, c) ← extractLoop (length (buffer c)) c;
        match temp with
        | Some false => close 1002 None c
        | _ =>
            if maxBufferLength <? len (buffer c) then close 1009 None c
            else Some c
        end
      else Some c
  end.

(** The listener [onclose] of the socket events [close] and [finish]. *)
Definition onclose (c : connection) : connection :=
  let c :=
    match readyState c with
    | CONNECTING | OPEN => emit (EClose 1006 (Some [])) c
    | _ => c
    end in
  let c := set_readyState CLOSED c in
  let c :=
    match frameBuffer c with
    | VInStream ref => set_frameBuffer VUndefined (end_InStream ref c)
    | _ => c
    end in
  match outStream c with
  | OOutStream _ => set_outStream OUndefined c
  | _ => c
  end.

(** [sendText(str, callback)]. *)
Definition sendText (str : jsstring) (c : connection) : option sent :=
  if bool_decide (readyState c = OPEN) then
    if negb (out_truthy (outStream c)) then
      c ← write_frame entropy (negb (server c)) (frame.createTextFrame str) c;
      Some (Sent c)
    else Some (Refused TextBeforeBinaryEnds)
  else Some (Refused NotOpen).

(** [beginBinary()]: the new [OutStream] is held by the slot [outStream]. *)
Definition beginBinary (c : connection) : option sent :=
  if bool_decide (readyState c = OPEN) then
    if negb (out_truthy (outStream c)) then
      Some (Sent (set_outStream
                    (OOutStream {| o_buffer := alloc 0; hasSent := false |}) c))
    else Some (Refused BinaryBeforeBinaryEnds)
  else Some (Refused NotOpen).

(** [sendBinary(data, callback)]. *)
Definition sendBinary (data : Buffer) (c : connection) : option sent :=
  if bool_decide (readyState c = OPEN) then
    if negb (out_truthy (outStream c)) then
      c ← write_frame entropy (negb (server c))
            (λ masked, frame.createBinaryFrame data masked true true) c;
      Some (Sent c)
    else Some (Refused BinaryBeforeBinaryEnds)
  else Some (Refused NotOpen).

(** [send(data, callback)]; anything but a string or a buffer is a
    [TypeError]. *)
Definition send (data : sendable) (c : connection) : option sent :=
  match data with
  | AString s => sendText s c
  | ABuffer b => sendBinary b c
  | AOther => None
  end.

(** [sendPing(data = '')]. *)
Definition sendPing (data : option jsstring) (c : connection) : option sent :=
  let data := default [] data in
  if bool_decide (readyState c = OPEN) then
    c ← write_frame entropy (negb (server c)) (frame.createPingFrame data) c;
    Some (Sent c)
  else Some (Refused NonOpen).

(** *** [OutStream] ([lib/OutStream.ts])

    The stream [beginBinary] hands out is the one the slot [outStream]
    holds, until its listener of [finish] or [onclose] empties the slot;
    by then the stream has ended or the connection is [CLOSED], and nothing
    the stream does reaches the socket any more.  [minSize] is the field of
    the stream, set when it is constructed. *)

(** [_write(chunk, encoding, callback)]. *)
Definition _write (minSize : Z) (chunk : Buffer) (c : connection)
    : option connection :=
  match outStream c with
  | OOutStream o =>
      let buffer := o_buffer o ++ chunk in
      if minSize <=? len buffer then
        c ← (if bool_decide (readyState c = OPEN) then
               write_frame entropy (negb (server c))
                 (λ masked, frame.createBinaryFrame buffer masked
                              (negb (hasSent o)) false) c
             else Some c);
        Some (set_outStream (OOutStream {| o_buffer := alloc 0; hasSent := true |}) c)
      else
        Some (set_outStream
                (OOutStream {| o_buffer := buffer; hasSent := hasSent o |}) c)
  | _ => Some c
  end.

(** The listener of [finish], which runs once the stream was ended and its
    writes are done. *)
Definition finish (c : connection) : option connection :=
  match outStream c with
  | OOutStream o =>
      c ← (if bool_decide (readyState c = OPEN) then
             write_frame entropy (negb (server c))
               (λ masked, frame.createBinaryFrame (o_buffer o) masked
                            (negb (hasSent o)) true) c
           else Some c);
      Some (set_outStream OUndefined c)
  | _ => Some (set_outStream OUndefined c)
  end.

(** The writes of the chunks of a stream, one after the other. *)
Fixpoint write_all (minSize : Z) (chunks : list Buffer) (c : connection)
    : option connection :=
  match chunks with
  | [] => Some c
  | chunk :: chunks => c ← _write minSize chunk c; write_all minSize chunks c
  end.

(** The calls a user and the socket make on a connection. *)
Inductive call :=
  | DoRead (data : option Buffer)               (* the socket is readable *)
  | Close (code : Z) (reason : option jsstring)
  | Send (data : sendable)
  | SendPing (data : option jsstring)
  | BeginBinary
  | Write (minSize : Z) (chunk : Buffer)        (* of the stream in [outStream] *)
  | Finish                                      (* of the stream in [outStream] *)
  | OnClose.                                    (* the socket closed or finished *)

(** A call on the connection; a refused sending leaves the connection as
    it is. *)
Definition perform (k : call) (c : connection) : option connection :=
  let accepted (r : option sent) :=
    r ← r; Some (match r with Sent c' => c' | Refused _ => c end) in
  match k with
  | DoRead data => doRead data c
  | Close code reason => close code reason c
  | Send data => accepted (send data c)
  | SendPing data => accepted (sendPing data c)
  | BeginBinary => accepted (beginBinary c)
  | Write minSize chunk => _write minSize chunk c
  | Finish => finish c
  | OnClose => Some (onclose c)
  end.

Fixpoint perform_all (ks : list call) (c : connection) : option connection :=
  match ks with
  | [] => Some c
  | k :: ks => c ← perform k c; perform_all ks c
  end.

End Connection.
End Connection.

(** ** [AppConnection] ([src/SocketConnect.ts])

    Always the server side of a connection: [this.server] is the
    [SocketApp], and every frame it sends is created with [masked = false].
    Its slots [frameBuffer] and [outStream] start as the empty string. *)

Module AppConnection.
Section AppConnection.

(** [frameBuffer] and [outStream] are initialised with the empty string. *)
Definition opened : connection :=
  after_handshake true (VString []) (OString []).

(** The static field [AppConnection.maxBufferLength]. *)
Variable maxBufferLength : Z.

(** [readHandshake()], as for [Connection]. *)
Variable readHandshake : connection → option (bool * connection).

(** [this.socket.write(frame.create...Frame(..., false))]. *)
Definition write_unmasked (create : bool → (nat → Z) → option Buffer)
    (c : connection) : option connection :=
  write_frame (λ _, 0) false create c.

Definition processCloseFrame (payload : Buffer) (c : connection)
    : option connection :=
  '(code, reason) ←
    (if 2 <=? len payload then
       code ← readUInt16BE payload 0;
       rest ← slice_from payload 2;
       Some (code, toString rest)
     else Some (1005, []));
  c ← write_unmasked (frame.createCloseFrame code (Some reason)) c;
  let c := set_readyState CLOSED c in
  Some (emit (EClose code (Some reason)) c).

Definition processFrame (fin : bool) (opcode : Z) (payload : Buffer)
    (c : connection) : option (bool * connection) :=
  if opcode =? 8 then
    match readyState c with
    | CLOSING => Some (true, socket_end c)
    | OPEN => c ← processCloseFrame payload c; Some (true, c)
    | _ => Some (true, c)
    end
  else if opcode =? 9 then
    match readyState c with
    | OPEN =>
        c ← write_unmasked (frame.createPongFrame (toString payload)) c;
        Some (true, c)
    | _ => Some (true, c)
    end
  else if opcode =? 10 then
    Some (true, emit (EPong (toString payload)) c)
  else if negb (bool_decide (readyState c = OPEN)) then Some (true, c)
  else if (opcode =? 0) && negb (slot_truthy (frameBuffer c)) then Some (false, c)
  else if negb (opcode =? 0) && slot_truthy (frameBuffer c) then Some (false, c)
  else
    match frameBuffer c with
    | VString s =>
        let payload_string := toString payload in
        let c := set_frameBuffer
                   (VString (if truthy s then s ++ payload_string
                             else payload_string)) c in
        if fin then
          let c := emit (EText (match frameBuffer c with
                                | VString s => s | _ => [] end)) c in
          Some (true, set_frameBuffer (VString []) c)
        else Some (true, c)
    | v =>
        let '(ref, c) :=
          match v with
          | VInStream ref => (ref, c)
          | _ =>
              let '(ref, c) := new_InStream c in
              let c := set_frameBuffer (VInStream ref) c in
              (ref, emit (EBinary ref) c)
          end in
        let c := addData ref payload c in
        if fin then
          let c := end_InStream ref c in
          Some (true, set_frameBuffer (VString []) c)
        else Some (true, c)
    end.

(** [if (this.server && !hasMask) return false], with [this.server] set. *)
Definition violation (hasMask : bool) : bool := true && negb hasMask.

Definition extractFrame (c : connection) : option (option bool * connection) :=
  d ← decodeFrame violation (buffer c);
  match d with
  | NeedMoreData => Some (None, c)
  | ProtocolError => Some (Some false, c)
  | Frame fin opcode payload rest =>
      '(r, c) ← processFrame fin opcode payload (set_buffer rest c);
      Some (Some r, c)
  end.

Definition close (code : Z) (reason : option jsstring) (c : connection)
    : option connection :=
  c ←
    match readyState c with
    | OPEN =>
        c ← write_unmasked (frame.createCloseFrame code reason) c;
        Some (set_readyState CLOSING c)
    | CLOSED => Some c
    | _ => Some (set_readyState CLOSED (socket_end c))
    end;
  Some (emit (EClose code reason) c).

Fixpoint extractLoop (fuel : nat) (c : connection)
    : option (option bool * connection) :=
  '(temp, c) ← extractFrame c;
  match temp, fuel with
  | Some true, S fuel => extractLoop fuel c
  | _, _ => Some (temp, c)
  end.

Definition handshaken (c : connection) : option (bool * connection) :=
  if bool_decide (readyState c = CONNECTING) then readHandshake c
  else Some (true, c).

Definition doRead (data : option Buffer) (c : connection) : option connection :=
  match data with
  | None => Some c
  | Some chunk =>
      let c := set_buffer (buffer c ++ chunk) c in
      '(go, c) ← handshaken c;
      if negb go then Some c else
      if negb (bool_decide (readyState c = CLOSED)) then
        '(temp, c) ← extractLoop (length (buffer c)) c;
        match temp with
        | Some false => close 1002 None c
        | _ =>
            if maxBufferLength <? len (buffer c) then close 1009 None c
            else Some c
        end
      else Some c
  end.

Definition onclose (c : connection) : connection :=
  let c :=
    match readyState c with
    | CONNECTING | OPEN => emit (EClose 1006 (Some [])) c
    | _ => c
    end in
  let c := set_readyState CLOSED c in
  let c :=
    match frameBuffer c with
    | VInStream ref => set_frameBuffer (VString []) (end_InStream ref c)
    | _ => c
    end in
  match outStream c with
  | OOutStream _ => set_outStream (OString []) c
  | _ => c
  end.

(** [sendText(str, callback)]; the line it logs is built from strings. *)
Definition sendText (str : jsstring) (c : connection) : option sent :=
  if bool_decide (readyState c = OPEN) then
    if negb (out_truthy (outStream c)) then
      c ← write_unmasked (frame.createTextFrame str) c;
      Some (Sent c)
    else Some (Refused TextBeforeBinaryEnds)
  else Some (Refused NotOpen).

(** [sendBinary(data, callback)]. *)
Definition sendBinary (data : Buffer) (c : connection) : option sent :=
  if bool_decide (readyState c = OPEN) then
    if negb (out_truthy (outStream c)) then
      c ← write_unmasked
            (λ masked, frame.createBinaryFrame data masked true true) c;
      Some (Sent c)
    else Some (Refused BinaryBeforeBinaryEnds)
  else Some (Refused NotOpen).

(** [send(data, callback)]. *)
Definition send (data : sendable) (c : connection) : option sent :=
  match data with
  | AString s => sendText s c
  | ABuffer b => sendBinary b c
  | AOther => None
  end.

(** The calls a user and the socket make on a connection. *)
Inductive call :=
  | DoRead (data : option Buffer)
  | Close (code : Z) (reason : option jsstring)
  | Send (data : sendable)
  | OnClose.

Definition perform (k : call) (c : connection) : option connection :=
  match k with
  | DoRead data => doRead data c
  | Close code reason => close code reason c
  | Send data =>
      r ← send data c;
      Some (match r with Sent c' => c' | Refused _ => c end)
  | OnClose => Some (onclose c)
  end.

Fixpoint perform_all (ks : list call) (c : connection) : option connection :=
  match ks with
  | [] => Some c
  | k :: ks => c ← perform k c; perform_all ks c
  end.

End AppConnection.
End AppConnection.

(** ** The default subprotocol selector ([lib/Server.ts], [src/SocketApp.ts]) *)

Module Server.

(** The body of the selector: [for (const protocol in protocols)], which
    binds [protocol] to the property names of the array. *)
Fixpoint select (validProtocols : list jsstring) (keys : list jsstring)
    : option jsstring :=
  match keys with
  | [] => None
  | protocol :: keys =>
      if negb (indexOf validProtocols protocol =? -1) then Some protocol
      else select validProtocols keys
  end.

(** [_buildSelectProtocol(validProtocols)] applied to [(_, protocols)];
    [protocols] may be undefined, over which [for ... in] does not loop. *)
Definition _buildSelectProtocol (validProtocols : list jsstring)
    (protocols : option (list jsstring)) : option jsstring :=
  select validProtocols
    (match protocols with Some ps => for_in_keys ps | None => [] end).

(** The selector the specification words: the first protocol the client
    offered that is in the list of the server. *)
Definition spec_selectProtocol (validProtocols : list jsstring)
    (protocols : list jsstring) : option jsstring :=
  List.find (λ p, bool_decide (p ∈ validProtocols)) protocols.

End Server.

(** ** JSON values and [JSON.parse] *)

Module JSON.

#[warning="-register-all"]
Inductive json :=
  | JNull
  | JBool (b : bool)
  | JNumber (lexeme : jsstring)
  | JString (s : jsstring)
  | JArray (items : list json)
  | JObject (members : list (jsstring * json)).

Definition is_ws (c : Z) : bool :=
  (c =? 32) || (c =? 9) || (c =? 10) || (c =? 13).

Fixpoint skip_ws (s : jsstring) : jsstring :=
  match s with
  | c :: s' => if is_ws c then skip_ws s' else s
  | [] => []
  end.

Definition is_digit (c : Z) : bool := (48 <=? c) && (c <=? 57).

Definition hex (c : Z) : option Z :=
  if is_digit c then Some (c - 48)
  else if (97 <=? c) && (c <=? 102) then Some (c - 87)
  else if (65 <=? c) && (c <=? 70) then Some (c - 55)
  else None.

Definition escape (c : Z) : option Z :=
  if c =? 34 then Some 34 else if c =? 92 then Some 92
  else if c =? 47 then Some 47 else if c =? 98 then Some 8
  else if c =? 102 then Some 12 else if c =? 110 then Some 10
  else if c =? 114 then Some 13 else if c =? 116 then Some 9
  else None.

(** The characters of a string after its opening quote. *)
Fixpoint string_body (s : jsstring) : option (jsstring * jsstring) :=
  match s with
  | [] => None
  | c :: s' =>
      if c =? 34 then Some ([], s')
      else if c =? 92 then
        match s' with
        | e :: s'' =>
            if e =? 117 then
              match s'' with
              | h1 :: h2 :: h3 :: h4 :: s''' =>
                  d1 ← hex h1; d2 ← hex h2; d3 ← hex h3; d4 ← hex h4;
                  '(x, r) ← string_body s''';
                  Some ((((d1 * 16 + d2) * 16 + d3) * 16 + d4) :: x, r)
              | _ => None
              end
            else
              u ← escape e;
              '(x, r) ← string_body s'';
              Some (u :: x, r)
        | [] => None
        end
      else if c <? 32 then None
      else
        '(x, r) ← string_body s';
        Some (c :: x, r)
  end.

Fixpoint digits (s : jsstring) : jsstring * jsstring :=
  match s with
  | c :: s' =>
      if is_digit c then let '(d, r) := digits s' in (c :: d, r) else ([], s)
  | [] => ([], [])
  end.

(** A number, kept as its lexeme: an optional minus sign; an integer part
    without a leading zero (a single zero apart); an optional fraction, a
    dot and at least one digit; an optional exponent, [e] or [E], an
    optional sign and at least one digit. *)
Definition number (s : jsstring) : option (jsstring * jsstring) :=
  let '(sign, s) :=
    match s with
    | c :: s' => if c =? 45 then ([c], s') else ([], s)
    | [] => ([], s)
    end in
  let '(int, s) := digits s in
  match int with
  | [] => None
  | d :: int' =>
      if (d =? 48) && negb (bool_decide (int' = [])) then None else
      '(frac, s) ←
        match s with
        | c :: s' =>
            if c =? 46 then
              let '(f, r) := digits s' in
              if bool_decide (f = []) then None else Some (c :: f, r)
            else Some ([], s)
        | [] => Some ([], s)
        end;
      '(exp, s) ←
        match s with
        | c :: s' =>
            if (c =? 101) || (c =? 69) then
              let '(sg, s'') :=
                match s' with
                | g :: r => if (g =? 43) || (g =? 45) then ([g], r) else ([], s')
                | [] => ([], s')
                end in
              let '(e, r) := digits s'' in
              if bool_decide (e = []) then None else Some (c :: sg ++ e, r)
            else Some ([], s)
        | [] => Some ([], s)
        end;
      Some (sign ++ int ++ frac ++ exp, s)
  end.

Fixpoint strip_prefix (p s : jsstring) : option jsstring :=
  match p, s with
  | [], _ => Some s
  | a :: p', b :: s' => if a =? b then strip_prefix p' s' else None
  | _ :: _, [] => None
  end.

(** The elements of an array after the first [[]; [value] reads one. *)
Fixpoint elements (fuel : nat) (value : jsstring → option (json * jsstring))
    (s : jsstring) : option (list json * jsstring) :=
  match fuel with
  | O => None
  | S fuel =>
      '(v, r) ← value s;
      match skip_ws r with
      | c :: r' =>
          if c =? 44 then
            '(vs, r'') ← elements fuel value r'; Some (v :: vs, r'')
          else if c =? 93 then Some ([v], r')
          else None
      | [] => None
      end
  end.

(** The members of an object after its opening brace. *)
Fixpoint members (fuel : nat) (value : jsstring → option (json * jsstring))
    (s : jsstring) : option (list (jsstring * json) * jsstring) :=
  match fuel with
  | O => None
  | S fuel =>
      match skip_ws s with
      | q :: s' =>
          if q =? 34 then
            '(k, r) ← string_body s';
            match skip_ws r with
            | colon :: r' =>
                if colon =? 58 then
                  '(v, r'') ← value r';
                  match skip_ws r'' with
                  | c :: r''' =>
                      if c =? 44 then
                        '(ms, t) ← members fuel value r'''; Some ((k, v) :: ms, t)
                      else if c =? 125 then Some ([(k, v)], r''')
                      else None
                  | [] => None
                  end
                else None
            | [] => None
            end
          else None
      | [] => None
      end
  end.

Fixpoint value (fuel : nat) (s : jsstring) : option (json * jsstring) :=
  match fuel with
  | O => None
  | S fuel =>
      match skip_ws s with
      | [] => None
      | c :: r =>
          if c =? 34 then
            '(x, r') ← string_body r; Some (JString x, r')
          else if c =? 91 then
            match skip_ws r with
            | d :: r' =>
                if d =? 93 then Some (JArray [], r')
                else '(vs, t) ← elements fuel (value fuel) r; Some (JArray vs, t)
            | [] => None
            end
          else if c =? 123 then
            match skip_ws r with
            | d :: r' =>
                if d =? 125 then Some (JObject [], r')
                else '(ms, t) ← members fuel (value fuel) r; Some (JObject ms, t)
            | [] => None
            end
          else
            match strip_prefix (str "null") (c :: r) with
            | Some t => Some (JNull, t)
            | None =>
            match strip_prefix (str "true") (c :: r) with
            | Some t => Some (JBool true, t)
            | None =>
            match strip_prefix (str "false") (c :: r) with
            | Some t => Some (JBool false, t)
            | None => '(n, t) ← number (c :: r); Some (JNumber n, t)
            end end end
      end
  end.

(** [JSON.parse(text)]; [None] for its [SyntaxError].  Every level of
    nesting and every element consumes a character, so the length of the
    text is fuel enough. *)
Definition parse (text : jsstring) : option json :=
  '(v, r) ← value (S (length text)) text;
  match skip_ws r with
  | [] => Some v
  | _ => None
  end.

(** [v[name]] for a parsed value [v] that is not [null], for the names
    [sign] and [data], which no prototype defines: an own property of an
    object (the last one of that name wins), otherwise undefined. *)
Fixpoint own (name : jsstring) (ms : list (jsstring * json)) : option json :=
  match ms with
  | [] => None
  | (k, v) :: ms' =>
      match own name ms' with
      | Some w => Some w
      | None => if bool_decide (k = name) then Some v else None
      end
  end.

Definition property (v : json) (name : jsstring) : option json :=
  match v with
  | JObject ms => own name ms
  | _ => None
  end.

(** The members an object parsed from [ms] has: of members of one name the
    last one. *)
Fixpoint effective (ms : list (jsstring * json)) : list (jsstring * json) :=
  match ms with
  | [] => []
  | (k, v) :: ms' =>
      if bool_decide (k ∈ ms'.*1) then effective ms' else (k, v) :: effective ms'
  end.

(** Whether the conversion of a parsed value to a string, as a template
    literal makes it, throws a [TypeError]: an object with an own property
    [toString] has no callable [toString] and no [valueOf] that returns a
    primitive; an array joins the conversions of its elements ([null]
    becomes the empty string); any other object is ["[object Object]"]. *)
Fixpoint ToString_throws (v : json) : bool :=
  match v with
  | JObject ms => bool_decide (str "toString" ∈ ms.*1)
  | JArray items =>
      (fix any (l : list json) : bool :=
         match l with
         | [] => false
         | x :: l' => ToString_throws x || any l'
         end) items
  | _ => false
  end.

(** [Object.entries(v)] for a parsed value that is truthy and not a string,
    as far as the values go. *)
Definition entry_values (v : json) : list json :=
  match v with
  | JObject ms => (effective ms).*2
  | JArray items => items
  | _ => []
  end.

End JSON.

Import JSON.

(** ** The sign dispatcher ([src/SocketApp.ts]) *)

Module SocketApp.

(** What a handler does with the [next] it receives: it calls it, any
    number of times, and it may end by throwing. *)
Inductive act := CallNext | Throw.

Record handler := {
  h_name : nat;
  h_body : list act
}.

(** The first argument of a handler: the [data] of the envelope (possibly
    undefined), or the raw text for the chain [noJSON]. *)
Inductive argument :=
  | Data (data : option json)
  | Raw (text : jsstring).

Record invocation := Invoke {
  callee : handler;
  arg : argument
}.

Inductive completion := Normal | Thrown.

(** The body of a handler, given the [next] it receives. *)
Fixpoint run_body (next : Z * list invocation → completion * (Z * list invocation))
    (acts : list act) (st : Z * list invocation)
    : completion * (Z * list invocation) :=
  match acts with
  | [] => (Normal, st)
  | CallNext :: acts =>
      let '(r, st) := next st in
      match r with
      | Thrown => (Thrown, st)
      | Normal => run_body next acts st
      end
  | Throw :: _ => (Thrown, st)
  end.

(** The closure [next] over the cursor [i] shared by all its calls:
    [i++; if (i < cbs.length) cbs[i](data, conn, next)].  The state is the
    cursor and the handlers invoked so far; every handler that starts has
    moved the cursor, so the length of the chain is fuel enough. *)
Fixpoint next (fuel : nat) (cbs : list handler) (a : argument)
    (st : Z * list invocation) : completion * (Z * list invocation) :=
  let i := st.1 + 1 in
  if i <? len cbs then
    match cbs !! Z.to_nat i, fuel with
    | Some h, S fuel =>
        run_body (next fuel cbs a) (h_body h) (i, st.2 ++ [Invoke h a])
    | _, _ => (Normal, (i, st.2))
    end
  else (Normal, (i, st.2)).

(** [let i = -1; const next = ...; next()]. *)
Definition run (cbs : list handler) (a : argument) (done : list invocation)
    : completion * list invocation :=
  let '(r, st) := next (length cbs) cbs a (-1, done) in (r, st.2).

(** [this.signs.get(sign)] for a parsed [sign]: only a string is a key. *)
Definition get_sign (signs : gmap jsstring (list handler)) (sign : option json)
    : option (list handler) :=
  match sign with
  | Some (JString s) => signs !! s
  | _ => None
  end.

(** Whether building the line that is logged for a parsed message throws:
    the template prints [sign], and, when [data] is truthy and not a string,
    the value of every entry of [data].  Numbers, booleans and strings have
    no entries whose printing could throw, whatever their truth. *)
Definition log_throws (sign data : option json) : bool :=
  from_option ToString_throws false sign ||
  match data with
  | Some (JObject ms) => existsb ToString_throws (entry_values (JObject ms))
  | Some (JArray items) => existsb ToString_throws (entry_values (JArray items))
  | _ => false
  end.

(** The listener of [text].  [JSON_parse] is [JSON.parse]; the calls of
    [this.toast.log] write to the log, once their argument is built. *)
Definition onText (JSON_parse : jsstring → option json)
    (signs : gmap jsstring (list handler)) (text : jsstring)
    : completion * list invocation :=
  let try :=
    match JSON_parse text with
    | None => (Thrown, [])                 (* SyntaxError *)
    | Some JNull => (Thrown, [])           (* TypeError: null is not destructured *)
    | Some v =>
        let sign := property v (str "sign") in
        let data := property v (str "data") in
        if log_throws sign data then (Thrown, []) else
        match
          match get_sign signs sign with
          | Some cbs => Some cbs
          | None => signs !! str "unknow"
          end
        with
        | None => (Normal, [])
        | Some cbs => run cbs (Data data) []
        end
    end in
  match try with
  | (Normal, done) => (Normal, done)
  | (Thrown, done) =>
      match signs !! str "noJSON" with
      | None => (Normal, done)
      | Some cbs => run cbs (Raw text) done
      end
  end.

(** The invocations that moving the cursor from [i] to [i'] makes: of the
    handlers at the indices [i + 1] to [i'], as far as the chain goes. *)
Definition started (cbs : list handler) (a : argument) (i i' : Z)
    : list invocation :=
  (λ h, Invoke h a) <$> take (Z.to_nat (i' - i)) (drop (Z.to_nat (i + 1)) cbs).

(** The handlers of a chain that run when every handler is a middleware of
    the classic kind, which calls [next] once or not at all: each handler up
    to the first one that does not call [next]. *)
Definition calls_next (h : handler) : bool :=
  match h_body h with
  | CallNext :: _ => true
  | _ => false
  end.

Fixpoint middleware (cbs : list handler) : list handler :=
  match cbs with
  | [] => []
  | h :: cbs => h :: (if calls_next h then middleware cbs else [])
  end.

(** The default [_selectProtocol] of the constructor, for the option
    [validProtocols]: the same loop as [Server._buildSelectProtocol]. *)
Definition _selectProtocol (validProtocols : list jsstring)
    (protocols : option (list jsstring)) : option jsstring :=
  Server.select validProtocols
    (match protocols with Some ps => for_in_keys ps | None => [] end).

(** [sign(sign, ...callback)]. *)
Definition sign (tag : jsstring) (callback : list handler)
    (signs : gmap jsstring (list handler)) : gmap jsstring (list handler) :=
  <[tag := match signs !! tag with
           | Some cbs => cbs ++ callback
           | None => callback
           end]> signs.

End SocketApp.


(** ** The wire format, as the specification words it

    Byte 0 is [FIN<<7 | opcode], byte 1 is [MASK<<7 | len7]; a length below
    126 is [len7] itself, a length below 65536 is [len7 = 126] followed by
    the length as 16 bits, a larger one is [len7 = 127] followed by the
    length as 64 bits, big-endian. *)

Definition be16 (n : Z) : Buffer := [n / 256; n mod 256].

Definition be32 (n : Z) : Buffer :=
  [n / 16777216; n / 65536 mod 256; n / 256 mod 256; n mod 256].

Definition frame_header (fin : bool) (opcode : Z) (masked : bool) (n : Z) : Buffer :=
  let b0 := (if fin then 128 else 0) + opcode in
  let m := if masked then 128 else 0 in
  if n <? 126 then [b0; m + n]
  else if n <? 65536 then [b0; m + 126] ++ be16 n
  else [b0; m + 127] ++ be32 (n / 2 ^ 32) ++ be32 (n mod 2 ^ 32).

(** The bytes of a frame: header, mask key if masked, payload (masked with
    the key if masked). *)
Definition frame_bytes (fin : bool) (opcode : Z) (masked : bool)
    (payload : Buffer) (key : nat → Z) : Buffer :=
  let mask := [key 0%nat; key 1%nat; key 2%nat; key 3%nat] in
  frame_header fin opcode masked (len payload)
  ++ (if masked then mask ++ xorMask mask payload else payload).

(** The payload [createCloseFrame] builds: nothing for the codes 0 and
    1005, else the code as 16 bits followed by the reason in UTF-8. *)
Definition close_payload (code : Z) (reason : jsstring) : Buffer :=
  if (code =? 0) || (code =? 1005) then []
  else code / 256 :: code mod 256 :: from reason.

(** The frames of a message sent in fragments with the payloads [ps]: the
    first one has the opcode of the message, the others are continuation
    frames, and with [last_fin] the last one is final.  A masked frame
    takes its key from the next four draws of the random source. *)
Fixpoint fragments (last_fin : bool) (opcode : Z) (masked : bool)
    (entropy : nat → Z) (drawn : nat) (ps : list Buffer) : list Buffer :=
  match ps with
  | [] => []
  | p :: ps' =>
      frame_bytes (last_fin && match ps' with [] => true | _ => false end)
        opcode masked p (λ i, entropy (drawn + i)%nat)
      :: fragments last_fin 0 masked entropy
           (if masked then drawn + 4 else drawn)%nat ps'
  end.

(** How many bytes the frame at the head of a buffer takes, read off its
    header; [None] while the header itself is incomplete. *)
Definition announced (buf : Buffer) : option Z :=
  if len buf <? 2 then None else
  b1 ← get buf 1;
  let key := if Z.shiftr b1 7 =? 0 then 0 else 4 in
  let len7 := b1 mod 128 in
  if len7 =? 126 then
    l ← readUInt16BE buf 2; Some (2 + 2 + key + l)
  else if len7 =? 127 then
    hi ← readUInt32BE buf 2;
    lo ← readUInt32BE buf 6;
    Some (2 + 8 + key + (hi * 2 ^ 32 + lo))
  else Some (2 + key + len7).

(** The buffer holds all bytes of the frame at its head. *)
Definition complete (buf : Buffer) : bool :=
  match announced buf with
  | Some n => n <=? len buf
  | None => false
  end.

(** The length of the frame at the head of the buffer is written in the
    shortest of the three forms, as RFC 6455 requires. *)
Definition minimal_length (buf : Buffer) : bool :=
  match get buf 1 with
  | Some b1 =>
      if b1 mod 128 =? 126 then
        match readUInt16BE buf 2 with Some l => 126 <=? l | None => true end
      else if b1 mod 128 =? 127 then
        match readUInt32BE buf 2, readUInt32BE buf 6 with
        | Some hi, Some lo => 65536 <=? hi * 2 ^ 32 + lo
        | _, _ => true
        end
      else true
  | None => true
  end.

(** ** More data in the buffer *)

(** The connection with the bytes [b] added to its buffer. *)
Definition received (b : Buffer) (c : connection) : connection :=
  set_buffer (buffer c ++ b) c.

(** What the decoder answers once [more] bytes follow the ones it read. *)
Definition more_rest (more : Buffer) (d : decoded) : decoded :=
  match d with
  | Frame fin opcode payload rest => Frame fin opcode payload (rest ++ more)
  | d => d
  end.

(** The slot [frameBuffer] holds a string, the connection has left
    [CONNECTING], and the streams and the [binary] events are those of
    [c0]. *)
Definition textual (c0 c : connection) : Prop :=
  (∃ s, frameBuffer c = VString s) ∧ readyState c ≠ CONNECTING ∧
  streams c = streams c0 ∧
  ∀ ref, EBinary ref ∈ emitted c → EBinary ref ∈ emitted c0.


(** ** A ping and its pong *)

(** A ping with the payload [ping], received by the connection [c] while
    [OPEN], is answered by a pong with the payload [pong]: [processFrame] of
    either class writes exactly one frame, which the peer decodes to a final
    frame of opcode 10 with the payload [pong] and nothing left over; no
    event is raised and the connection stays [OPEN]. *)
Definition answered_by_pong (entropy : nat → Z) (c : connection)
    (ping pong : Buffer) : Prop :=
  (∃ c' f,
     Connection.processFrame entropy true 9 ping c = Some (true, c') ∧
     written (socket c') = written (socket c) ++ [f] ∧
     emitted c' = emitted c ∧
     readyState c' = OPEN ∧
     ∀ peer, server peer = negb (server c) →
       decodeFrame (Connection.violation peer) f = Some (Frame true 10 pong [])) ∧
  (∃ c' f,
     AppConnection.processFrame true 9 ping c = Some (true, c') ∧
     written (socket c') = written (socket c) ++ [f] ∧
     emitted c' = emitted c ∧
     readyState c' = OPEN ∧
     ∀ peer, server peer = false →
       decodeFrame (Connection.violation peer) f = Some (Frame true 10 pong [])).


(** ** The lifetime of a connection

    What happens to a connection, one operation after the other: the
    handshake that succeeds ([readHandshake] then sets [OPEN] and emits
    [connect]), a call of [close] (by the user, or by [doRead] after a
    protocol error or an oversized buffer), a frame that [extractFrame]
    hands to [processFrame], the end of the transport.  An operation that
    throws leaves the connection as it was: [close] throws before it changes
    anything, when the code is not an unsigned 16-bit integer. *)

Inductive operation :=
  | Handshake
  | CallClose (code : Z) (reason : option jsstring)
  | ReceiveFrame (fin : bool) (opcode : Z) (payload : Buffer)
  | TransportClosed.

Definition step (entropy : nat → Z) (op : operation) (c : connection) : connection :=
  match op with
  | Handshake =>
      match readyState c with
      | CONNECTING => emit EConnect (set_readyState OPEN c)
      | _ => c
      end
  | CallClose code reason => default c (Connection.close entropy code reason c)
  | ReceiveFrame fin opcode payload =>
      default c (snd <$> Connection.processFrame entropy fin opcode payload c)
  | TransportClosed => Connection.onclose c
  end.

Definition lifetime (entropy : nat → Z) (ops : list operation) (c : connection)
    : connection :=
  foldl (λ c op, step entropy op c) c ops.

(** The connection has not yet closed nor begun to close. *)
Definition alive (c : connection) : bool :=
  match readyState c with
  | CONNECTING | OPEN => true
  | CLOSING | CLOSED => false
  end.

(** 0 while the connection is alive, 1 afterwards. *)
Definition gone (c : connection) : nat := if alive c then 0 else 1.

(** How many of the calls of [close] in a lifetime find the connection
    already [CLOSING] or [CLOSED]. *)
Fixpoint late_closes (entropy : nat → Z) (ops : list operation) (c : connection)
    : nat :=
  match ops with
  | [] => 0
  | op :: ops =>
      (match op with
       | CallClose _ _ => gone c
       | _ => 0
       end + late_closes entropy ops (step entropy op c))%nat
  end.

(** * Properties *)

Ltac zlia := Z.div_mod_to_equations; lia.

(** Case analysis on the boolean test an [if] of the goal is stuck on. *)
Ltac split_if :=
  match goal with
  | |- context [if ?b then _ else _] => destruct b eqn:?
  end.

(** ** Buffers *)

Lemma len_app {A} (l k : list A) : len (l ++ k) = len l + len k.
Proof. unfold len. rewrite length_app. lia. Qed.

Lemma len_nonneg {A} (l : list A) : 0 <= len l.
Proof. unfold len. lia. Qed.

Lemma get_is_Some (buf : Buffer) i : 0 <= i < len buf → is_Some (get buf i).
Proof.
  intros [Hi Hl]. unfold get.
  destruct (i <? 0) eqn:E; [apply Z.ltb_lt in E; lia|].
  apply lookup_lt_is_Some. unfold len in Hl. lia.
Qed.

Lemma get_is_byte (buf : Buffer) i b :
  Forall is_byte buf → get buf i = Some b → is_byte b.
Proof.
  intros Hb. unfold get. destruct (i <? 0); [done|]. intros Hg.
  eapply Forall_lookup_1; eauto.
Qed.

Lemma readUInt16BE_in_bounds (buf : Buffer) off :
  Forall is_byte buf → 0 <= off → off + 2 <= len buf →
  ∃ v, readUInt16BE buf off = Some v ∧ 0 <= v < 65536.
Proof.
  intros Hb H0 Hl. unfold readUInt16BE.
  destruct (get_is_Some buf off) as [b0 E0]; [lia|].
  destruct (get_is_Some buf (off + 1)) as [b1 E1]; [lia|].
  rewrite E0, E1. cbn. eexists; split; [done|].
  pose proof (get_is_byte _ _ _ Hb E0). pose proof (get_is_byte _ _ _ Hb E1).
  unfold is_byte in *. lia.
Qed.

Lemma readUInt32BE_in_bounds (buf : Buffer) off :
  Forall is_byte buf → 0 <= off → off + 4 <= len buf →
  ∃ v, readUInt32BE buf off = Some v ∧ 0 <= v < 4294967296.
Proof.
  intros Hb H0 Hl. unfold readUInt32BE.
  destruct (get_is_Some buf off) as [b0 E0]; [lia|].
  destruct (get_is_Some buf (off + 1)) as [b1 E1]; [lia|].
  destruct (get_is_Some buf (off + 2)) as [b2 E2]; [lia|].
  destruct (get_is_Some buf (off + 3)) as [b3 E3]; [lia|].
  rewrite E0, E1, E2, E3. cbn. eexists; split; [done|].
  pose proof (get_is_byte _ _ _ Hb E0). pose proof (get_is_byte _ _ _ Hb E1).
  pose proof (get_is_byte _ _ _ Hb E2). pose proof (get_is_byte _ _ _ Hb E3).
  unfold is_byte in *. lia.
Qed.

Lemma slice_in_bounds (buf : Buffer) s e :
  0 <= s → s <= e → e <= len buf →
  slice buf s e = Some (take (Z.to_nat (e - s)) (drop (Z.to_nat s) buf)).
Proof.
  intros. unfold slice.
  destruct (0 <=? s) eqn:E1; [|apply Z.leb_gt in E1; lia].
  destruct (s <=? e) eqn:E2; [|apply Z.leb_gt in E2; lia].
  destruct (e <=? len buf) eqn:E3; [|apply Z.leb_gt in E3; lia].
  done.
Qed.

Lemma slice_from_in_bounds (buf : Buffer) s :
  0 <= s → s <= len buf → slice_from buf s = Some (drop (Z.to_nat s) buf).
Proof.
  intros. unfold slice_from.
  destruct (0 <=? s) eqn:E1; [|apply Z.leb_gt in E1; lia].
  destruct (s <=? len buf) eqn:E3; [|apply Z.leb_gt in E3; lia].
  done.
Qed.

(** ** Decoding never leaves the buffer *)

Lemma decodeFrame_total violation (buffer : Buffer) :
  Forall is_byte buffer → is_Some (decodeFrame violation buffer).
Proof.
  intros Hb. unfold decodeFrame.
  destruct (len buffer <? 2) eqn:H2; [eauto|]. apply Z.ltb_ge in H2.
  destruct (get_is_Some buffer 0) as [B0 E0]; [lia|]. rewrite E0. cbn [mbind option_bind].
  split_if; [eauto|]. split_if; [eauto|]. split_if; [eauto|].
  destruct (get_is_Some buffer 1) as [B1 E1]; [lia|]. rewrite E1. cbn [mbind option_bind].
  split_if; [eauto|].
  set (start := if negb (B1 ≫ 7 =? 0) then 6 else 2).
  assert (Hs : start = 2 ∨ start = 6) by (subst start; split_if; auto).
  assert (H7 : 0 <= B1 mod 128 < 128) by zlia.
  destruct (len buffer <? start + B1 mod 128) eqn:H3; [eauto|]. apply Z.ltb_ge in H3.
  assert (∃ len_ start',
    (if B1 mod 128 =? 126
     then l ← readUInt16BE buffer 2; Some (l, start + 2)
     else if B1 mod 128 =? 127
          then hi ← readUInt32BE buffer 2;
               lo ← readUInt32BE buffer 6; Some (hi * 2 ^ 32 + lo, start + 8)
          else Some (B1 mod 128, start)) = Some (len_, start')
    ∧ 0 <= len_ ∧ 4 <= start' + (if negb (B1 ≫ 7 =? 0) then 0 else 4))
    as (len_ & start' & -> & Hl & Hst).
  { destruct (B1 mod 128 =? 126) eqn:E126.
    - apply Z.eqb_eq in E126.
      destruct (readUInt16BE_in_bounds buffer 2) as (v & -> & Hv); [done|lia|lia|].
      cbn. do 2 eexists; split; [done|]. split; [lia|].
      subst start. split_if; lia.
    - destruct (B1 mod 128 =? 127) eqn:E127.
      + apply Z.eqb_eq in E127.
        destruct (readUInt32BE_in_bounds buffer 2) as (hi & -> & Hhi); [done|lia|lia|].
        destruct (readUInt32BE_in_bounds buffer 6) as (lo & -> & Hlo); [done|lia|lia|].
        cbn. do 2 eexists; split; [done|]. split; [lia|].
        subst start. split_if; lia.
      + do 2 eexists; split; [done|]. split; [lia|].
        subst start. split_if; lia. }
  cbn [mbind option_bind].
  destruct (len buffer <? start' + len_) eqn:H4; [eauto|]. apply Z.ltb_ge in H4.
  assert (0 <= start') by (destruct (negb (B1 ≫ 7 =? 0)); lia).
  rewrite (slice_in_bounds buffer start' (start' + len_)) by lia.
  cbn [mbind option_bind].
  rewrite slice_from_in_bounds by lia.
  destruct (negb (B1 ≫ 7 =? 0)).
  - rewrite (slice_in_bounds buffer (start' - 4) start') by lia. cbn. eauto.
  - cbn. eauto.
Qed.

(** ** The layout of the frames that are written *)

Lemma generateMetaData_layout fin opcode masked (payload : Buffer) key :
  len payload < 2 ^ 64 →
  frame.generateMetaData fin opcode masked payload key =
    let mask := [key 0%nat; key 1%nat; key 2%nat; key 3%nat] in
    Some (frame_header fin opcode masked (len payload) ++ (if masked then mask else []),
          if masked then xorMask mask payload else payload).
Proof.
  intros Hlen. pose proof (len_nonneg payload) as H0.
  unfold frame.generateMetaData, frame_header.
  destruct (len payload <? 126) eqn:E1.
  - destruct masked; reflexivity.
  - destruct (len payload <? 65536) eqn:E2.
    + apply Z.ltb_lt in E2.
      unfold writeUInt16BE.
      destruct (0 <=? len payload) eqn:Ea; [|apply Z.leb_gt in Ea; lia].
      destruct (len payload <=? 65535) eqn:Eb; [|apply Z.leb_gt in Eb; lia].
      destruct masked; reflexivity.
    + apply Z.ltb_ge in E2. unfold writeUInt32BE.
      change (2 ^ 64) with 18446744073709551616 in Hlen.
      change (2 ^ 32) with 4294967296.
      destruct (0 <=? len payload / 4294967296) eqn:Ea; [|apply Z.leb_gt in Ea; zlia].
      destruct (len payload / 4294967296 <=? 4294967295) eqn:Eb;
        [|apply Z.leb_gt in Eb; zlia].
      destruct (0 <=? len payload mod 4294967296) eqn:Ec; [|apply Z.leb_gt in Ec; zlia].
      destruct (len payload mod 4294967296 <=? 4294967295) eqn:Ed;
        [|apply Z.leb_gt in Ed; zlia].
      destruct masked; reflexivity.
Qed.

(** ** Masking *)

Lemma xorMask_from_length i mask (p : Buffer) :
  length (xorMask_from i mask p) = length p.
Proof. revert i; induction p; intros; simpl; auto. Qed.

Lemma xorMask_length mask (p : Buffer) : length (xorMask mask p) = length p.
Proof. apply xorMask_from_length. Qed.

Lemma xorMask_from_involutive i mask (p : Buffer) :
  xorMask_from i mask (xorMask_from i mask p) = p.
Proof.
  revert i; induction p as [|b p IH]; intros i; simpl; [done|].
  rewrite IH. f_equal.
  rewrite Z.lxor_assoc, Z.lxor_nilpotent, Z.lxor_0_r. done.
Qed.

Lemma xorMask_involutive mask (p : Buffer) : xorMask mask (xorMask mask p) = p.
Proof. apply xorMask_from_involutive. Qed.

Lemma len_xorMask mask (p : Buffer) : len (xorMask mask p) = len p.
Proof. unfold len. by rewrite xorMask_length. Qed.

(** ** What the decoder reads in the first two bytes *)

Lemma byte0_fields (fin : bool) opcode :
  0 <= opcode < 16 →
  let B := (if fin then 128 else 0) + opcode in
  (Z.shiftr B 4) mod 8 = 0 ∧ (Z.shiftr B 4 =? 8) = fin ∧ B mod 16 = opcode.
Proof.
  intros Ho B. subst B. rewrite Z.shiftr_div_pow2 by lia. change (2 ^ 4) with 16.
  destruct fin.
  - assert ((128 + opcode) / 16 = 8) as -> by zlia.
    split; [done|]. split; [done|]. zlia.
  - assert ((0 + opcode) / 16 = 0) as -> by zlia.
    split; [done|]. split; [done|]. zlia.
Qed.

Lemma byte1_fields (masked : bool) len7 :
  0 <= len7 < 128 →
  let B := (if masked then 128 else 0) + len7 in
  negb (Z.shiftr B 7 =? 0) = masked ∧ B mod 128 = len7.
Proof.
  intros Ho B. subst B. rewrite Z.shiftr_div_pow2 by lia. change (2 ^ 7) with 128.
  destruct masked.
  - assert ((128 + len7) / 128 = 1) as -> by zlia. split; [done|]. zlia.
  - assert ((0 + len7) / 128 = 0) as -> by zlia. split; [done|]. zlia.
Qed.

Lemma valid_opcode_range opcode : valid_opcode opcode = true → 0 <= opcode < 16.
Proof.
  unfold valid_opcode. rewrite !orb_true_iff, !Z.eqb_eq. lia.
Qed.

Lemma be16_value n : 0 <= n < 65536 → n / 256 * 256 + n mod 256 = n.
Proof. intros. zlia. Qed.

Lemma be32_value n :
  0 <= n < 4294967296 →
  ((n / 16777216 * 256 + n / 65536 mod 256) * 256 + n / 256 mod 256) * 256
  + n mod 256 = n.
Proof. intros. zlia. Qed.

Lemma slice_app_middle (a b c : Buffer) :
  slice (a ++ b ++ c) (len a) (len a + len b) = Some b.
Proof.
  pose proof (len_nonneg a). pose proof (len_nonneg b). pose proof (len_nonneg c).
  rewrite slice_in_bounds by (rewrite ?len_app; lia).
  f_equal. unfold len. rewrite Nat2Z.id.
  rewrite drop_app_length.
  replace (Z.to_nat (Z.of_nat (length a) + Z.of_nat (length b) - Z.of_nat (length a)))
    with (length b) by lia.
  apply take_app_length.
Qed.

Lemma slice_from_app (a c : Buffer) : slice_from (a ++ c) (len a) = Some c.
Proof.
  pose proof (len_nonneg a). pose proof (len_nonneg c).
  rewrite slice_from_in_bounds by (rewrite ?len_app; lia).
  f_equal. unfold len. rewrite Nat2Z.id. apply drop_app_length.
Qed.

(** ** Decoding what was encoded *)

(** The decoder on a buffer of which the first two bytes, the resolved
    length and the position of the payload are known. *)
Lemma decodeFrame_reads violation (buffer pre0 mask body rest : Buffer)
    B0 B1 fin opcode (masked : bool) len_ start :
  buffer = pre0 ++ mask ++ body ++ rest →
  get buffer 0 = Some B0 →
  get buffer 1 = Some B1 →
  (Z.shiftr B0 4) mod 8 = 0 →
  (Z.shiftr B0 4 =? 8) = fin →
  B0 mod 16 = opcode →
  valid_opcode opcode = true →
  (8 <= opcode → fin = true) →
  negb (Z.shiftr B1 7 =? 0) = masked →
  violation masked = false →
  (if masked then 6 else 2) + B1 mod 128 <= len buffer →
  (if B1 mod 128 =? 126 then
     l ← readUInt16BE buffer 2; Some (l, (if masked then 6 else 2) + 2)
   else if B1 mod 128 =? 127 then
     hi ← readUInt32BE buffer 2;
     lo ← readUInt32BE buffer 6;
     Some (hi * 2 ^ 32 + lo, (if masked then 6 else 2) + 8)
   else Some (B1 mod 128, if masked then 6 else 2)) = Some (len_, start) →
  len pre0 + len mask = start →
  len mask = (if masked then 4 else 0) →
  len body = len_ →
  decodeFrame violation buffer
  = Some (Frame fin opcode (if masked then xorMask mask body else body) rest).
Proof.
  intros Hbuf E0 E1 A1 A2 A3 Hop Hctl A4 Hv Hfirst Hext Hpre Hmask Hbody.
  pose proof (len_nonneg pre0). pose proof (len_nonneg mask).
  pose proof (len_nonneg body). pose proof (len_nonneg rest).
  assert (Hl : len buffer = start + len_ + len rest).
  { rewrite Hbuf, !len_app. lia. }
  unfold decodeFrame.
  destruct (len buffer <? 2) eqn:E2.
  { apply Z.ltb_lt in E2. assert (0 <= B1 mod 128) by zlia.
    destruct masked; lia. }
  rewrite E0, E1. cbn [mbind option_bind].
  rewrite A1, A2, A3, A4, Hop, Hv.
  change (negb (0 =? 0)) with false. change (negb true) with false. cbv iota.
  assert ((8 <=? opcode) && negb fin = false) as ->.
  { destruct (8 <=? opcode) eqn:E8; [|done].
    apply Z.leb_le in E8. rewrite (Hctl E8). done. }
  destruct (len buffer <? (if masked then 6 else 2) + B1 mod 128) eqn:E3.
  { apply Z.ltb_lt in E3. lia. }
  rewrite Hext. cbn [mbind option_bind].
  destruct (len buffer <? start + len_) eqn:E4.
  { apply Z.ltb_lt in E4. lia. }
  assert (slice buffer start (start + len_) = Some body) as ->.
  { rewrite Hbuf, <- Hpre, <- Hbody, <- len_app.
    rewrite (app_assoc pre0 mask). apply slice_app_middle. }
  assert (slice_from buffer (start + len_) = Some rest) as ->.
  { rewrite Hbuf, <- Hpre, <- Hbody, <- !len_app.
    rewrite (app_assoc pre0 mask), (app_assoc _ body). apply slice_from_app. }
  destruct masked; [|done].
  assert (slice buffer (start - 4) start = Some mask) as ->.
  { rewrite Hbuf, <- Hpre. replace (len pre0 + len mask - 4) with (len pre0) by lia.
    apply slice_app_middle. }
  done.
Qed.

Lemma decode_frame_bytes violation fin opcode masked (payload : Buffer) key rest :
  valid_opcode opcode = true →
  (8 <= opcode → fin = true) →
  violation masked = false →
  len payload < 2 ^ 64 →
  decodeFrame violation (frame_bytes fin opcode masked payload key ++ rest)
  = Some (Frame fin opcode payload rest).
Proof.
  intros Hop Hctl Hv Hlen.
  pose proof (valid_opcode_range _ Hop) as Hr.
  pose proof (len_nonneg payload) as H0.
  destruct (byte0_fields fin opcode Hr) as (A1 & A2 & A3).
  cbv zeta in *.
  set (mask := [key 0%nat; key 1%nat; key 2%nat; key 3%nat]).
  set (body := if masked then xorMask mask payload else payload).
  assert (Hbody : len body = len payload).
  { subst body. destruct masked; [apply len_xorMask|done]. }
  assert (Hres : (if masked then xorMask (if masked then mask else []) body else body)
                 = payload).
  { subst body. destruct masked; [apply xorMask_involutive|done]. }
  rewrite <- Hres at 2.
  set (maskl := if masked then mask else []) in *.
  assert (Hmaskl : len maskl = if masked then 4 else 0).
  { subst maskl. by destruct masked. }
  assert (Hshape : ∀ hdr : Buffer,
    (hdr ++ (if masked then mask ++ xorMask mask payload else payload)) ++ rest
    = hdr ++ maskl ++ body ++ rest).
  { intros hdr. subst maskl body. destruct masked; by rewrite <- ?app_assoc. }
  pose proof (len_nonneg rest) as Hrest.
  unfold frame_bytes, frame_header. fold mask. cbv zeta.
  set (B0 := (if fin then 128 else 0) + opcode) in *.
  destruct (len payload <? 126) eqn:E1; [|destruct (len payload <? 65536) eqn:E2].
  - apply Z.ltb_lt in E1.
    destruct (byte1_fields masked (len payload)) as (A4 & A5); [lia|].
    cbv zeta in *. set (B1 := (if masked then 128 else 0) + len payload) in *.
    rewrite Hshape.
    eapply (decodeFrame_reads violation _ [B0; B1] maskl body rest
              B0 B1 fin opcode masked (len payload) (if masked then 6 else 2));
      try eassumption; try reflexivity.
    + rewrite A5, !len_app, Hbody, Hmaskl. change (len [B0; B1]) with 2.
      destruct masked; lia.
    + rewrite A5.
      destruct (len payload =? 126) eqn:Ea; [apply Z.eqb_eq in Ea; lia|].
      destruct (len payload =? 127) eqn:Eb; [apply Z.eqb_eq in Eb; lia|].
      reflexivity.
    + rewrite Hmaskl. change (len [B0; B1]) with 2. destruct masked; lia.
  - apply Z.ltb_ge in E1. apply Z.ltb_lt in E2.
    destruct (byte1_fields masked 126) as (A4 & A5); [lia|].
    cbv zeta in *. set (B1 := (if masked then 128 else 0) + 126) in *.
    rewrite Hshape.
    eapply (decodeFrame_reads violation _ ([B0; B1] ++ be16 (len payload))
              maskl body rest
              B0 B1 fin opcode masked (len payload) ((if masked then 6 else 2) + 2));
      try eassumption; try reflexivity.
    + rewrite A5, !len_app, Hbody, Hmaskl. change (len [B0; B1]) with 2.
      change (len (be16 (len payload))) with 2. destruct masked; lia.
    + rewrite A5. change (126 =? 126) with true. cbv iota.
      change (readUInt16BE (([B0; B1] ++ be16 (len payload)) ++ maskl ++ body ++ rest) 2)
        with (Some (len payload / 256 * 256 + len payload mod 256)).
      rewrite be16_value by lia. reflexivity.
    + rewrite Hmaskl. change (len ([B0; B1] ++ be16 (len payload))) with 4.
      destruct masked; lia.
  - apply Z.ltb_ge in E1, E2.
    destruct (byte1_fields masked 127) as (A4 & A5); [lia|].
    cbv zeta in *. set (B1 := (if masked then 128 else 0) + 127) in *.
    change (2 ^ 64) with 18446744073709551616 in Hlen.
    change (2 ^ 32) with 4294967296.
    set (hi := len payload / 4294967296). set (lo := len payload mod 4294967296).
    assert (Hhi : 0 <= hi < 4294967296) by (subst hi; zlia).
    assert (Hlo : 0 <= lo < 4294967296) by (subst lo; zlia).
    assert (Hsum : hi * 4294967296 + lo = len payload) by (subst hi lo; zlia).
    rewrite Hshape.
    eapply (decodeFrame_reads violation _ ([B0; B1] ++ be32 hi ++ be32 lo)
              maskl body rest
              B0 B1 fin opcode masked (len payload) ((if masked then 6 else 2) + 8));
      try eassumption; try reflexivity.
    + rewrite A5, !len_app, Hbody, Hmaskl. change (len [B0; B1]) with 2.
      change (len (be32 hi)) with 4. change (len (be32 lo)) with 4.
      destruct masked; lia.
    + rewrite A5. change (127 =? 126) with false. change (127 =? 127) with true.
      cbv iota.
      change (readUInt32BE (([B0; B1] ++ be32 hi ++ be32 lo) ++ maskl ++ body ++ rest) 2)
        with (Some (((hi / 16777216 * 256 + hi / 65536 mod 256) * 256
                     + hi / 256 mod 256) * 256 + hi mod 256)).
      change (readUInt32BE (([B0; B1] ++ be32 hi ++ be32 lo) ++ maskl ++ body ++ rest) 6)
        with (Some (((lo / 16777216 * 256 + lo / 65536 mod 256) * 256
                     + lo / 256 mod 256) * 256 + lo mod 256)).
      rewrite !be32_value by lia. cbn [mbind option_bind].
      change (2 ^ 32) with 4294967296. rewrite Hsum. reflexivity.
    + rewrite Hmaskl. change (len ([B0; B1] ++ be32 hi ++ be32 lo)) with 10.
      destruct masked; lia.
Qed.


Lemma createFrame_bytes fin opcode masked (payload : Buffer) key :
  len payload < 2 ^ 64 →
  frame.createFrame fin opcode masked payload key
  = Some (frame_bytes fin opcode masked payload key).
Proof.
  intros Hlen. unfold frame.createFrame.
  rewrite generateMetaData_layout by done. cbv zeta. cbn [mbind option_bind].
  unfold frame_bytes. destruct masked; by rewrite <- ?app_assoc, ?app_nil_r.
Qed.

Lemma is_buffer_len (b : Buffer) : is_buffer b → len b < 2 ^ 64.
Proof.
  intros [_ H]. unfold kMaxLength in H.
  change (2 ^ 53 - 1) with 9007199254740991 in H.
  change (2 ^ 64) with 18446744073709551616. lia.
Qed.

(** A mask bit that breaks the discipline is a protocol error, whatever
    follows the first two bytes. *)
Lemma decodeFrame_violation violation b0 b1 (tail : Buffer) :
  violation (negb (Z.shiftr b1 7 =? 0)) = true →
  decodeFrame violation (b0 :: b1 :: tail) = Some ProtocolError.
Proof.
  intros Hv. unfold decodeFrame.
  assert ((len (b0 :: b1 :: tail) <? 2) = false) as ->.
  { apply Z.ltb_ge. unfold len. simpl. lia. }
  change (get (b0 :: b1 :: tail) 0) with (Some b0).
  change (get (b0 :: b1 :: tail) 1) with (Some b1).
  cbn [mbind option_bind].
  do 3 (split_if; [done|]).
  by rewrite Hv.
Qed.

(** C10.  [extractFrame] is total: for every content of the receive buffer
    (any sequence of bytes, of any length) each access it makes -- the
    bytes [buffer[0]] and [buffer[1]], the reads [readUInt16BE(2)],
    [readUInt32BE(2)] and [readUInt32BE(6)], the slices of the mask and of
    the payload -- lies within the buffer, so that the result is always
    need-more-data, protocol-error or a frame and never a fault; this holds
    for the decoder of [Connection] and for that of [AppConnection]. *)
Theorem extractFrame_accesses_in_bounds (c : connection) :
  Forall is_byte (buffer c) →
  (∃ d, decodeFrame (Connection.violation c) (buffer c) = Some d ∧
        (d = NeedMoreData ∨ d = ProtocolError ∨
         ∃ fin opcode payload rest, d = Frame fin opcode payload rest)) ∧
  (∃ d, decodeFrame AppConnection.violation (buffer c) = Some d ∧
        (d = NeedMoreData ∨ d = ProtocolError ∨
         ∃ fin opcode payload rest, d = Frame fin opcode payload rest)).
Proof.
  intros Hb. split.
  - destruct (decodeFrame_total (Connection.violation c) _ Hb) as [d Hd].
    exists d. split; [done|]. destruct d; eauto 10.
  - destruct (decodeFrame_total AppConnection.violation _ Hb) as [d Hd].
    exists d. split; [done|]. destruct d; eauto 10.
Qed.

Lemma extractFrame_accesses_in_bounds_witness :
  let c := set_buffer [129; 254; 1] (Connection.opened true) in
  Forall is_byte (buffer c) ∧
  (∃ d, decodeFrame (Connection.violation c) (buffer c) = Some d ∧
        (d = NeedMoreData ∨ d = ProtocolError ∨
         ∃ fin opcode payload rest, d = Frame fin opcode payload rest)) ∧
  (∃ d, decodeFrame AppConnection.violation (buffer c) = Some d ∧
        (d = NeedMoreData ∨ d = ProtocolError ∨
         ∃ fin opcode payload rest, d = Frame fin opcode payload rest)).
Proof.
  intros c.
  assert (H : Forall is_byte (buffer c)).
  { subst c. simpl. repeat constructor; unfold is_byte; lia. }
  split; [exact H|]. apply (extractFrame_accesses_in_bounds c H).
Defined.

(** C5.  For every payload [p], the single masked binary frame
    [createBinaryFrame(p, true, true, true)] is decoded by [extractFrame]
    on a server-side connection whose buffer holds exactly its bytes as the
    frame with fin set, opcode 2 and payload [p], which is handed to
    [processFrame] with the buffer emptied; and a connection answers a
    frame whose mask bit breaks the discipline of its role with a protocol
    error ([false]), leaving its state as it is. *)
Theorem masked_binary_frame_round_trip entropy (p : Buffer) (key : nat → Z) :
  is_buffer p →
  (∃ bytes,
     frame.createBinaryFrame p true true true key = Some bytes ∧
     ∀ c, server c = true → buffer c = bytes →
       decodeFrame (Connection.violation c) (buffer c) = Some (Frame true 2 p []) ∧
       Connection.extractFrame entropy c
       = ('(r, c') ← Connection.processFrame entropy true 2 p (set_buffer [] c);
          Some (Some r, c'))) ∧
  (∀ c b0 b1 tail,
     buffer c = b0 :: b1 :: tail →
     negb (Z.shiftr b1 7 =? 0) = negb (server c) →
     Connection.extractFrame entropy c = Some (Some false, c)) ∧
  (∀ c b0 b1 tail,
     buffer c = b0 :: b1 :: tail →
     negb (Z.shiftr b1 7 =? 0) = false →
     AppConnection.extractFrame c = Some (Some false, c)).
Proof.
  intros Hp. pose proof (is_buffer_len _ Hp) as Hlen. split; [|split].
  - exists (frame_bytes true 2 true p key). split.
    + unfold frame.createBinaryFrame. by apply createFrame_bytes.
    + intros c Hs Hb.
      assert (Hd : decodeFrame (Connection.violation c) (buffer c)
                   = Some (Frame true 2 p [])).
      { rewrite Hb. rewrite <- (app_nil_r (frame_bytes _ _ _ _ _)).
        apply decode_frame_bytes; try done.
        unfold Connection.violation. by rewrite Hs. }
      split; [done|]. unfold Connection.extractFrame. by rewrite Hd.
  - intros c b0 b1 tail Hb Hm. unfold Connection.extractFrame.
    rewrite Hb, decodeFrame_violation; [done|].
    unfold Connection.violation. rewrite Hm. by destruct (server c).
  - intros c b0 b1 tail Hb Hm. unfold AppConnection.extractFrame.
    rewrite Hb, decodeFrame_violation; [done|].
    unfold AppConnection.violation. by rewrite Hm.
Qed.

Lemma masked_binary_frame_round_trip_witness :
  let p := [1; 2; 3] in
  let key := λ i : nat, 7 + Z.of_nat i in
  let entropy := λ _ : nat, 0 in
  is_buffer p ∧
  (∃ bytes,
     frame.createBinaryFrame p true true true key = Some bytes ∧
     ∀ c, server c = true → buffer c = bytes →
       decodeFrame (Connection.violation c) (buffer c) = Some (Frame true 2 p []) ∧
       Connection.extractFrame entropy c
       = ('(r, c') ← Connection.processFrame entropy true 2 p (set_buffer [] c);
          Some (Some r, c'))).
Proof.
  intros p key entropy.
  assert (H : is_buffer p).
  { split; [repeat constructor; unfold is_byte; lia|]. by vm_compute. }
  split; [exact H|].
  exact (proj1 (masked_binary_frame_round_trip entropy p key H)).
Defined.

(** ** When the decoder asks for more data *)

Lemma decodeFrame_NeedMoreData violation (buffer : Buffer) :
  decodeFrame violation buffer = Some NeedMoreData →
  complete buffer = true →
  minimal_length buffer = false.
Proof.
  unfold decodeFrame, complete, announced, minimal_length.
  destruct (len buffer <? 2) eqn:E2; [done|].
  destruct (get buffer 0) as [B0|]; [|done]. cbn [mbind option_bind].
  do 3 (split_if; [done|]).
  destruct (get buffer 1) as [B1|]; [|done]. cbn [mbind option_bind].
  split_if; [done|].
  assert (H7 : 0 <= B1 mod 128 < 128) by zlia.
  assert (Hlast : ∀ (start len_ : Z) (fin : bool) opcode,
    (slice buffer start (start + len_) ≫= λ payload,
       (if negb (B1 ≫ 7 =? 0)
        then slice buffer (start - 4) start ≫= λ mask, Some (xorMask mask payload)
        else Some payload) ≫= λ payload,
       slice_from buffer (start + len_) ≫= λ rest,
       Some (Frame fin opcode payload rest)) ≠ Some NeedMoreData).
  { intros start len_ fin opcode.
    destruct (slice buffer start _); cbn; [|done].
    destruct (B1 ≫ 7 =? 0); cbn [negb];
      [|destruct (slice buffer (start - 4) start)];
      cbn; try done; destruct (slice_from buffer _); cbn; congruence. }
  set (k := if B1 ≫ 7 =? 0 then 0 else 4).
  replace (if negb (B1 ≫ 7 =? 0) then 6 else 2) with (2 + k)
    by (subst k; by destruct (B1 ≫ 7 =? 0)).
  assert (Hk : 0 <= k <= 4) by (subst k; destruct (B1 ≫ 7 =? 0); lia).
  destruct (len buffer <? 2 + k + B1 mod 128) eqn:E3.
  - apply Z.ltb_lt in E3. intros _.
    destruct (B1 mod 128 =? 126) eqn:E126; [|destruct (B1 mod 128 =? 127) eqn:E127].
    + apply Z.eqb_eq in E126.
      destruct (readUInt16BE buffer 2) as [l|]; [|done]. cbn.
      intros Hc. apply Z.leb_le in Hc. apply Z.leb_gt. lia.
    + apply Z.eqb_eq in E127.
      destruct (readUInt32BE buffer 2) as [hi|]; [|done].
      destruct (readUInt32BE buffer 6) as [lo|]; [|done]. cbn.
      intros Hc. apply Z.leb_le in Hc. apply Z.leb_gt. lia.
    + intros Hc. apply Z.leb_le in Hc. lia.
  - destruct (B1 mod 128 =? 126) eqn:E126; [|destruct (B1 mod 128 =? 127) eqn:E127].
    + destruct (readUInt16BE buffer 2) as [l|]; [|done]. cbn.
      destruct (len buffer <? 2 + k + 2 + l) eqn:E4; [|by intros ?%Hlast].
      intros _ Hc. apply Z.leb_le in Hc. apply Z.ltb_lt in E4. lia.
    + destruct (readUInt32BE buffer 2) as [hi|]; [|done].
      destruct (readUInt32BE buffer 6) as [lo|]; [|done]. cbn.
      destruct (len buffer <? 2 + k + 8 + (hi * 2 ^ 32 + lo)) eqn:E4;
        [|by intros ?%Hlast].
      intros _ Hc. apply Z.leb_le in Hc. apply Z.ltb_lt in E4. lia.
    + cbn.
      destruct (len buffer <? 2 + k + B1 mod 128) eqn:E4; [|by intros ?%Hlast].
      intros _ Hc. apply Z.leb_le in Hc. apply Z.ltb_lt in E4. lia.
Qed.


Lemma Connection_extractFrame_None entropy c c' :
  Connection.extractFrame entropy c = Some (None, c') →
  decodeFrame (Connection.violation c) (buffer c) = Some NeedMoreData ∧ c' = c.
Proof.
  unfold Connection.extractFrame.
  destruct (decodeFrame _ _) as [[| |fin opcode payload rest]|]; cbn; try done.
  - by intros [= <-].
  - destruct (Connection.processFrame _ _ _ _ _) as [[r c'']|]; cbn; done.
Qed.

Lemma AppConnection_extractFrame_None c c' :
  AppConnection.extractFrame c = Some (None, c') →
  decodeFrame AppConnection.violation (buffer c) = Some NeedMoreData ∧ c' = c.
Proof.
  unfold AppConnection.extractFrame.
  destruct (decodeFrame _ _) as [[| |fin opcode payload rest]|]; cbn; try done.
  - by intros [= <-].
  - destruct (AppConnection.processFrame _ _ _ _) as [[r c'']|]; cbn; done.
Qed.

Lemma frame_bytes_len fin opcode masked (payload : Buffer) key :
  len payload <= len (frame_bytes fin opcode masked payload key).
Proof.
  unfold frame_bytes. rewrite len_app.
  pose proof (len_nonneg (frame_header fin opcode masked (len payload))).
  destruct masked.
  - rewrite len_app, len_xorMask.
    pose proof (len_nonneg [key 0%nat; key 1%nat; key 2%nat; key 3%nat]). lia.
  - lia.
Qed.

(** The bytes of a frame are a complete frame in the sense of the wire
    format, with its length in the shortest form. *)
Lemma frame_bytes_complete fin opcode masked (payload : Buffer) key rest :
  len payload < 2 ^ 64 →
  announced (frame_bytes fin opcode masked payload key ++ rest)
  = Some (len (frame_bytes fin opcode masked payload key)) ∧
  complete (frame_bytes fin opcode masked payload key ++ rest) = true ∧
  minimal_length (frame_bytes fin opcode masked payload key ++ rest) = true.
Proof.
  intros Hlen. pose proof (len_nonneg payload) as H0.
  pose proof (len_nonneg rest) as Hrest.
  set (mask := [key 0%nat; key 1%nat; key 2%nat; key 3%nat]).
  set (body := if masked then mask ++ xorMask mask payload else payload).
  assert (Hbody : len body = (if masked then 4 else 0) + len payload).
  { subst body. destruct masked; [|lia].
    rewrite len_app, len_xorMask. change (len mask) with 4. lia. }
  pose proof (len_nonneg body) as Hb0.
  assert (Hc : ∀ buf : Buffer, announced (buf ++ rest) = Some (len buf) →
                 complete (buf ++ rest) = true).
  { intros buf E. unfold complete. rewrite E, len_app. apply Z.leb_le. lia. }
  unfold frame_bytes, frame_header. fold mask. fold body. cbv zeta.
  set (B0 := (if fin then 128 else 0) + opcode).
  destruct (len payload <? 126) eqn:E1; [|destruct (len payload <? 65536) eqn:E2].
  - apply Z.ltb_lt in E1.
    destruct (byte1_fields masked (len payload)) as (A4 & A5); [lia|].
    cbv zeta in *. set (B1 := (if masked then 128 else 0) + len payload) in *.
    assert (Ha : announced (([B0; B1] ++ body) ++ rest) = Some (len ([B0; B1] ++ body))).
    { unfold announced.
      assert ((len (([B0; B1] ++ body) ++ rest) <? 2) = false) as ->.
      { apply Z.ltb_ge. rewrite !len_app. change (len [B0; B1]) with 2. lia. }
      change (get (([B0; B1] ++ body) ++ rest) 1) with (Some B1).
      cbn [mbind option_bind]. rewrite A5.
      destruct (len payload =? 126) eqn:Ea; [apply Z.eqb_eq in Ea; lia|].
      destruct (len payload =? 127) eqn:Eb; [apply Z.eqb_eq in Eb; lia|].
      f_equal. rewrite len_app, Hbody. change (len [B0; B1]) with 2.
      rewrite <- A4. destruct (B1 ≫ 7 =? 0); cbn; lia. }
    split; [done|]. split; [by eapply Hc|].
    unfold minimal_length.
    change (get (([B0; B1] ++ body) ++ rest) 1) with (Some B1).
    cbv beta iota. rewrite A5.
    destruct (len payload =? 126) eqn:Ea; [apply Z.eqb_eq in Ea; lia|].
    destruct (len payload =? 127) eqn:Eb; [apply Z.eqb_eq in Eb; lia|]. done.
  - apply Z.ltb_ge in E1. apply Z.ltb_lt in E2.
    destruct (byte1_fields masked 126) as (A4 & A5); [lia|].
    cbv zeta in *. set (B1 := (if masked then 128 else 0) + 126) in *.
    assert (Hread : readUInt16BE ((([B0; B1] ++ be16 (len payload)) ++ body) ++ rest) 2
                    = Some (len payload)).
    { change (readUInt16BE ((([B0; B1] ++ be16 (len payload)) ++ body) ++ rest) 2)
        with (Some (len payload / 256 * 256 + len payload mod 256)).
      by rewrite be16_value by lia. }
    assert (Ha : announced ((([B0; B1] ++ be16 (len payload)) ++ body) ++ rest)
                 = Some (len (([B0; B1] ++ be16 (len payload)) ++ body))).
    { unfold announced.
      assert ((len ((([B0; B1] ++ be16 (len payload)) ++ body) ++ rest) <? 2) = false)
        as ->.
      { apply Z.ltb_ge. rewrite !len_app. change (len [B0; B1]) with 2.
        change (len (be16 (len payload))) with 2. lia. }
      change (get ((([B0; B1] ++ be16 (len payload)) ++ body) ++ rest) 1)
        with (Some B1).
      cbn [mbind option_bind]. rewrite A5. change (126 =? 126) with true. cbv iota.
      rewrite Hread. cbn [mbind option_bind].
      f_equal. rewrite !len_app, Hbody. change (len [B0; B1]) with 2.
      change (len (be16 (len payload))) with 2.
      rewrite <- A4. destruct (B1 ≫ 7 =? 0); cbn; lia. }
    split; [done|]. split; [by eapply Hc|].
    unfold minimal_length.
    change (get ((([B0; B1] ++ be16 (len payload)) ++ body) ++ rest) 1)
      with (Some B1).
    cbv beta iota. rewrite A5. change (126 =? 126) with true. cbv iota. rewrite Hread.
    apply Z.leb_le. lia.
  - apply Z.ltb_ge in E1, E2.
    destruct (byte1_fields masked 127) as (A4 & A5); [lia|].
    cbv zeta in *. set (B1 := (if masked then 128 else 0) + 127) in *.
    change (2 ^ 64) with 18446744073709551616 in Hlen.
    change (2 ^ 32) with 4294967296.
    set (hi := len payload / 4294967296). set (lo := len payload mod 4294967296).
    assert (Hhi : 0 <= hi < 4294967296) by (subst hi; zlia).
    assert (Hlo : 0 <= lo < 4294967296) by (subst lo; zlia).
    assert (Hsum : hi * 4294967296 + lo = len payload) by (subst hi lo; zlia).
    set (buf := (([B0; B1] ++ be32 hi ++ be32 lo) ++ body) ++ rest).
    assert (Hr2 : readUInt32BE buf 2 = Some hi).
    { change (readUInt32BE buf 2)
        with (Some (((hi / 16777216 * 256 + hi / 65536 mod 256) * 256
                     + hi / 256 mod 256) * 256 + hi mod 256)).
      by rewrite be32_value by lia. }
    assert (Hr6 : readUInt32BE buf 6 = Some lo).
    { change (readUInt32BE buf 6)
        with (Some (((lo / 16777216 * 256 + lo / 65536 mod 256) * 256
                     + lo / 256 mod 256) * 256 + lo mod 256)).
      by rewrite be32_value by lia. }
    assert (Ha : announced buf = Some (len (([B0; B1] ++ be32 hi ++ be32 lo) ++ body))).
    { unfold announced.
      assert ((len buf <? 2) = false) as ->.
      { apply Z.ltb_ge. subst buf. rewrite !len_app. change (len [B0; B1]) with 2.
        change (len (be32 hi)) with 4. change (len (be32 lo)) with 4. lia. }
      change (get buf 1) with (Some B1).
      cbn [mbind option_bind]. rewrite A5.
      change (127 =? 126) with false. change (127 =? 127) with true. cbv iota.
      rewrite Hr2, Hr6. cbn [mbind option_bind].
      f_equal. rewrite !len_app, Hbody. change (len [B0; B1]) with 2.
      change (len (be32 hi)) with 4. change (len (be32 lo)) with 4.
      change (2 ^ 32) with 4294967296.
      rewrite <- A4. destruct (B1 ≫ 7 =? 0); cbn; lia. }
    split; [done|]. split; [by eapply Hc|].
    unfold minimal_length. change (get buf 1) with (Some B1).
    cbv beta iota. rewrite A5. change (127 =? 126) with false. change (127 =? 127) with true.
    cbv iota. rewrite Hr2, Hr6. apply Z.leb_le.
    change (2 ^ 32) with 4294967296. lia.
Qed.

(** The claim C4 as it is worded fails: a client-side connection holds the
    nine bytes of a complete text frame whose length 5 is written in the
    16-bit form, and [extractFrame] still asks for more data. *)
Lemma extractFrame_need_more_data_counterexample :
  ¬ (∀ entropy c c',
       is_buffer (buffer c) →
       Connection.extractFrame entropy c = Some (None, c') →
       complete (buffer c) = false).
Proof.
  intros H.
  specialize (H (λ _, 0)
                (set_buffer ([129; 126; 0; 5] ++ str "hello") (Connection.opened false))
                (set_buffer ([129; 126; 0; 5] ++ str "hello") (Connection.opened false))).
  assert (Hb : is_buffer ([129; 126; 0; 5] ++ str "hello")).
  { split; [|by vm_compute]. repeat constructor; unfold is_byte; lia. }
  specialize (H Hb eq_refl). vm_compute in H. discriminate.
Qed.

(** C4 (amended).  For every content of the receive buffer, [extractFrame]
    returns need-more-data only when the buffer does not hold all bytes of
    the frame at its head or the length of that frame is not written in its
    shortest form, and then it leaves the connection, its buffer included,
    as it was; whenever the buffer starts with a complete well-formed frame
    (valid opcode, control frames final, mask bit as the role demands, the
    length in its shortest form) [extractFrame] removes exactly the bytes of
    that frame from the buffer and hands the frame to [processFrame].  This
    holds for [Connection] and for [AppConnection]. *)
Theorem extractFrame_need_more_data_or_frame entropy (c : connection) :
  is_buffer (buffer c) →
  (∀ c', Connection.extractFrame entropy c = Some (None, c') →
     c' = c ∧ (complete (buffer c) = true → minimal_length (buffer c) = false)) ∧
  (∀ fin opcode payload key rest,
     valid_opcode opcode = true → (8 <= opcode → fin = true) →
     buffer c = frame_bytes fin opcode (server c) payload key ++ rest →
     Connection.extractFrame entropy c
     = ('(r, c') ← Connection.processFrame entropy fin opcode payload (set_buffer rest c);
        Some (Some r, c'))) ∧
  (∀ c', AppConnection.extractFrame c = Some (None, c') →
     c' = c ∧ (complete (buffer c) = true → minimal_length (buffer c) = false)) ∧
  (∀ fin opcode payload key rest,
     valid_opcode opcode = true → (8 <= opcode → fin = true) →
     buffer c = frame_bytes fin opcode true payload key ++ rest →
     AppConnection.extractFrame c
     = ('(r, c') ← AppConnection.processFrame fin opcode payload (set_buffer rest c);
        Some (Some r, c'))).
Proof.
  intros Hb.
  assert (Hlen : ∀ fin opcode masked payload key rest,
            buffer c = frame_bytes fin opcode masked payload key ++ rest →
            len payload < 2 ^ 64).
  { intros fin opcode masked payload key rest E.
    pose proof (is_buffer_len _ Hb) as Hl. rewrite E, len_app in Hl.
    pose proof (frame_bytes_len fin opcode masked payload key).
    pose proof (len_nonneg rest). lia. }
  repeat split.
  - by apply Connection_extractFrame_None in H as [_ ->].
  - apply Connection_extractFrame_None in H as [Hd _].
    by apply (decodeFrame_NeedMoreData _ _ Hd).
  - intros fin opcode payload key rest Hop Hctl E.
    unfold Connection.extractFrame. rewrite E.
    rewrite decode_frame_bytes; eauto.
    unfold Connection.violation. by destruct (server c).
  - by apply AppConnection_extractFrame_None in H as [_ ->].
  - apply AppConnection_extractFrame_None in H as [Hd _].
    by apply (decodeFrame_NeedMoreData _ _ Hd).
  - intros fin opcode payload key rest Hop Hctl E.
    unfold AppConnection.extractFrame. rewrite E.
    rewrite decode_frame_bytes; eauto.
Qed.

Lemma extractFrame_need_more_data_or_frame_witness :
  let entropy := λ _ : nat, 0 in
  let c := set_buffer ([129; 5] ++ str "Hello" ++ [137; 0]) (Connection.opened false) in
  is_buffer (buffer c) ∧
  Connection.extractFrame entropy c
  = ('(r, c') ← Connection.processFrame entropy true 1 (str "Hello")
                   (set_buffer [137; 0] c);
     Some (Some r, c')).
Proof.
  intros entropy c.
  assert (Hb : is_buffer (buffer c)).
  { split; [|by vm_compute]. repeat constructor; unfold is_byte; lia. }
  split; [exact Hb|].
  exact (proj1 (proj2 (extractFrame_need_more_data_or_frame entropy c Hb))
           true 1 (str "Hello") (λ _, 0) [137; 0] eq_refl
           (λ H : 8 <= 1, eq_refl) eq_refl).
Defined.

(** ** Text frames and continuation frames *)

(** [AppConnection]: a final text frame on an empty slot emits [text] with
    the decoded payload and leaves the slot empty. *)
Lemma AppConnection_text_frame (c : connection) (payload : Buffer) :
  readyState c = OPEN → frameBuffer c = VString [] →
  ∃ c', AppConnection.processFrame true 1 payload c = Some (true, c') ∧
        emitted c' = emitted c ++ [EText (toString payload)] ∧
        frameBuffer c' = VString [] ∧
        readyState c' = OPEN ∧ socket c' = socket c.
Proof.
  intros Hr Hf. unfold AppConnection.processFrame.
  cbn [Z.eqb]. rewrite Hr, Hf. cbn. eauto 10.
Qed.

(** [AppConnection]: a text fragment that is not final is kept in the slot
    and emits nothing; the continuation frames that follow are appended, and
    [text] is emitted with the whole string when the final one arrives. *)
Lemma AppConnection_text_fragment (c : connection) (payload : Buffer) :
  readyState c = OPEN → frameBuffer c = VString [] →
  AppConnection.processFrame false 1 payload c
  = Some (true, set_frameBuffer (VString (toString payload)) c).
Proof.
  intros Hr Hf. unfold AppConnection.processFrame.
  cbn [Z.eqb]. rewrite Hr, Hf. by cbn.
Qed.

Lemma AppConnection_text_continuation (c : connection) s (fin : bool) (payload : Buffer) :
  readyState c = OPEN → frameBuffer c = VString s → truthy s = true →
  AppConnection.processFrame fin 0 payload c
  = Some (true,
          if fin
          then set_frameBuffer (VString [])
                 (emit (EText (s ++ toString payload))
                    (set_frameBuffer (VString (s ++ toString payload)) c))
          else set_frameBuffer (VString (s ++ toString payload)) c).
Proof.
  intros Hr Hf Ht. unfold AppConnection.processFrame.
  cbn [Z.eqb]. rewrite Hr, Hf. cbn. rewrite Ht. cbn. by destruct fin.
Qed.

(** [AppConnection]: a continuation frame on an empty slot is a protocol
    error, and [doRead] answers a protocol error with [close(1002)]. *)
Lemma AppConnection_continuation_rejected (c : connection) (fin : bool)
    (payload : Buffer) :
  readyState c = OPEN → slot_truthy (frameBuffer c) = false →
  AppConnection.processFrame fin 0 payload c = Some (false, c).
Proof.
  intros Hr Hf. unfold AppConnection.processFrame.
  cbn [Z.eqb]. rewrite Hr, Hf. by cbn.
Qed.

Example AppConnection_continuation_closes readHandshake :
  ∃ c', AppConnection.doRead default_maxBufferLength readHandshake
          (Some (frame_bytes true 0 true [1; 2; 3] (λ _, 0)))
          AppConnection.opened = Some c' ∧
        emitted c' = [EConnect; EClose 1002 None] ∧
        readyState c' = CLOSING ∧
        written (socket c') = [[136; 2; 3; 234]].
Proof. eexists. split; [vm_compute; reflexivity|]. by vm_compute. Qed.

Example AppConnection_hello readHandshake :
  ∃ c', AppConnection.doRead default_maxBufferLength readHandshake
          (Some (frame_bytes true 1 true (str "Hello") (λ i, Z.of_nat i)))
          AppConnection.opened = Some c' ∧
        emitted c' = [EConnect; EText (str "Hello")] ∧
        frameBuffer c' = VString [] ∧
        readyState c' = OPEN.
Proof. eexists. split; [vm_compute; reflexivity|]. by vm_compute. Qed.

(** C1.  What [Connection] does with the single text frame ["Hello"] of the
    specification's scenario, received by a client right after its
    handshake: the slot [frameBuffer] is undefined, which is not [null], so
    [processFrame] answers [false]; no [text] event is emitted and [doRead]
    closes the connection with code 1002. *)
Theorem Connection_text_frame_is_rejected entropy readHandshake :
  let c := Connection.opened false in
  Connection.processFrame entropy true 1 (str "Hello") c = Some (false, c) ∧
  ∃ c', Connection.doRead entropy default_maxBufferLength readHandshake
          (Some ([129; 5] ++ str "Hello")) c = Some c' ∧
        emitted c' = [EConnect; EClose 1002 None] ∧
        readyState c' = CLOSING.
Proof.
  intros c. split; [reflexivity|].
  eexists. split; [vm_compute; reflexivity|]. by vm_compute.
Qed.

(** C2.  What [Connection] does with a continuation frame received while no
    message is being assembled, by a client right after its handshake: the
    slot [frameBuffer] is undefined, which is not [null], so the frame is
    taken as binary data; [binary] is emitted with a new stream that
    receives the payload, and the connection stays open. *)
Theorem Connection_continuation_is_accepted entropy readHandshake :
  let c := Connection.opened false in
  Connection.processFrame entropy true 0 [1; 2; 3] c
  = Some (true,
          set_streams [{| pushed := [[1; 2; 3]]; ended := true |}]
            (emit (EBinary 0) c)) ∧
  ∃ c', Connection.doRead entropy default_maxBufferLength readHandshake
          (Some [128; 3; 1; 2; 3]) c = Some c' ∧
        emitted c' = [EConnect; EBinary 0] ∧
        readyState c' = OPEN ∧
        written (socket c') = [].
Proof.
  intros c. split; [reflexivity|].
  eexists. split; [vm_compute; reflexivity|]. by vm_compute.
Qed.

(** [Connection] rejects every text or binary frame, whatever the slot
    holds: no value of the slot is [null] after the constructor, which
    leaves it undefined, and [processFrame] only ever stores undefined, a
    string or a stream. *)
Lemma Connection_data_frame_rejected entropy (c : connection) (fin : bool)
    opcode (payload : Buffer) :
  readyState c = OPEN → opcode = 1 ∨ opcode = 2 → frameBuffer c ≠ VNull →
  Connection.processFrame entropy fin opcode payload c = Some (false, c).
Proof.
  intros Hr Ho Hn. unfold Connection.processFrame.
  assert (is_null (frameBuffer c) = false) as Hnull by (by destruct (frameBuffer c)).
  destruct Ho as [-> | ->]; cbn [Z.eqb]; rewrite Hr, Hnull; by cbn.
Qed.

(** ** The default subprotocol selector *)

(** What the selector returns is the name of an index of the offer that
    happens to be in the list of the server, never a protocol taken from the
    offer for being one. *)
Lemma indexOf_from_elem i (l : list jsstring) x :
  indexOf_from i l x ≠ -1 → x ∈ l.
Proof.
  revert i. induction l as [|y l IH]; simpl; intros i E; [congruence|].
  case_bool_decide as Hy; [rewrite Hy; by left|]. right. by eapply IH.
Qed.

Lemma select_is_key validProtocols keys x :
  Server.select validProtocols keys = Some x → x ∈ keys ∧ x ∈ validProtocols.
Proof.
  induction keys as [|k keys IH]; simpl; [done|].
  destruct (indexOf validProtocols k =? -1) eqn:E; simpl.
  - intros [H1 H2]%IH. split; [by right|done].
  - intros [= <-]. split; [by left|].
    apply Z.eqb_neq in E. by eapply indexOf_from_elem.
Qed.

(** C3.  The default selector on the offer [["chat", "superchat"]] with the
    allow-list [["superchat"]], the negotiation of the specification's
    scenario: the loop [for (const protocol in protocols)] runs over the
    index names ["0"] and ["1"], neither is in the allow-list, and the
    selector returns undefined, where the first offered protocol of the
    allow-list is ["superchat"]; with the allow-list [["1"]] it returns
    ["1"], which was not offered.  [Server] and [SocketApp] agree. *)
Theorem default_selector_reads_index_names :
  let offer := [str "chat"; str "superchat"] in
  Server._buildSelectProtocol [str "superchat"] (Some offer) = None ∧
  SocketApp._selectProtocol [str "superchat"] (Some offer) = None ∧
  Server.spec_selectProtocol [str "superchat"] offer = Some (str "superchat") ∧
  Server._buildSelectProtocol [str "1"] (Some offer) = Some (str "1") ∧
  Server.spec_selectProtocol [str "1"] offer = None.
Proof. by vm_compute. Qed.

(** ** Ping and pong *)

(** How long a decoded and an encoded string can be. *)
Lemma len_utf8_bytes cp : 1 <= len (utf8_bytes cp) <= 4.
Proof. unfold utf8_bytes. repeat split_if; unfold len; cbn; lia. Qed.

Lemma len_from (s : jsstring) : len (from s) <= 4 * len s.
Proof.
  remember (length s) as n eqn:Hn.
  assert (Hle : (length s <= n)%nat) by lia. clear Hn.
  revert s Hle. induction n as [|n IH]; intros s Hle.
  { destruct s; [unfold len; cbn; lia|cbn in Hle; lia]. }
  destruct s as [|c s]; [unfold len; cbn; lia|].
  cbn [from].
  assert (Hs : len (from s) <= 4 * len s) by (apply IH; cbn in Hle; lia).
  assert (Hc : len (c :: s) = 1 + len s) by (unfold len; cbn; lia).
  destruct (is_high_surrogate c).
  - destruct s as [|d s].
    + pose proof (len_utf8_bytes 65533). unfold len in *. cbn in *. lia.
    + assert (Hs' : len (from s) <= 4 * len s) by (apply IH; cbn in Hle; lia).
      assert (Hd : len (d :: s) = 1 + len s) by (unfold len; cbn; lia).
      destruct (is_low_surrogate d); rewrite len_app.
      * pose proof (len_utf8_bytes (65536 + (c - 55296) * 1024 + (d - 56320))). lia.
      * pose proof (len_utf8_bytes 65533). lia.
  - destruct (is_low_surrogate c); rewrite len_app.
    + pose proof (len_utf8_bytes 65533). lia.
    + pose proof (len_utf8_bytes c). lia.
Qed.

Lemma len_utf8_lead b : len (utf8_lead b).1 <= 1.
Proof. unfold utf8_lead. repeat split_if; unfold len; cbn; lia. Qed.

Lemma len_utf16 cp : len (utf16 cp) <= 2.
Proof. unfold utf16. split_if; unfold len; cbn; lia. Qed.

Lemma len_utf8_decode st (p : Buffer) : len (utf8_decode st p) <= 2 * len p + 1.
Proof.
  revert st. induction p as [|b p IH]; intros st.
  { cbn. destruct (u_missing st); unfold len; cbn; lia. }
  assert (Hc : len (b :: p) = 1 + len p) by (unfold len; cbn [length]; lia).
  rewrite Hc. cbn [utf8_decode].
  pose proof (len_utf8_lead b) as Hl.
  destruct (u_missing st) as [|m].
  - destruct (utf8_lead b) as [out st'] eqn:E. cbn [fst] in Hl.
    rewrite len_app. specialize (IH st'). lia.
  - destruct ((u_lower st <=? b) && (b <=? u_upper st)).
    + destruct m.
      * rewrite len_app. pose proof (len_utf16 (Z.lor (u_cp st ≪ 6) (Z.land b 63))).
        specialize (IH utf8_start). lia.
      * match goal with |- len (utf8_decode ?s p) <= _ => specialize (IH s) end. lia.
    + destruct (utf8_lead b) as [out st'] eqn:E. cbn [fst] in Hl.
      change (65533 :: out ++ utf8_decode st' p)
        with ([65533] ++ out ++ utf8_decode st' p).
      rewrite !len_app. specialize (IH st'). change (len [65533]) with 1. lia.
Qed.

Lemma pong_payload_bound (payload : Buffer) :
  is_buffer payload → len (from (toString payload)) < 2 ^ 64.
Proof.
  intros [_ H]. pose proof (len_from (toString payload)).
  pose proof (len_utf8_decode utf8_start payload). fold (toString payload) in *.
  unfold kMaxLength in H.
  change (2 ^ 53 - 1) with 9007199254740991 in H.
  change (2 ^ 64) with 18446744073709551616. lia.
Qed.

(** A payload of ASCII bytes is its own decoding, encoded again. *)
Lemma from_toString_ascii (p : Buffer) :
  Forall (λ b, 0 <= b < 128) p → from (toString p) = p.
Proof.
  unfold toString. induction 1 as [|b p Hb Hp IH]; [done|].
  cbn [utf8_decode utf8_start u_missing]. unfold utf8_lead.
  destruct ((0 <=? b) && (b <=? 127)) eqn:E.
  - cbn [app from]. unfold is_high_surrogate, is_low_surrogate.
    destruct (55296 <=? b) eqn:E1; [apply Z.leb_le in E1; lia|].
    destruct (56320 <=? b) eqn:E2; [apply Z.leb_le in E2; lia|].
    cbn [andb]. unfold utf8_bytes.
    destruct (b <? 128) eqn:E3; [|apply Z.ltb_ge in E3; lia].
    cbn [app]. by rewrite IH.
  - apply andb_false_iff in E as [E|E]; apply Z.leb_gt in E; lia.
Qed.

(** What [Connection] does with a ping while [OPEN]: it writes one pong
    frame, whose payload is the payload of the ping decoded as UTF-8 and
    encoded again, and emits nothing. *)
Lemma Connection_ping entropy (c : connection) (payload : Buffer) :
  readyState c = OPEN →
  len (from (toString payload)) < 2 ^ 64 →
  let masked := negb (server c) in
  let f := frame_bytes true 10 masked (from (toString payload))
             (λ i, entropy (drawn c + i)%nat) in
  Connection.processFrame entropy true 9 payload c
  = Some (true, socket_write f (if masked then set_drawn (drawn c + 4)%nat c else c)).
Proof.
  intros Hr Hl masked f. unfold Connection.processFrame.
  cbn [Z.eqb]. rewrite Hr. unfold write_frame, frame.createPongFrame.
  rewrite createFrame_bytes by done. by cbn.
Qed.

Lemma AppConnection_ping (c : connection) (payload : Buffer) :
  readyState c = OPEN →
  len (from (toString payload)) < 2 ^ 64 →
  AppConnection.processFrame true 9 payload c
  = Some (true, socket_write
                  (frame_bytes true 10 false (from (toString payload)) (λ _, 0)) c).
Proof.
  intros Hr Hl. unfold AppConnection.processFrame.
  cbn [Z.eqb]. rewrite Hr.
  unfold AppConnection.write_unmasked, write_frame, frame.createPongFrame.
  rewrite createFrame_bytes by done. by cbn.
Qed.

(** The claim C6 as it is worded fails: a server-side connection that
    receives a ping with the one byte [0xFF], which is not UTF-8, writes a
    pong whose payload is the three bytes of U+FFFD. *)
Lemma ping_payload_counterexample :
  ¬ (∀ entropy c (payload : Buffer) peer,
       readyState c = OPEN → is_buffer payload → len payload <= 125 →
       server peer = negb (server c) →
       ∃ c' f,
         Connection.processFrame entropy true 9 payload c = Some (true, c') ∧
         written (socket c') = written (socket c) ++ [f] ∧
         emitted c' = emitted c ∧
         decodeFrame (Connection.violation peer) f = Some (Frame true 10 payload [])).
Proof.
  intros H.
  destruct (H (λ _, 0) (Connection.opened true) [255] (Connection.opened false))
    as (c' & f & H1 & H2 & _ & H4); try done.
  { split; [|by vm_compute]. repeat constructor; unfold is_byte; lia. }
  vm_compute in H1. injection H1 as <-.
  vm_compute in H2. injection H2 as <-.
  vm_compute in H4. discriminate.
Qed.

Lemma ping_pong_payload entropy (c : connection) (payload : Buffer) :
  readyState c = OPEN →
  is_buffer payload →
  answered_by_pong entropy c payload (from (toString payload)).
Proof.
  intros Hr Hp. pose proof (pong_payload_bound _ Hp) as Hl'.
  split.
  - pose proof (Connection_ping entropy c payload Hr Hl') as Hping.
    cbv zeta in Hping.
    eexists _, (frame_bytes true 10 (negb (server c)) (from (toString payload))
                  (λ i, entropy (drawn c + i)%nat)).
    split; [exact Hping|].
    split; [by destruct (server c)|].
    split; [by destruct (server c)|]. split; [by destruct (server c)|].
    intros peer Hpeer. rewrite <- (app_nil_r (frame_bytes _ _ _ _ _)).
    apply decode_frame_bytes; try done.
    unfold Connection.violation. rewrite Hpeer. by destruct (server c).
  - pose proof (AppConnection_ping c payload Hr Hl') as Hping.
    eexists _, (frame_bytes true 10 false (from (toString payload)) (λ _, 0)).
    split; [exact Hping|].
    split; [done|]. split; [done|]. split; [done|].
    intros peer Hpeer. rewrite <- (app_nil_r (frame_bytes _ _ _ _ _)).
    apply decode_frame_bytes; try done.
    unfold Connection.violation. by rewrite Hpeer.
Qed.

(** C6 (amended).  For every connection in state [OPEN] and every ping
    payload, receiving the ping writes exactly one pong frame and raises no
    event.  When the payload is well-formed UTF-8 (decoding it and encoding
    the result gives the payload back), the payload of the pong is the
    payload of the ping; for every payload, well-formed or not, it is the
    UTF-8 encoding of the decoded payload of the ping.  This holds for
    [Connection] in both roles and for [AppConnection]. *)
Theorem ping_is_answered_by_pong entropy (c : connection) (payload : Buffer) :
  readyState c = OPEN →
  is_buffer payload →
  (from (toString payload) = payload → answered_by_pong entropy c payload payload) ∧
  answered_by_pong entropy c payload (from (toString payload)).
Proof.
  intros Hr Hp. pose proof (ping_pong_payload entropy c payload Hr Hp) as H.
  split; [|exact H]. intros Hu. by rewrite Hu in H.
Qed.

Lemma ping_is_answered_by_pong_witness :
  let c := Connection.opened true in
  let payload := str "abc" in
  readyState c = OPEN ∧ is_buffer payload ∧ from (toString payload) = payload ∧
  answered_by_pong (λ _, 0) c payload payload.
Proof.
  intros c payload.
  assert (Hp : is_buffer payload).
  { split; [|by vm_compute]. repeat constructor; unfold is_byte; lia. }
  split; [reflexivity|]. split; [exact Hp|]. split; [reflexivity|].
  exact (proj1 (ping_is_answered_by_pong (λ _, 0) c payload eq_refl Hp) eq_refl).
Defined.

(** The ping with the one byte [0xFF], which is not UTF-8: the payload of
    the pong is the three bytes of U+FFFD. *)
Example pong_replacement_character :
  from (toString [255]) = [239; 191; 189] ∧
  Connection.processFrame (λ _, 0) true 9 [255] (Connection.opened true)
  = Some (true, socket_write [138; 3; 239; 191; 189] (Connection.opened true)).
Proof. by vm_compute. Qed.

Example pong_abc :
  Connection.processFrame (λ _, 0) true 9 (str "abc") (Connection.opened true)
  = Some (true, socket_write ([138; 3] ++ str "abc") (Connection.opened true)).
Proof. reflexivity. Qed.

(** ** Close events *)

Lemma count_close_app es es' :
  count_close (es ++ es') = (count_close es + count_close es')%nat.
Proof. induction es as [|e es IH]; cbn; [done|]. rewrite IH. lia. Qed.

Lemma close_count_emit e c :
  close_count (emit e c) = (close_count c + if is_close e then 1 else 0)%nat.
Proof.
  unfold close_count. cbn [emitted emit]. rewrite count_close_app. cbn. lia.
Qed.

Lemma write_frame_preserves entropy masked create c c' :
  write_frame entropy masked create c = Some c' →
  emitted c' = emitted c ∧ readyState c' = readyState c ∧
  buffer c' = buffer c ∧ frameBuffer c' = frameBuffer c.
Proof.
  unfold write_frame. destruct (create _ _); cbn; [|done].
  intros [= <-]. by destruct masked.
Qed.

Lemma processCloseFrame_effect entropy payload c c' :
  Connection.processCloseFrame entropy payload c = Some c' →
  readyState c' = CLOSED ∧ close_count c' = S (close_count c) ∧
  buffer c' = buffer c.
Proof.
  unfold Connection.processCloseFrame.
  destruct (if 2 <=? len payload then _ else _) as [[code reason]|]; cbn; [|done].
  destruct (write_frame _ _ _ _) as [c1|] eqn:Hw; cbn; [|done].
  apply write_frame_preserves in Hw as (He & Hr & Hb & Hf).
  intros [= <-]. split; [done|]. split; [|done].
  rewrite close_count_emit. unfold close_count. cbn. rewrite He. lia.
Qed.

Lemma gone_readyState c c' : readyState c' = readyState c → gone c' = gone c.
Proof. unfold gone, alive. by intros ->. Qed.

Lemma processFrame_effect entropy fin opcode payload c r c' :
  Connection.processFrame entropy fin opcode payload c = Some (r, c') →
  (close_count c' + gone c = close_count c + gone c')%nat ∧
  (alive c = false → readyState c' = readyState c) ∧
  buffer c' = buffer c.
Proof.
  unfold Connection.processFrame.
  destruct (opcode =? 8).
  { destruct (readyState c) eqn:Hr; try (by intros [= <- <-]).
    destruct (Connection.processCloseFrame _ _ _) as [c1|] eqn:Hc; cbn; [|done].
    intros [= <- <-]. apply processCloseFrame_effect in Hc as (H1 & H2 & H3).
    unfold gone, alive. rewrite Hr, H1, H2. split; [lia|]. done. }
  destruct (opcode =? 9).
  { destruct (readyState c) eqn:Hr; try (by intros [= <- <-]).
    destruct (write_frame _ _ _ _) as [c1|] eqn:Hw; cbn; [|done].
    apply write_frame_preserves in Hw as (He & Hr' & Hb & Hf).
    intros [= <- <-]. rewrite (gone_readyState c c1) by done.
    unfold close_count. by rewrite He, Hr'. }
  destruct (opcode =? 10).
  { intros [= <- <-]. rewrite close_count_emit. unfold gone, alive. cbn.
    destruct (readyState c); (split; [lia|done]). }
  destruct (negb (bool_decide (readyState c = OPEN))); [by intros [= <- <-]|].
  destruct ((opcode =? 0) && is_null (frameBuffer c)); [by intros [= <- <-]|].
  destruct (negb (opcode =? 0) && negb (is_null (frameBuffer c)));
    [by intros [= <- <-]|].
  destruct (frameBuffer c) as [| |s|ref], fin; cbn; intros [= <- <-];
    unfold gone, alive, close_count; cbn;
    rewrite ?count_close_app; cbn;
    destruct (readyState c); (split; [lia|done]).
Qed.

Lemma close_effect entropy code reason c c' :
  Connection.close entropy code reason c = Some c' →
  close_count c' = S (close_count c) ∧ alive c' = false ∧ buffer c' = buffer c ∧
  emitted c' = emitted c ++ [EClose code reason] ∧
  readyState c' = (if bool_decide (readyState c = OPEN) then CLOSING else CLOSED).
Proof.
  unfold Connection.close.
  destruct (readyState c) eqn:Hr; cbn.
  - intros [= <-]. rewrite close_count_emit. unfold gone, alive, close_count. cbn.
    repeat split; lia.
  - destruct (write_frame _ _ _ _) as [c1|] eqn:Hw; cbn; [|done].
    apply write_frame_preserves in Hw as (He & Hr' & Hb & Hf).
    intros [= <-]. rewrite close_count_emit. unfold gone, alive, close_count. cbn.
    rewrite He. repeat split; try done; lia.
  - intros [= <-]. rewrite close_count_emit. unfold gone, alive, close_count. cbn.
    repeat split; lia.
  - intros [= <-]. rewrite close_count_emit. unfold gone, alive, close_count. cbn.
    rewrite Hr. repeat split; lia.
Qed.

Lemma onclose_effect c :
  (close_count (Connection.onclose c) + gone c = close_count c + 1)%nat ∧
  readyState (Connection.onclose c) = CLOSED.
Proof.
  unfold Connection.onclose, gone, alive.
  destruct (readyState c) eqn:Hr; cbn;
    destruct (frameBuffer c); cbn; destruct (outStream c); cbn;
    unfold close_count; cbn; rewrite ?count_close_app; cbn;
    (split; [lia|done]).
Qed.

Lemma step_effect entropy op c :
  (close_count (step entropy op c) + gone c
   = close_count c + gone (step entropy op c)
     + match op with
       | CallClose _ _ => gone c
       | _ => 0
       end)%nat.
Proof.
  destruct op as [|code reason|fin opcode payload|]; cbn [step].
  - unfold gone, alive, close_count.
    destruct (readyState c) eqn:Hr; cbn; rewrite ?Hr, ?count_close_app; cbn; lia.
  - destruct (Connection.close entropy code reason c) as [c'|] eqn:Hc; cbn.
    + apply close_effect in Hc as (H1 & H2 & _). unfold gone. rewrite H1, H2.
      destruct (alive c); lia.
    + unfold Connection.close in Hc.
      destruct (readyState c) eqn:Hr; cbn in Hc; try done.
      unfold gone, alive. rewrite Hr. lia.
  - destruct (Connection.processFrame entropy fin opcode payload c) as [[r c']|] eqn:Hp;
      cbn; [|lia].
    apply processFrame_effect in Hp as (H1 & _). lia.
  - destruct (onclose_effect c) as (H1 & H2).
    assert (gone (Connection.onclose c) = 1%nat) as ->
      by (unfold gone, alive; by rewrite H2).
    lia.
Qed.

Lemma lifetime_effect entropy ops c :
  (close_count (lifetime entropy ops c) + gone c
   = close_count c + gone (lifetime entropy ops c) + late_closes entropy ops c)%nat.
Proof.
  revert c. induction ops as [|op ops IH]; intros c; cbn [lifetime foldl late_closes].
  - lia.
  - specialize (IH (step entropy op c)). unfold lifetime in IH.
    pose proof (step_effect entropy op c) as Hs.
    destruct op; lia.
Qed.

(** The claim C7 as it is worded fails: two calls of [close] on an open
    connection emit [close] twice. *)
Lemma close_twice_counterexample :
  ¬ (∀ entropy ops c,
       alive c = true → close_count c = 0%nat →
       readyState (lifetime entropy ops c) = CLOSED →
       close_count (lifetime entropy ops c) = 1%nat).
Proof.
  intros H.
  specialize (H (λ _, 0)
                [CallClose 1000 (Some (str "bye")); CallClose 1000 (Some (str "bye"))]
                (Connection.opened true) eq_refl eq_refl eq_refl).
  vm_compute in H. discriminate.
Qed.

(** X13.  Over every lifetime of a connection -- calls of [close], frames
    received, among them close frames of the peer, and ends of the
    transport, in any order and number -- the number of close events is one
    as soon as the connection has left [CONNECTING] and [OPEN] (and none
    before), plus one for every call of [close] that finds the connection
    already [CLOSING] or [CLOSED].  It is therefore exactly one in the
    lifetimes in which [close] is never called on a [CLOSING] or [CLOSED]
    connection. *)
Theorem close_event_count entropy (ops : list operation) (c : connection) :
  alive c = true →
  close_count c = 0%nat →
  close_count (lifetime entropy ops c)
  = (gone (lifetime entropy ops c) + late_closes entropy ops c)%nat ∧
  (late_closes entropy ops c = 0%nat →
   alive (lifetime entropy ops c) = false →
   close_count (lifetime entropy ops c) = 1%nat).
Proof.
  intros Ha H0. pose proof (lifetime_effect entropy ops c) as H.
  assert (gone c = 0%nat) as Hg0 by (unfold gone; by rewrite Ha).
  rewrite Hg0, H0 in H. split; [lia|].
  intros Hl Hg. rewrite Hl in H. unfold gone in H. rewrite Hg in H. lia.
Qed.

Lemma close_event_count_witness :
  let entropy := λ _ : nat, 0 in
  let ops := [Handshake;
              ReceiveFrame true 9 (str "abc");
              CallClose 1000 (Some (str "bye"));
              ReceiveFrame true 8 [3; 232];
              TransportClosed; TransportClosed] in
  let c := constructed false VUndefined OUndefined in
  alive c = true ∧ close_count c = 0%nat ∧
  late_closes entropy ops c = 0%nat ∧
  alive (lifetime entropy ops c) = false ∧
  close_count (lifetime entropy ops c) = 1%nat.
Proof.
  intros entropy ops c.
  split; [reflexivity|]. split; [reflexivity|].
  split; [reflexivity|]. split; [reflexivity|].
  exact (proj2 (close_event_count entropy ops c eq_refl eq_refl) eq_refl eq_refl).
Defined.

(** A peer alone can have [close] emitted twice: its close frame, masked,
    followed in the same chunk by two bytes that are no frame. *)
Example peer_close_then_garbage readHandshake :
  ∃ c', Connection.doRead (λ _, 0) default_maxBufferLength readHandshake
          (Some (frame_bytes true 8 true [3; 232] (λ _, 0) ++ [255; 0]))
          (Connection.opened true) = Some c' ∧
        emitted c' = [EConnect; EClose 1000 (Some []); EClose 1002 None] ∧
        readyState c' = CLOSED.
Proof. eexists. split; [vm_compute; reflexivity|]. by vm_compute. Qed.

(** C7.  The close event is emitted more than once in lifetimes that end in
    the ways the claim lists.  A peer alone has it emitted twice: its close
    frame, which is answered and emits [close], followed in the same chunk
    by two bytes that are no frame, for which [doRead] calls [close(1002)]
    on the connection that is [CLOSED] by then.  So do two calls of [close]
    on an open connection, and a call of [close] after the transport was
    lost: [close] emits the event whatever the state is. *)
Theorem close_event_is_repeated readHandshake :
  let entropy := λ _ : nat, 0 in
  let c := Connection.opened true in
  (∃ c', Connection.doRead entropy default_maxBufferLength readHandshake
           (Some (frame_bytes true 8 true [3; 232] (λ _, 0) ++ [255; 0])) c
         = Some c' ∧
         emitted c' = [EConnect; EClose 1000 (Some []); EClose 1002 None] ∧
         readyState c' = CLOSED ∧ close_count c' = 2%nat) ∧
  (∃ c1 c2, Connection.close entropy 1000 (Some (str "bye")) c = Some c1 ∧
            Connection.close entropy 1000 (Some (str "bye")) c1 = Some c2 ∧
            readyState c1 = CLOSING ∧ readyState c2 = CLOSED ∧
            emitted c2 = [EConnect; EClose 1000 (Some (str "bye"));
                          EClose 1000 (Some (str "bye"))] ∧
            close_count c2 = 2%nat) ∧
  (∃ c2, Connection.close entropy 1000 None (Connection.onclose c) = Some c2 ∧
         readyState (Connection.onclose c) = CLOSED ∧
         emitted c2 = [EConnect; EClose 1006 (Some []); EClose 1000 None] ∧
         close_count c2 = 2%nat).
Proof.
  intros entropy c. split; [|split].
  - eexists. split; [vm_compute; reflexivity|]. by vm_compute.
  - eexists _, _. split; [vm_compute; reflexivity|].
    split; [vm_compute; reflexivity|]. by vm_compute.
  - eexists. split; [vm_compute; reflexivity|]. by vm_compute.
Qed.

(** ** The receive loop *)

Lemma slice_Some (buf : Buffer) s e r :
  slice buf s e = Some r → 0 <= s ∧ s <= e ∧ e <= len buf.
Proof.
  unfold slice.
  destruct (0 <=? s) eqn:E1; [|done].
  destruct (s <=? e) eqn:E2; [|done].
  destruct (e <=? len buf) eqn:E3; [|done].
  intros _. apply Z.leb_le in E1, E2, E3. lia.
Qed.

Lemma slice_from_Some (buf : Buffer) s r :
  slice_from buf s = Some r →
  0 <= s ∧ s <= len buf ∧ r = drop (Z.to_nat s) buf.
Proof.
  unfold slice_from.
  destruct (0 <=? s) eqn:E1; [|done].
  destruct (s <=? len buf) eqn:E3; [|done].
  intros [= <-]. apply Z.leb_le in E1, E3. repeat split; lia.
Qed.

(** A decoded frame took at least its two header bytes from the buffer, and
    what is left is the rest of the buffer. *)
Lemma decodeFrame_Frame violation (buffer : Buffer) fin opcode payload rest :
  decodeFrame violation buffer = Some (Frame fin opcode payload rest) →
  ∃ n, 2 <= n ∧ n <= len buffer ∧ rest = drop (Z.to_nat n) buffer.
Proof.
  unfold decodeFrame.
  destruct (len buffer <? 2) eqn:E2; [done|].
  destruct (get buffer 0) as [B0|]; [|done]. cbn [mbind option_bind].
  do 3 (split_if; [done|]).
  destruct (get buffer 1) as [B1|]; [|done]. cbn [mbind option_bind].
  split_if; [done|].
  assert (H7 : 0 <= B1 mod 128 < 128) by zlia.
  set (start := if negb (B1 ≫ 7 =? 0) then 6 else 2).
  assert (Hs : 2 <= start) by (subst start; destruct (B1 ≫ 7 =? 0); cbn; lia).
  destruct (len buffer <? start + B1 mod 128); [done|].
  destruct (if B1 mod 128 =? 126 then _ else _) as [[len_ start']|] eqn:Hext;
    cbn [mbind option_bind]; [|done].
  assert (Hs' : 2 <= start').
  { destruct (B1 mod 128 =? 126).
    - destruct (readUInt16BE buffer 2); cbn [mbind option_bind] in Hext; [|done].
      injection Hext as <- <-. lia.
    - destruct (B1 mod 128 =? 127).
      + destruct (readUInt32BE buffer 2); cbn [mbind option_bind] in Hext; [|done].
        destruct (readUInt32BE buffer 6); cbn [mbind option_bind] in Hext; [|done].
        injection Hext as <- <-. lia.
      + injection Hext as <- <-. lia. }
  destruct (len buffer <? start' + len_); [done|].
  destruct (slice buffer start' (start' + len_)) as [p|] eqn:Hp;
    cbn [mbind option_bind]; [|done].
  apply slice_Some in Hp as (Hp1 & Hp2 & Hp3).
  clearbody start.
  destruct (negb (B1 ≫ 7 =? 0));
    [destruct (slice buffer (start' - 4) start')|]; cbn [mbind option_bind];
    try done.
  all: destruct (slice_from buffer (start' + len_)) as [r|] eqn:Hr;
    cbn [mbind option_bind]; [|done].
  all: apply slice_from_Some in Hr as (Hr1 & Hr2 & ->).
  all: intros [= <- <- <-]; exists (start' + len_); repeat split; try done; lia.
Qed.

Lemma len_drop (n : Z) (buf : Buffer) :
  0 <= n <= len buf → len (drop (Z.to_nat n) buf) = len buf - n.
Proof. intros. unfold len in *. rewrite length_drop. lia. Qed.

Lemma Connection_extractFrame_buffer entropy c t c' :
  Connection.extractFrame entropy c = Some (t, c') →
  (match t with
   | Some true => len (buffer c') + 2 <= len (buffer c)
   | _ => len (buffer c') <= len (buffer c)
   end) ∧
  ∃ n, buffer c' = drop n (buffer c).
Proof.
  unfold Connection.extractFrame.
  destruct (decodeFrame _ _) as [[| |fin opcode payload rest]|] eqn:Hd; cbn; try done.
  - intros [= <- <-]. split; [lia|]. by exists 0%nat.
  - intros [= <- <-]. split; [lia|]. by exists 0%nat.
  - destruct (Connection.processFrame _ _ _ _ _) as [[r c'']|] eqn:Hp; cbn; [|done].
    intros [= <- <-].
    apply processFrame_effect in Hp as (_ & _ & Hb). cbn in Hb.
    apply decodeFrame_Frame in Hd as (n & H2 & Hn & ->).
    rewrite Hb. rewrite len_drop by lia. split; [destruct r; lia|]. eauto.
Qed.

(** The loop ends, and it ends with something other than [true]: the length
    of the buffer is fuel enough.  What it leaves in the buffer is an end of
    what it found there. *)
Lemma Connection_extractLoop_ends entropy fuel c t c' :
  (length (buffer c) <= fuel)%nat →
  Connection.extractLoop entropy fuel c = Some (t, c') →
  t ≠ Some true ∧ ∃ n, buffer c' = drop n (buffer c).
Proof.
  revert c. induction fuel as [|fuel IH]; intros c Hf; cbn [Connection.extractLoop].
  - destruct (Connection.extractFrame entropy c) as [[t0 c0]|] eqn:He; cbn; [|done].
    apply Connection_extractFrame_buffer in He as (Hl & Hn).
    assert (t0 = t → c0 = c' → t ≠ Some true ∧ ∃ n, buffer c' = drop n (buffer c)).
    { intros <- <-. split; [|done].
      intros ->. pose proof (len_nonneg (buffer c0)). unfold len in *. lia. }
    destruct t0 as [[]|]; intros [= ? ?]; auto.
  - destruct (Connection.extractFrame entropy c) as [[t0 c0]|] eqn:He; cbn; [|done].
    apply Connection_extractFrame_buffer in He as (Hl & n & Hn).
    destruct t0 as [[]|].
    + intros Hloop. apply IH in Hloop as (Ht & m & Hm).
      * split; [done|]. exists (n + m)%nat. by rewrite Hm, Hn, drop_drop.
      * unfold len in Hl. lia.
    + intros [= <- <-]. split; [done|eauto].
    + intros [= <- <-]. split; [done|eauto].
Qed.

Lemma createCloseFrame_1009 masked key :
  frame.createCloseFrame 1009 None masked key
  = Some (frame_bytes true 8 masked [3; 241] key).
Proof.
  change (frame.createFrame true 8 masked [3; 241] key
          = Some (frame_bytes true 8 masked [3; 241] key)).
  by apply createFrame_bytes.
Qed.

(** [close(1009)] cannot throw: its frame is two bytes of payload. *)
Lemma close_1009 entropy c :
  ∃ c', Connection.close entropy 1009 None c = Some c' ∧
        emitted c' = emitted c ++ [EClose 1009 None] ∧
        buffer c' = buffer c ∧
        readyState c' = (if bool_decide (readyState c = OPEN) then CLOSING else CLOSED) ∧
        (readyState c = OPEN →
         written (socket c')
         = written (socket c)
           ++ [frame_bytes true 8 (negb (server c)) [3; 241]
                 (λ i, entropy (drawn c + i)%nat)]).
Proof.
  unfold Connection.close.
  destruct (readyState c) eqn:Hr.
  - eexists. split; [reflexivity|]. by repeat split.
  - unfold write_frame. rewrite createCloseFrame_1009.
    eexists. split; [reflexivity|]. repeat split; by destruct (server c).
  - eexists. split; [reflexivity|]. by repeat split.
  - eexists. split; [reflexivity|]. by repeat split.
Qed.

(** A frame that announces five gibibytes of payload, of which the buffer
    holds the first byte: [extractFrame] asks for more data and changes
    nothing, the buffer in particular. *)
Example five_gibibytes_announced :
  let header := [130; 255; 0; 0; 0; 1; 64; 0; 0; 0; 1; 2; 3; 4; 170] in
  let c := set_buffer header (Connection.opened true) in
  announced header = Some (14 + 5 * 1024 * 1024 * 1024) ∧
  Connection.extractFrame (λ _, 0) c = Some (None, c).
Proof. by vm_compute. Qed.

(** X14.  After every [doRead] pass on a connection that is not [CLOSED] in
    which the extraction of frames stops for lack of data: if the buffer is
    longer than [maxBufferLength], the pass ends with [close(1009)] -- the
    event [close] with code 1009 is emitted, the connection becomes
    [CLOSING] (with the close frame of code 1009 written) if it was [OPEN]
    and [CLOSED] otherwise.  The buffer is not cut by this: what the pass
    leaves in it is an end of the bytes received so far. *)
Theorem oversized_buffer_closes_1009 entropy maxBufferLength readHandshake
    (c : connection) (chunk : Buffer) (c1 c2 : connection) :
  Connection.handshaken readHandshake (set_buffer (buffer c ++ chunk) c)
  = Some (true, c1) →
  readyState c1 ≠ CLOSED →
  Connection.extractLoop entropy (length (buffer c1)) c1 = Some (None, c2) →
  maxBufferLength < len (buffer c2) →
  ∃ c3,
    Connection.doRead entropy maxBufferLength readHandshake (Some chunk) c = Some c3 ∧
    Connection.close entropy 1009 None c2 = Some c3 ∧
    emitted c3 = emitted c2 ++ [EClose 1009 None] ∧
    readyState c3 = (if bool_decide (readyState c2 = OPEN) then CLOSING else CLOSED) ∧
    (readyState c2 = OPEN →
     written (socket c3)
     = written (socket c2)
       ++ [frame_bytes true 8 (negb (server c2)) [3; 241]
             (λ i, entropy (drawn c2 + i)%nat)]) ∧
    (∃ n, buffer c3 = drop n (buffer c1)).
Proof.
  intros Hh Hr Hloop Hmax.
  destruct (close_1009 entropy c2) as (c3 & Hc & He & Hb & Hs & Hw).
  exists c3. split; [|split; [done|]].
  - unfold Connection.doRead. rewrite Hh. cbn [mbind option_bind negb].
    rewrite bool_decide_eq_false_2 by done. cbn [negb].
    rewrite Hloop. cbn [mbind option_bind].
    destruct (maxBufferLength <? len (buffer c2)) eqn:E; [done|].
    apply Z.ltb_ge in E. lia.
  - split; [done|]. split; [done|]. split; [done|].
    apply Connection_extractLoop_ends in Hloop as (_ & n & Hn); [|done].
    exists n. by rewrite Hb.
Qed.

Lemma oversized_buffer_closes_1009_witness :
  let entropy := λ _ : nat, 0 in
  let readHandshake := λ c : connection, Some (true, c) in
  let c := Connection.opened true in
  let chunk := [130; 255; 0; 0; 0; 1; 64; 0; 0; 0; 1; 2; 3; 4; 170] in
  let c1 := set_buffer chunk c in
  Connection.handshaken readHandshake (set_buffer (buffer c ++ chunk) c)
  = Some (true, c1) ∧
  readyState c1 ≠ CLOSED ∧
  Connection.extractLoop entropy (length (buffer c1)) c1 = Some (None, c1) ∧
  8 < len (buffer c1) ∧
  ∃ c3,
    Connection.doRead entropy 8 readHandshake (Some chunk) c = Some c3 ∧
    Connection.close entropy 1009 None c1 = Some c3 ∧
    emitted c3 = emitted c1 ++ [EClose 1009 None] ∧
    readyState c3 = (if bool_decide (readyState c1 = OPEN) then CLOSING else CLOSED) ∧
    (readyState c1 = OPEN →
     written (socket c3)
     = written (socket c1)
       ++ [frame_bytes true 8 (negb (server c1)) [3; 241]
             (λ i, entropy (drawn c1 + i)%nat)]) ∧
    (∃ n, buffer c3 = drop n (buffer c1)).
Proof.
  intros entropy readHandshake c chunk c1.
  assert (H1 : Connection.handshaken readHandshake (set_buffer (buffer c ++ chunk) c)
               = Some (true, c1)) by reflexivity.
  assert (H2 : readyState c1 ≠ CLOSED) by discriminate.
  assert (H3 : Connection.extractLoop entropy (length (buffer c1)) c1
               = Some (None, c1)) by reflexivity.
  assert (H4 : 8 < len (buffer c1)) by reflexivity.
  split; [exact H1|]. split; [exact H2|]. split; [exact H3|]. split; [exact H4|].
  exact (oversized_buffer_closes_1009 entropy 8 readHandshake c chunk c1 c1
           H1 H2 H3 H4).
Defined.

(** *** The same for [AppConnection] *)

Lemma AppConnection_processFrame_buffer fin opcode payload c r c' :
  AppConnection.processFrame fin opcode payload c = Some (r, c') →
  buffer c' = buffer c.
Proof.
  unfold AppConnection.processFrame, AppConnection.processCloseFrame,
    AppConnection.write_unmasked.
  destruct (opcode =? 8).
  { destruct (readyState c); try (by intros [= <- <-]).
    destruct (if 2 <=? len payload then _ else _) as [[code reason]|];
      cbn [mbind option_bind]; [|done].
    destruct (write_frame _ _ _ _) as [c1|] eqn:Hw; cbn; [|done].
    apply write_frame_preserves in Hw as (_ & _ & Hb & _).
    by intros [= <- <-]. }
  destruct (opcode =? 9).
  { destruct (readyState c); try (by intros [= <- <-]).
    destruct (write_frame _ _ _ _) as [c1|] eqn:Hw; cbn; [|done].
    apply write_frame_preserves in Hw as (_ & _ & Hb & _).
    by intros [= <- <-]. }
  destruct (opcode =? 10); [by intros [= <- <-]|].
  destruct (negb (bool_decide (readyState c = OPEN))); [by intros [= <- <-]|].
  destruct ((opcode =? 0) && negb (slot_truthy (frameBuffer c)));
    [by intros [= <- <-]|].
  destruct (negb (opcode =? 0) && slot_truthy (frameBuffer c));
    [by intros [= <- <-]|].
  destruct (frameBuffer c) as [| |s|ref], fin; cbn; by intros [= <- <-].
Qed.

Lemma AppConnection_extractFrame_buffer c t c' :
  AppConnection.extractFrame c = Some (t, c') →
  (match t with
   | Some true => len (buffer c') + 2 <= len (buffer c)
   | _ => len (buffer c') <= len (buffer c)
   end) ∧
  ∃ n, buffer c' = drop n (buffer c).
Proof.
  unfold AppConnection.extractFrame.
  destruct (decodeFrame _ _) as [[| |fin opcode payload rest]|] eqn:Hd; cbn; try done.
  - intros [= <- <-]. split; [lia|]. by exists 0%nat.
  - intros [= <- <-]. split; [lia|]. by exists 0%nat.
  - destruct (AppConnection.processFrame _ _ _ _) as [[r c'']|] eqn:Hp; cbn; [|done].
    intros [= <- <-].
    apply AppConnection_processFrame_buffer in Hp as Hb. cbn in Hb.
    apply decodeFrame_Frame in Hd as (n & H2 & Hn & ->).
    rewrite Hb. rewrite len_drop by lia. split; [destruct r; lia|]. eauto.
Qed.

Lemma AppConnection_extractLoop_ends fuel c t c' :
  (length (buffer c) <= fuel)%nat →
  AppConnection.extractLoop fuel c = Some (t, c') →
  t ≠ Some true ∧ ∃ n, buffer c' = drop n (buffer c).
Proof.
  revert c. induction fuel as [|fuel IH]; intros c Hf; cbn [AppConnection.extractLoop].
  - destruct (AppConnection.extractFrame c) as [[t0 c0]|] eqn:He; cbn; [|done].
    apply AppConnection_extractFrame_buffer in He as (Hl & Hn).
    assert (t0 = t → c0 = c' → t ≠ Some true ∧ ∃ n, buffer c' = drop n (buffer c)).
    { intros <- <-. split; [|done].
      intros ->. pose proof (len_nonneg (buffer c0)). unfold len in *. lia. }
    destruct t0 as [[]|]; intros [= ? ?]; auto.
  - destruct (AppConnection.extractFrame c) as [[t0 c0]|] eqn:He; cbn; [|done].
    apply AppConnection_extractFrame_buffer in He as (Hl & n & Hn).
    destruct t0 as [[]|].
    + intros Hloop. apply IH in Hloop as (Ht & m & Hm).
      * split; [done|]. exists (n + m)%nat. by rewrite Hm, Hn, drop_drop.
      * unfold len in Hl. lia.
    + intros [= <- <-]. split; [done|eauto].
    + intros [= <- <-]. split; [done|eauto].
Qed.

Lemma AppConnection_close_1009 c :
  ∃ c', AppConnection.close 1009 None c = Some c' ∧
        emitted c' = emitted c ++ [EClose 1009 None] ∧
        buffer c' = buffer c ∧
        readyState c' = (if bool_decide (readyState c = OPEN) then CLOSING else CLOSED) ∧
        (readyState c = OPEN →
         written (socket c') = written (socket c) ++ [[136; 2; 3; 241]]).
Proof.
  unfold AppConnection.close.
  destruct (readyState c) eqn:Hr.
  - eexists. split; [reflexivity|]. by repeat split.
  - unfold AppConnection.write_unmasked, write_frame.
    rewrite createCloseFrame_1009.
    eexists. split; [reflexivity|]. by repeat split.
  - eexists. split; [reflexivity|]. by repeat split.
  - eexists. split; [reflexivity|]. by repeat split.
Qed.

(** [AppConnection.doRead] ends a pass that stops for lack of data with the
    buffer over the limit in [close(1009)] as well. *)
Lemma AppConnection_oversized_buffer_closes_1009 maxBufferLength readHandshake
    (c : connection) (chunk : Buffer) (c1 c2 : connection) :
  AppConnection.handshaken readHandshake (set_buffer (buffer c ++ chunk) c)
  = Some (true, c1) →
  readyState c1 ≠ CLOSED →
  AppConnection.extractLoop (length (buffer c1)) c1 = Some (None, c2) →
  maxBufferLength < len (buffer c2) →
  ∃ c3,
    AppConnection.doRead maxBufferLength readHandshake (Some chunk) c = Some c3 ∧
    AppConnection.close 1009 None c2 = Some c3 ∧
    emitted c3 = emitted c2 ++ [EClose 1009 None] ∧
    readyState c3 = (if bool_decide (readyState c2 = OPEN) then CLOSING else CLOSED) ∧
    (readyState c2 = OPEN →
     written (socket c3) = written (socket c2) ++ [[136; 2; 3; 241]]) ∧
    (∃ n, buffer c3 = drop n (buffer c1)).
Proof.
  intros Hh Hr Hloop Hmax.
  destruct (AppConnection_close_1009 c2) as (c3 & Hc & He & Hb & Hs & Hw).
  exists c3. split; [|split; [done|]].
  - unfold AppConnection.doRead. rewrite Hh. cbn [mbind option_bind negb].
    rewrite bool_decide_eq_false_2 by done. cbn [negb].
    rewrite Hloop. cbn [mbind option_bind].
    destruct (maxBufferLength <? len (buffer c2)) eqn:E; [done|].
    apply Z.ltb_ge in E. lia.
  - split; [done|]. split; [done|]. split; [done|].
    apply AppConnection_extractLoop_ends in Hloop as (_ & n & Hn); [|done].
    exists n. by rewrite Hb.
Qed.

(** [AppConnection.close] emits [close] at every call as well. *)
Example AppConnection_close_twice :
  (c1 ← AppConnection.close 1000 (Some (str "bye")) AppConnection.opened;
   c2 ← AppConnection.close 1000 (Some (str "bye")) c1;
   Some (emitted c2, readyState c2, written (socket c2)))
  = Some ([EConnect; EClose 1000 (Some (str "bye")); EClose 1000 (Some (str "bye"))],
          CLOSED, [[136; 5; 3; 232] ++ str "bye"]).
Proof. reflexivity. Qed.

(** ** The buffer after [close(1009)] *)

(** A pass of [doRead] that finds the frame at the head of the buffer
    incomplete: the chunk is appended, and [close(1009)] follows when the
    buffer is over the limit. *)
Lemma Connection_doRead_need_more entropy maxBufferLength readHandshake
    (c : connection) (chunk : Buffer) :
  readyState c ≠ CONNECTING → readyState c ≠ CLOSED →
  decodeFrame (Connection.violation c) (buffer c ++ chunk) = Some NeedMoreData →
  Connection.doRead entropy maxBufferLength readHandshake (Some chunk) c
  = if maxBufferLength <? len (buffer c ++ chunk)
    then Connection.close entropy 1009 None (received chunk c)
    else Some (received chunk c).
Proof.
  intros Hc Hd Hn. unfold Connection.doRead, Connection.handshaken.
  fold (received chunk c).
  rewrite bool_decide_eq_false_2 by done. cbn [mbind option_bind negb].
  rewrite bool_decide_eq_false_2 by done. cbn [negb].
  assert (He : Connection.extractFrame entropy (received chunk c)
               = Some (None, received chunk c)).
  { unfold Connection.extractFrame.
    change (decodeFrame (Connection.violation (received chunk c))
              (buffer (received chunk c)))
      with (decodeFrame (Connection.violation c) (buffer c ++ chunk)).
    by rewrite Hn. }
  assert (Hl : ∀ fuel, Connection.extractLoop entropy fuel (received chunk c)
                       = Some (None, received chunk c)).
  { intros [|fuel]; cbn [Connection.extractLoop]; by rewrite He. }
  rewrite Hl. done.
Qed.

Lemma Connection_doRead_closed entropy maxBufferLength readHandshake
    (c : connection) (chunk : Buffer) :
  readyState c = CLOSED →
  Connection.doRead entropy maxBufferLength readHandshake (Some chunk) c
  = Some (received chunk c).
Proof.
  intros Hc. unfold Connection.doRead, Connection.handshaken.
  fold (received chunk c). cbn [readyState received set_buffer]. rewrite Hc.
  rewrite bool_decide_eq_false_2 by done. cbn [mbind option_bind negb].
  cbn [readyState received set_buffer]. rewrite Hc.
  by rewrite bool_decide_eq_true_2.
Qed.

Lemma Connection_close_server entropy code reason c c' :
  Connection.close entropy code reason c = Some c' → server c' = server c.
Proof.
  unfold Connection.close, write_frame.
  destruct (readyState c); cbn [mbind option_bind]; try (by intros [= <-]).
  destruct (frame.createCloseFrame _ _ _ _); cbn [mbind option_bind]; [|done].
  intros [= <-]. cbn [server emit set_readyState socket_write set_socket].
  by destruct (negb (server c)).
Qed.

(** C8.  The receive buffer does exceed [maxBufferLength] at stable points,
    and it goes on growing.  The peer of an [OPEN] connection sends the
    start of a frame and keeps sending, the frame at the head of the buffer
    staying incomplete: the pass that finds the buffer over the limit calls
    [close(1009)] and leaves the connection [CLOSING] with the whole buffer
    kept; the next chunk is appended all the same and [close(1009)] is
    called again, which ends the socket; every later chunk is still
    appended to the buffer of the [CLOSED] connection. *)
Theorem buffer_outgrows_maxBufferLength entropy maxBufferLength readHandshake
    (c : connection) (chunk chunk' chunk'' : Buffer) :
  readyState c = OPEN →
  decodeFrame (Connection.violation c) (buffer c ++ chunk) = Some NeedMoreData →
  decodeFrame (Connection.violation c) (buffer c ++ chunk ++ chunk')
  = Some NeedMoreData →
  maxBufferLength < len (buffer c ++ chunk) →
  let doRead := Connection.doRead entropy maxBufferLength readHandshake in
  ∃ c1 c2 c3,
    doRead (Some chunk) c = Some c1 ∧
    readyState c1 = CLOSING ∧ buffer c1 = buffer c ++ chunk ∧
    emitted c1 = emitted c ++ [EClose 1009 None] ∧
    doRead (Some chunk') c1 = Some c2 ∧
    readyState c2 = CLOSED ∧ buffer c2 = buffer c ++ chunk ++ chunk' ∧
    emitted c2 = emitted c ++ [EClose 1009 None; EClose 1009 None] ∧
    doRead (Some chunk'') c2 = Some c3 ∧
    readyState c3 = CLOSED ∧ buffer c3 = buffer c ++ chunk ++ chunk' ++ chunk'' ∧
    emitted c3 = emitted c2 ∧
    maxBufferLength < len (buffer c1) ∧ len (buffer c1) <= len (buffer c2) ∧
    len (buffer c2) <= len (buffer c3).
Proof.
  intros Hr Hd Hd' Hmax doRead. subst doRead.
  destruct (close_1009 entropy (received chunk c)) as (c1 & Hc1 & He1 & Hb1 & Hs1 & _).
  cbn [readyState received set_buffer] in Hs1. rewrite Hr in Hs1.
  rewrite bool_decide_eq_true_2 in Hs1 by done.
  assert (Hsrv1 : server c1 = server c)
    by apply (Connection_close_server _ _ _ _ _ Hc1).
  assert (Hv1 : decodeFrame (Connection.violation c1) (buffer c1 ++ chunk')
                = Some NeedMoreData).
  { unfold Connection.violation. rewrite Hsrv1, Hb1.
    cbn [buffer received set_buffer]. by rewrite <- app_assoc. }
  destruct (close_1009 entropy (received chunk' c1)) as (c2 & Hc2 & He2 & Hb2 & Hs2 & _).
  cbn [readyState received set_buffer] in Hs2. rewrite Hs1 in Hs2.
  rewrite bool_decide_eq_false_2 in Hs2 by done.
  cbn [buffer emitted received set_buffer] in *.
  pose proof (len_nonneg chunk'). pose proof (len_nonneg chunk'').
  exists c1, c2, (received chunk'' c2).
  split.
  { rewrite Connection_doRead_need_more by (done || by rewrite Hr).
    by assert ((maxBufferLength <? len (buffer c ++ chunk)) = true) as -> by lia. }
  split; [done|]. split; [done|]. split; [done|].
  split.
  { rewrite Connection_doRead_need_more by (done || by rewrite Hs1).
    rewrite Hb1, len_app.
    by assert ((maxBufferLength <? len (buffer c ++ chunk) + len chunk') = true)
      as -> by lia. }
  split; [done|]. split; [by rewrite Hb2, Hb1, <- app_assoc|].
  split; [by rewrite He2, He1, <- app_assoc|].
  split; [by apply Connection_doRead_closed|].
  split; [done|]. cbn [buffer emitted received set_buffer].
  split; [by rewrite Hb2, Hb1, <- !app_assoc|]. split; [done|].
  rewrite Hb2, Hb1, !len_app. rewrite len_app in Hmax. lia.
Qed.

Lemma buffer_outgrows_maxBufferLength_witness :
  let entropy := λ _ : nat, 0 in
  let readHandshake := λ c : connection, Some (true, c) in
  let c := Connection.opened true in
  let chunk := [130; 255; 0; 0; 0; 1; 64; 0; 0; 0; 1; 2; 3; 4; 170] in
  let chunk' := [187; 204; 221; 238; 255] in
  let doRead := Connection.doRead entropy 8 readHandshake in
  readyState c = OPEN ∧
  decodeFrame (Connection.violation c) (buffer c ++ chunk) = Some NeedMoreData ∧
  decodeFrame (Connection.violation c) (buffer c ++ chunk ++ chunk')
  = Some NeedMoreData ∧
  8 < len (buffer c ++ chunk) ∧
  ∃ c1 c2 c3,
    doRead (Some chunk) c = Some c1 ∧
    readyState c1 = CLOSING ∧ buffer c1 = buffer c ++ chunk ∧
    emitted c1 = emitted c ++ [EClose 1009 None] ∧
    doRead (Some chunk') c1 = Some c2 ∧
    readyState c2 = CLOSED ∧ buffer c2 = buffer c ++ chunk ++ chunk' ∧
    emitted c2 = emitted c ++ [EClose 1009 None; EClose 1009 None] ∧
    doRead (Some chunk') c2 = Some c3 ∧
    readyState c3 = CLOSED ∧ buffer c3 = buffer c ++ chunk ++ chunk' ++ chunk' ∧
    emitted c3 = emitted c2 ∧
    8 < len (buffer c1) ∧ len (buffer c1) <= len (buffer c2) ∧
    len (buffer c2) <= len (buffer c3).
Proof.
  intros entropy readHandshake c chunk chunk' doRead.
  assert (H1 : readyState c = OPEN) by reflexivity.
  assert (H2 : decodeFrame (Connection.violation c) (buffer c ++ chunk)
               = Some NeedMoreData) by reflexivity.
  assert (H3 : decodeFrame (Connection.violation c) (buffer c ++ chunk ++ chunk')
               = Some NeedMoreData) by reflexivity.
  assert (H4 : 8 < len (buffer c ++ chunk)) by reflexivity.
  split; [exact H1|]. split; [exact H2|]. split; [exact H3|]. split; [exact H4|].
  exact (buffer_outgrows_maxBufferLength entropy 8 readHandshake c chunk chunk' chunk'
           H1 H2 H3 H4).
Defined.

(** The same chunks, read by [AppConnection] with the limit 8: 15 bytes are
    kept after [close(1009)], then 20, then 25. *)
Example AppConnection_buffer_outgrows readHandshake :
  let chunk := [130; 255; 0; 0; 0; 1; 64; 0; 0; 0; 1; 2; 3; 4; 170] in
  let chunk' := [187; 204; 221; 238; 255] in
  let doRead := AppConnection.doRead 8 readHandshake in
  ∃ c1 c2 c3,
    doRead (Some chunk) AppConnection.opened = Some c1 ∧
    doRead (Some chunk') c1 = Some c2 ∧ doRead (Some chunk') c2 = Some c3 ∧
    (readyState c1, len (buffer c1)) = (CLOSING, 15) ∧
    (readyState c2, len (buffer c2)) = (CLOSED, 20) ∧
    (readyState c3, len (buffer c3)) = (CLOSED, 25) ∧
    emitted c3 = [EConnect; EClose 1009 None; EClose 1009 None].
Proof.
  eexists _, _, _.
  split; [vm_compute; reflexivity|]. split; [vm_compute; reflexivity|].
  split; [vm_compute; reflexivity|]. by vm_compute.
Qed.

(** ** The sign dispatcher *)

Import SocketApp.

Lemma started_nil cbs a i : started cbs a i i = [].
Proof. unfold started. by rewrite Z.sub_diag. Qed.

Lemma started_app cbs a i j k :
  -1 <= i → i <= j → j <= k →
  started cbs a i j ++ started cbs a j k = started cbs a i k.
Proof.
  intros Hi Hj Hk. unfold started. rewrite <- fmap_app. f_equal.
  replace (Z.to_nat (j + 1)) with (Z.to_nat (i + 1) + Z.to_nat (j - i))%nat by lia.
  rewrite <- drop_drop, take_take_drop. f_equal. lia.
Qed.

Lemma started_step cbs a i h :
  -1 <= i → cbs !! Z.to_nat (i + 1) = Some h →
  started cbs a i (i + 1) = [Invoke h a].
Proof.
  intros Hi Hh. unfold started.
  replace (Z.to_nat (i + 1 - i)) with 1%nat by lia.
  rewrite (drop_S _ _ _ Hh). done.
Qed.

Lemma started_beyond cbs a i :
  -1 <= i → len cbs <= i + 1 → started cbs a i (i + 1) = [].
Proof.
  intros Hi Hl. unfold started. rewrite drop_ge; [by rewrite take_nil|].
  unfold len in Hl. lia.
Qed.

(** What a call of [next] does, given fuel enough: it moves the cursor
    forward, by one at least, and the handlers invoked are those the cursor
    passed, in their order in the chain. *)
Definition next_moves (cbs : list handler) (a : argument) (i0 : Z)
    (nxt : Z * list invocation → completion * (Z * list invocation)) : Prop :=
  ∀ j tr r j' tr',
    i0 <= j → nxt (j, tr) = (r, (j', tr')) →
    j + 1 <= j' ∧ tr' = tr ++ started cbs a j j'.

Lemma run_body_moves cbs a i0 nxt acts j tr r j' tr' :
  -1 <= i0 → next_moves cbs a i0 nxt →
  i0 <= j → run_body nxt acts (j, tr) = (r, (j', tr')) →
  j <= j' ∧ tr' = tr ++ started cbs a j j'.
Proof.
  intros H0 Hn. revert j tr.
  induction acts as [|[] acts IH]; intros j tr Hj; cbn [run_body].
  - intros [= <- <- <-]. split; [lia|]. by rewrite started_nil, app_nil_r.
  - destruct (nxt (j, tr)) as [r1 [j1 tr1]] eqn:E1.
    destruct (Hn _ _ _ _ _ Hj E1) as (Hj1 & ->).
    destruct r1.
    + intros Hb. apply IH in Hb as (Hj' & ->); [|lia].
      split; [lia|]. rewrite <- app_assoc, started_app by lia. done.
    + intros [= <- <- <-]. split; [lia|done].
  - intros [= <- <- <-]. split; [lia|]. by rewrite started_nil, app_nil_r.
Qed.

Lemma next_moves_fuel fuel cbs a i0 :
  -1 <= i0 → len cbs <= i0 + 1 + Z.of_nat fuel →
  next_moves cbs a i0 (next fuel cbs a).
Proof.
  revert i0. induction fuel as [|fuel IH]; intros i0 H0 Hf j tr r j' tr' Hj;
    cbn [next fst snd].
  - destruct (j + 1 <? len cbs) eqn:E; [apply Z.ltb_lt in E; lia|].
    apply Z.ltb_ge in E. destruct (cbs !! Z.to_nat (j + 1)).
    + intros [= <- <- <-]. split; [lia|]. rewrite started_beyond by lia.
      by rewrite app_nil_r.
    + intros [= <- <- <-]. split; [lia|]. rewrite started_beyond by lia.
      by rewrite app_nil_r.
  - destruct (j + 1 <? len cbs) eqn:E.
    + apply Z.ltb_lt in E.
      destruct (cbs !! Z.to_nat (j + 1)) as [h|] eqn:Hh.
      * intros Hb.
        apply (run_body_moves cbs a (i0 + 1)) in Hb as (Hj' & ->); [| lia | | lia].
        -- split; [lia|].
           rewrite <- app_assoc, <- (started_step cbs a j h) by (done || lia).
           rewrite started_app by lia. done.
        -- apply IH; lia.
      * apply lookup_ge_None in Hh. unfold len in E. lia.
    + apply Z.ltb_ge in E. intros [= <- <- <-]. split; [lia|].
      rewrite started_beyond by lia. by rewrite app_nil_r.
Qed.

(** The handlers of a chain run in the order of their registration, each at
    most once: the invocations are those of the first [k] handlers. *)
Lemma run_prefix cbs a tr :
  ∃ k, (run cbs a tr).2 = tr ++ ((λ h, Invoke h a) <$> take k cbs).
Proof.
  unfold run.
  destruct (next (length cbs) cbs a (-1, tr)) as [r [i' tr']] eqn:E.
  apply (next_moves_fuel (length cbs) cbs a (-1)) in E as (Hi & ->);
    [|lia|unfold len; lia|lia].
  exists (Z.to_nat (i' - -1)). done.
Qed.

Lemma run_body_normal nxt acts st :
  (∀ st, (nxt st).1 = Normal) → Throw ∉ acts → (run_body nxt acts st).1 = Normal.
Proof.
  intros Hn. revert st. induction acts as [|[] acts IH]; intros st Ht; cbn [run_body].
  - done.
  - specialize (Hn st). destruct (nxt st) as [r st']. cbn in Hn. subst r.
    apply IH. intros ?. apply Ht. by right.
  - exfalso. apply Ht. by left.
Qed.

Lemma next_normal fuel cbs a st :
  Forall (λ h, Throw ∉ h_body h) cbs → (next fuel cbs a st).1 = Normal.
Proof.
  intros Hc. revert st. induction fuel as [|fuel IH]; intros st; cbn [next].
  - destruct (st.1 + 1 <? len cbs); [|done]. by destruct (cbs !! _).
  - destruct (st.1 + 1 <? len cbs); [|done].
    destruct (cbs !! Z.to_nat (st.1 + 1)) as [h|] eqn:Hh; [|done].
    apply run_body_normal; [done|].
    by apply (Forall_lookup_1 _ _ _ _ Hc Hh).
Qed.

Lemma run_normal cbs a tr :
  Forall (λ h, Throw ∉ h_body h) cbs → (run cbs a tr).1 = Normal.
Proof.
  intros Hc. unfold run.
  pose proof (next_normal (length cbs) cbs a (-1, tr) Hc) as H.
  by destruct (next _ _ _ _) as [r st].
Qed.

(** Middlewares of the classic kind: a handler runs when, and only when,
    each handler before it has called [next]. *)
Lemma next_middleware fuel cbs a i tr :
  -1 <= i → len cbs <= i + 1 + Z.of_nat fuel →
  Forall (λ h, h_body h = [] ∨ h_body h = [CallNext]) cbs →
  ∃ i', next fuel cbs a (i, tr)
        = (Normal, (i', tr ++ ((λ h, Invoke h a)
                               <$> middleware (drop (Z.to_nat (i + 1)) cbs)))).
Proof.
  intros Hi Hf Hc. revert i tr Hi Hf.
  induction fuel as [|fuel IH]; intros i tr Hi Hf; cbn [next fst snd].
  - destruct (i + 1 <? len cbs) eqn:E; [apply Z.ltb_lt in E; lia|].
    apply Z.ltb_ge in E. unfold len in E.
    exists (i + 1). rewrite drop_ge by lia. cbn. by rewrite app_nil_r.
  - destruct (i + 1 <? len cbs) eqn:E.
    + apply Z.ltb_lt in E. unfold len in E.
      destruct (cbs !! Z.to_nat (i + 1)) as [h|] eqn:Hh;
        [|apply lookup_ge_None in Hh; lia].
      destruct (Forall_lookup_1 _ _ _ _ Hc Hh) as [Hb | Hb]; rewrite Hb;
        cbn [run_body].
      * exists (i + 1). rewrite (drop_S _ _ _ Hh). cbn [middleware].
        unfold calls_next. by rewrite Hb.
      * destruct (IH (i + 1) (tr ++ [Invoke h a])) as (i' & ->); [lia|lia|].
        exists i'. rewrite (drop_S _ _ _ Hh). cbn [middleware].
        unfold calls_next at 1. rewrite Hb.
        replace (Z.to_nat (i + 1 + 1)) with (S (Z.to_nat (i + 1))) by lia.
        by rewrite <- app_assoc.
    + apply Z.ltb_ge in E. unfold len in E.
      exists (i + 1). rewrite drop_ge by lia. cbn. by rewrite app_nil_r.
Qed.

Lemma run_middleware cbs a :
  Forall (λ h, h_body h = [] ∨ h_body h = [CallNext]) cbs →
  run cbs a [] = (Normal, (λ h, Invoke h a) <$> middleware cbs).
Proof.
  intros Hc. unfold run.
  destruct (next_middleware (length cbs) cbs a (-1) []) as (i' & ->);
    [lia|unfold len; lia|done|]. done.
Qed.

(** The claim C9 as it is worded fails: the text [null] parses as JSON, and
    the chain [noJSON] is invoked with it. *)
Lemma noJSON_counterexample :
  ¬ (∀ signs text,
       (∃ h, Invoke h (Raw text) ∈ (onText JSON.parse signs text).2) →
       JSON.parse text = None).
Proof.
  intros H.
  set (h := {| h_name := 1; h_body := [] |}).
  specialize (H (sign (str "noJSON") [h] ∅) (str "null")).
  assert (E : onText JSON.parse (sign (str "noJSON") [h] ∅) (str "null")
              = (Normal, [Invoke h (Raw (str "null"))])) by by vm_compute.
  rewrite E in H. cbn [snd] in H.
  assert (Hp : JSON.parse (str "null") = None).
  { apply H. exists h. by left. }
  vm_compute in Hp. discriminate.
Qed.

(** A handler that throws has the chain [noJSON] invoked as well, although
    the text was parsed; and a handler that calls [next] twice starts the
    two handlers after it, the second of which runs though the first never
    called [next]. *)
Example handler_throws :
  let h1 := {| h_name := 1; h_body := [Throw] |} in
  let h2 := {| h_name := 2; h_body := [] |} in
  onText JSON.parse (sign (str "noJSON") [h2] (sign (str "unknow") [h1] ∅)) (str "5")
  = (Normal, [Invoke h1 (Data None); Invoke h2 (Raw (str "5"))]).
Proof. by vm_compute. Qed.

(** So has a parsed value that the log line cannot print: the sign is an
    object with a property [toString] of its own. *)
Example sign_not_printable :
  let h1 := {| h_name := 1; h_body := [] |} in
  let h2 := {| h_name := 2; h_body := [] |} in
  let text := str "{" ++ quoted "sign" ++ str ":{" ++ quoted "toString" ++ str ":1}}" in
  JSON.parse text
  = Some (JObject [(str "sign", JObject [(str "toString", JNumber (str "1"))])]) ∧
  onText JSON.parse (sign (str "noJSON") [h2] (sign (str "unknow") [h1] ∅)) text
  = (Normal, [Invoke h2 (Raw text)]).
Proof. by vm_compute. Qed.

Example handler_calls_next_twice :
  let h1 := {| h_name := 1; h_body := [CallNext; CallNext] |} in
  let h2 := {| h_name := 2; h_body := [] |} in
  let h3 := {| h_name := 3; h_body := [] |} in
  let h4 := {| h_name := 4; h_body := [] |} in
  onText JSON.parse (sign (str "unknow") [h1; h2; h3; h4] ∅) (str "5")
  = (Normal, [Invoke h1 (Data None); Invoke h2 (Data None); Invoke h3 (Data None)]).
Proof. by vm_compute. Qed.

(** C9 (amended).  For every inbound text message handled by the sign
    dispatcher: the chain [noJSON] is invoked, with the raw text, when the
    text fails to parse as JSON and also when it parses to [null]; when it
    parses to any other value, the chain registered for the parsed sign (or
    the chain [unknow] when no chain exists for that sign) is invoked with
    the parsed data and no other chain, unless the line written to the log
    cannot be built or a handler throws.  The
    handlers of a chain run in the order of their registration, each at
    most once; and when every handler calls [next] at most once and none
    throws, a handler runs exactly when each handler before it has called
    [next]. *)
Theorem sign_dispatch (JSON_parse : jsstring → option json)
    (signs : gmap jsstring (list handler)) (text : jsstring) :
  (JSON_parse text = None ∨ JSON_parse text = Some JNull →
   onText JSON_parse signs text
   = run (default [] (signs !! str "noJSON")) (Raw text) []) ∧
  (∀ v, JSON_parse text = Some v → v ≠ JNull →
     let chain :=
       default [] (match get_sign signs (property v (str "sign")) with
                   | Some cbs => Some cbs
                   | None => signs !! str "unknow"
                   end) in
     log_throws (property v (str "sign")) (property v (str "data")) = false →
     Forall (λ h, Throw ∉ h_body h) chain →
     onText JSON_parse signs text = run chain (Data (property v (str "data"))) [] ∧
     (onText JSON_parse signs text).1 = Normal) ∧
  (∀ cbs a, ∃ k, (run cbs a []).2 = (λ h, Invoke h a) <$> take k cbs) ∧
  (∀ cbs a,
     Forall (λ h, h_body h = [] ∨ h_body h = [CallNext]) cbs →
     run cbs a [] = (Normal, (λ h, Invoke h a) <$> middleware cbs)).
Proof.
  split; [|split; [|split]].
  - intros H. unfold onText.
    assert (match JSON_parse text with
            | Some JNull | None => true
            | _ => false
            end = true) as Hm by (by destruct H as [-> | ->]).
    destruct (JSON_parse text) as [[]|]; try done;
      by destruct (signs !! str "noJSON").
  - intros v Hv Hn chain Hlog Hc. unfold onText. rewrite Hv.
    assert (Hr : (run chain (Data (property v (str "data"))) []).1 = Normal)
      by by apply run_normal.
    assert (Hgoal :
      (let try :=
         match
           match get_sign signs (property v (str "sign")) with
           | Some cbs => Some cbs
           | None => signs !! str "unknow"
           end
         with
         | Some cbs => run cbs (Data (property v (str "data"))) []
         | None => (Normal, [])
         end in
       match try with
       | (Normal, tr) => (Normal, tr)
       | (Thrown, tr) =>
           match signs !! str "noJSON" with
           | Some cbs => run cbs (Raw text) tr
           | None => (Normal, tr)
           end
       end) = run chain (Data (property v (str "data"))) []).
    { subst chain. cbv zeta.
      destruct (match get_sign signs (property v (str "sign")) with
                | Some cbs => Some cbs
                | None => signs !! str "unknow"
                end) as [cbs|]; cbn [default from_option id] in *.
      - destruct (run cbs _ _) as [[] tr]; [done|]. cbn in Hr. done.
      - done. }
    destruct v; try done; cbv zeta in Hgoal |- *; rewrite Hlog, Hgoal; done.
  - intros cbs a. destruct (run_prefix cbs a []) as [k Hk]. eauto.
  - intros cbs a. apply run_middleware.
Qed.

Lemma sign_dispatch_witness :
  let h1 := {| h_name := 1; h_body := [CallNext] |} in
  let h2 := {| h_name := 2; h_body := [] |} in
  let h3 := {| h_name := 3; h_body := [CallNext] |} in
  let signs := sign (str "chat") [h1; h2; h3] ∅ in
  let text := str "{" ++ quoted "sign" ++ str ":" ++ quoted "chat" ++ str ","
              ++ quoted "data" ++ str ":[1]}" in
  let v := JObject [(str "sign", JString (str "chat"));
                    (str "data", JArray [JNumber (str "1")])] in
  JSON.parse text = Some v ∧
  v ≠ JNull ∧
  log_throws (property v (str "sign")) (property v (str "data")) = false ∧
  Forall (λ h, Throw ∉ h_body h) [h1; h2; h3] ∧
  onText JSON.parse signs text
  = run [h1; h2; h3] (Data (Some (JArray [JNumber (str "1")]))) [] ∧
  (onText JSON.parse signs text).1 = Normal ∧
  run [h1; h2; h3] (Data (Some (JArray [JNumber (str "1")]))) []
  = (Normal, [Invoke h1 (Data (Some (JArray [JNumber (str "1")])));
              Invoke h2 (Data (Some (JArray [JNumber (str "1")])))]).
Proof.
  intros h1 h2 h3 signs text v.
  assert (Hv : JSON.parse text = Some v) by reflexivity.
  assert (Hn : v ≠ JNull) by discriminate.
  assert (Hl : log_throws (property v (str "sign")) (property v (str "data")) = false)
    by reflexivity.
  assert (Hc : Forall (λ h, Throw ∉ h_body h) [h1; h2; h3]).
  { repeat constructor; cbn; intros H;
      repeat (apply elem_of_cons in H as [H|H]; [discriminate|]);
      by apply elem_of_nil in H. }
  split; [exact Hv|]. split; [exact Hn|]. split; [exact Hl|]. split; [exact Hc|].
  destruct (proj1 (proj2 (sign_dispatch JSON.parse signs text)) v Hv Hn Hl Hc)
    as [H1 H2].
  split; [exact H1|]. split; [exact H2|]. reflexivity.
Defined.

(** * Further properties

    Properties of the code the specification is silent about: the sending
    methods, the streams, the two ends of a connection talking to each
    other, what fragmentation and chunking do. *)

(** ** UTF-8: what was encoded is decoded back *)

Lemma land_shiftl_small a y n :
  0 <= n → 0 <= y < 2 ^ n → Z.land (Z.shiftl a n) y = 0.
Proof.
  intros Hn Hy. apply Z.bits_inj'. intros m Hm.
  rewrite Z.land_spec, Z.bits_0.
  destruct (Z.lt_ge_cases m n) as [Hlt|Hge].
  - by rewrite Z.shiftl_spec_low.
  - destruct (Z.eq_dec y 0) as [->|Hy0].
    + by rewrite Z.bits_0, andb_false_r.
    + rewrite (Z.bits_above_log2 y m), andb_false_r; [done|lia|].
      apply Z.log2_lt_pow2; [lia|].
      eapply Z.lt_le_trans; [apply Hy|]. apply Z.pow_le_mono_r; lia.
Qed.

Lemma lor_shiftl_small a y n :
  0 <= n → 0 <= y < 2 ^ n → Z.lor (Z.shiftl a n) y = a * 2 ^ n + y.
Proof.
  intros Hn Hy.
  rewrite <- Z.shiftl_mul_pow2 by done.
  rewrite <- Z.lxor_lor, <- Z.add_nocarry_lxor; try done.
  all: by apply land_shiftl_small.
Qed.

Lemma land_low b k : 0 <= k → Z.land b (2 ^ k - 1) = b mod 2 ^ k.
Proof.
  intros. rewrite <- Z.land_ones by done. f_equal. rewrite Z.ones_equiv. lia.
Qed.

Ltac both_true := apply andb_true_iff; split; apply Z.leb_le; lia.
Ltac right_false := apply andb_false_iff; right; apply Z.leb_gt; lia.

Lemma utf8_bytes_decode cp rest :
  0 <= cp < 1114112 → ¬ (55296 <= cp < 57344) →
  utf8_decode utf8_start (utf8_bytes cp ++ rest)
  = utf16 cp ++ utf8_decode utf8_start rest.
Proof.
  intros Hr Hs. unfold utf8_bytes.
  destruct (cp <? 128) eqn:E1.
  { apply Z.ltb_lt in E1. cbn [app utf8_decode utf8_start u_missing].
    unfold utf8_lead.
    assert ((0 <=? cp) && (cp <=? 127) = true) as -> by both_true.
    unfold utf16. assert ((cp <? 65536) = true) as -> by (apply Z.ltb_lt; lia).
    done. }
  apply Z.ltb_ge in E1.
  destruct (cp <? 2048) eqn:E2.
  { apply Z.ltb_lt in E2. cbn [app utf8_decode utf8_start u_missing].
    unfold utf8_lead.
    set (b0 := 192 + cp / 64). set (b1 := 128 + cp mod 64).
    assert (194 <= b0 <= 223) by (subst b0; zlia).
    assert (128 <= b1 <= 191) by (subst b1; zlia).
    assert ((0 <=? b0) && (b0 <=? 127) = false) as -> by right_false.
    assert ((194 <=? b0) && (b0 <=? 223) = true) as -> by both_true.
    cbn [utf8_decode u_missing u_lower u_upper u_cp].
    assert ((128 <=? b1) && (b1 <=? 191) = true) as -> by both_true.
    cbv zeta. cbn [app].
    enough (Z.lor (Z.shiftl (Z.land b0 31) 6) (Z.land b1 63) = cp) as -> by done.
    change 31 with (2 ^ 5 - 1). change 63 with (2 ^ 6 - 1).
    rewrite !land_low by lia. rewrite lor_shiftl_small; [|lia|zlia].
    subst b0 b1. change (2 ^ 5) with 32. change (2 ^ 6) with 64. zlia. }
  apply Z.ltb_ge in E2.
  destruct (cp <? 65536) eqn:E3.
  { apply Z.ltb_lt in E3. cbn [app utf8_decode utf8_start u_missing].
    unfold utf8_lead.
    set (b0 := 224 + cp / 4096). set (b1 := 128 + cp / 64 mod 64).
    set (b2 := 128 + cp mod 64).
    assert (224 <= b0 <= 239) by (subst b0; zlia).
    assert (128 <= b1 <= 191) by (subst b1; zlia).
    assert (128 <= b2 <= 191) by (subst b2; zlia).
    assert ((0 <=? b0) && (b0 <=? 127) = false) as -> by right_false.
    assert ((194 <=? b0) && (b0 <=? 223) = false) as -> by right_false.
    assert ((224 <=? b0) && (b0 <=? 239) = true) as -> by both_true.
    cbn [utf8_decode u_missing u_lower u_upper u_cp].
    assert (((if b0 =? 224 then 160 else 128) <=? b1)
            && (b1 <=? (if b0 =? 237 then 159 else 191)) = true) as ->.
    { apply andb_true_iff; split; apply Z.leb_le.
      - destruct (b0 =? 224) eqn:E; [|lia]. apply Z.eqb_eq in E. subst b0 b1. zlia.
      - destruct (b0 =? 237) eqn:E; [|lia]. apply Z.eqb_eq in E. subst b0 b1. zlia. }
    cbv zeta. cbn [utf8_decode u_missing u_lower u_upper u_cp].
    assert ((128 <=? b2) && (b2 <=? 191) = true) as -> by both_true.
    cbv zeta. cbn [app].
    enough (Z.lor (Z.shiftl (Z.lor (Z.shiftl (Z.land b0 15) 6) (Z.land b1 63)) 6)
                  (Z.land b2 63) = cp) as -> by done.
    change 15 with (2 ^ 4 - 1). change 63 with (2 ^ 6 - 1).
    rewrite !land_low by lia. rewrite !lor_shiftl_small; try lia; try zlia.
    subst b0 b1 b2. change (2 ^ 4) with 16. change (2 ^ 6) with 64. zlia. }
  apply Z.ltb_ge in E3.
  cbn [app utf8_decode utf8_start u_missing].
  unfold utf8_lead.
  set (b0 := 240 + cp / 262144). set (b1 := 128 + cp / 4096 mod 64).
  set (b2 := 128 + cp / 64 mod 64). set (b3 := 128 + cp mod 64).
  assert (240 <= b0 <= 244) by (subst b0; zlia).
  assert (128 <= b1 <= 191) by (subst b1; zlia).
  assert (128 <= b2 <= 191) by (subst b2; zlia).
  assert (128 <= b3 <= 191) by (subst b3; zlia).
  assert ((0 <=? b0) && (b0 <=? 127) = false) as -> by right_false.
  assert ((194 <=? b0) && (b0 <=? 223) = false) as -> by right_false.
  assert ((224 <=? b0) && (b0 <=? 239) = false) as -> by right_false.
  assert ((240 <=? b0) && (b0 <=? 244) = true) as -> by both_true.
  cbn [utf8_decode u_missing u_lower u_upper u_cp].
  assert (((if b0 =? 240 then 144 else 128) <=? b1)
          && (b1 <=? (if b0 =? 244 then 143 else 191)) = true) as ->.
  { apply andb_true_iff; split; apply Z.leb_le.
    - destruct (b0 =? 240) eqn:E; [|lia]. apply Z.eqb_eq in E. subst b0 b1. zlia.
    - destruct (b0 =? 244) eqn:E; [|lia]. apply Z.eqb_eq in E. subst b0 b1. zlia. }
  cbv zeta. cbn [utf8_decode u_missing u_lower u_upper u_cp].
  assert ((128 <=? b2) && (b2 <=? 191) = true) as -> by both_true.
  cbv zeta. cbn [utf8_decode u_missing u_lower u_upper u_cp].
  assert ((128 <=? b3) && (b3 <=? 191) = true) as -> by both_true.
  cbv zeta. cbn [app].
  enough (Z.lor (Z.shiftl (Z.lor (Z.shiftl (Z.lor (Z.shiftl (Z.land b0 7) 6)
                                                  (Z.land b1 63)) 6)
                                 (Z.land b2 63)) 6)
                (Z.land b3 63) = cp) as -> by done.
  change 7 with (2 ^ 3 - 1). change 63 with (2 ^ 6 - 1).
  rewrite !land_low by lia. rewrite !lor_shiftl_small; try lia; try zlia.
  subst b0 b1 b2 b3. change (2 ^ 3) with 8. change (2 ^ 6) with 64. zlia.
Qed.

Lemma utf16_surrogates c d :
  is_high_surrogate c = true → is_low_surrogate d = true →
  utf16 (65536 + (c - 55296) * 1024 + (d - 56320)) = [c; d].
Proof.
  unfold is_high_surrogate, is_low_surrogate.
  rewrite !andb_true_iff, !Z.leb_le. intros [? ?] [? ?].
  unfold utf16.
  destruct (_ <? 65536) eqn:E; [apply Z.ltb_lt in E; lia|].
  f_equal; [|f_equal]; zlia.
Qed.

Lemma toString_from (s : jsstring) :
  well_formed s = true → toString (from s) = s.
Proof.
  unfold toString.
  remember (length s) as n eqn:Hn.
  assert (Hle : (length s <= n)%nat) by lia. clear Hn.
  revert s Hle. induction n as [|n IH]; intros s Hle.
  { destruct s; [done|cbn in Hle; lia]. }
  destruct s as [|c s]; [done|].
  cbn [well_formed from]. rewrite !andb_true_iff, Z.leb_le, Z.ltb_lt.
  intros [[Hc0 Hc1] Hw].
  destruct (is_high_surrogate c) eqn:Eh.
  - destruct s as [|d s]; [done|].
    apply andb_true_iff in Hw as [Hd Hw].
    rewrite Hd. rewrite utf8_bytes_decode.
    + rewrite utf16_surrogates by done. cbn [app]. f_equal. f_equal.
      apply IH; [|done]. cbn in Hle. lia.
    + unfold is_high_surrogate, is_low_surrogate in *.
      rewrite !andb_true_iff, !Z.leb_le in *. lia.
    + unfold is_high_surrogate, is_low_surrogate in *.
      rewrite !andb_true_iff, !Z.leb_le in *. lia.
  - apply andb_true_iff in Hw as [Hl Hw]. apply negb_true_iff in Hl.
    rewrite Hl.
    assert (Hns : ¬ (55296 <= c < 57344)).
    { unfold is_high_surrogate, is_low_surrogate in *.
      rewrite !andb_false_iff, !Z.leb_gt in *. lia. }
    rewrite utf8_bytes_decode by (try done; lia).
    unfold utf16. assert ((c <? 65536) = true) as -> by (apply Z.ltb_lt; lia).
    cbn [app]. f_equal. apply IH; [|done]. cbn in Hle. lia.
Qed.

Lemma from_bound (s : jsstring) : len s <= kMaxLength → len (from s) < 2 ^ 64.
Proof.
  intros H. pose proof (len_from s). unfold kMaxLength in H.
  change (2 ^ 53 - 1) with 9007199254740991 in H.
  change (2 ^ 64) with 18446744073709551616. lia.
Qed.

(** ** One frame, sent and read *)

Lemma set_buffer_id c b : buffer c = b → set_buffer b c = c.
Proof. intros <-. by destruct c. Qed.

Lemma len_frame_bytes_ge2 fin opcode masked (payload : Buffer) key :
  (2 <= length (frame_bytes fin opcode masked payload key))%nat.
Proof.
  unfold frame_bytes, frame_header. cbv zeta.
  repeat split_if; cbn; lia.
Qed.

Lemma decodeFrame_short violation (buf : Buffer) :
  (length buf < 2)%nat → decodeFrame violation buf = Some NeedMoreData.
Proof.
  intros H. unfold decodeFrame.
  assert ((len buf <? 2) = true) as -> by (apply Z.ltb_lt; unfold len; lia).
  done.
Qed.

(** [AppConnection.doRead] on a chunk that is one whole frame, read with an
    empty buffer. *)
Lemma AppConnection_doRead_frame mbl rh c fin opcode (payload : Buffer) key c' :
  0 <= mbl → readyState c ≠ CONNECTING → readyState c ≠ CLOSED → buffer c = [] →
  valid_opcode opcode = true → (8 <= opcode → fin = true) →
  len payload < 2 ^ 64 →
  AppConnection.processFrame fin opcode payload c = Some (true, c') →
  AppConnection.doRead mbl rh (Some (frame_bytes fin opcode true payload key)) c
  = Some c'.
Proof.
  intros Hm Hr1 Hr2 Hb Hop Hctl Hlen Hp.
  pose proof (AppConnection_processFrame_buffer _ _ _ _ _ _ Hp) as Hb'.
  unfold AppConnection.doRead. rewrite Hb. cbn [app].
  unfold AppConnection.handshaken. cbn [readyState set_buffer].
  rewrite bool_decide_false by done.
  cbn [mbind option_bind]. cbn [negb readyState set_buffer].
  rewrite bool_decide_false by done. cbn [negb buffer set_buffer].
  pose proof (len_frame_bytes_ge2 fin opcode true payload key) as H2.
  destruct (length (frame_bytes fin opcode true payload key)) as [|fuel] eqn:Hf; [lia|].
  cbn [AppConnection.extractLoop]. unfold AppConnection.extractFrame at 1.
  cbn [buffer set_buffer].
  rewrite <- (app_nil_r (frame_bytes fin opcode true payload key)).
  rewrite decode_frame_bytes by done. cbn [mbind option_bind].
  assert (set_buffer [] (set_buffer (frame_bytes fin opcode true payload key ++ []) c) = c)
    as -> by (rewrite <- (set_buffer_id c [] Hb) at 2; by destruct c).
  rewrite Hp. cbn [mbind option_bind].
  assert (AppConnection.extractLoop fuel c' = Some (None, c')) as ->.
  { assert (He : AppConnection.extractFrame c' = Some (None, c')).
    { unfold AppConnection.extractFrame. rewrite Hb', Hb. by cbn. }
    destruct fuel; cbn [AppConnection.extractLoop]; by rewrite He. }
  cbn [mbind option_bind]. rewrite Hb', Hb.
  assert ((mbl <? len (@nil Z)) = false) as -> by (apply Z.ltb_ge; unfold len; cbn; lia).
  done.
Qed.

(** X1.  A text sent by a client with [Connection.sendText] arrives at an
    [AppConnection]: on an open client with no binary stream pending the
    call writes exactly one frame, and an open [AppConnection] with an
    empty buffer and no message in progress that reads this frame emits
    [text] with the same string and nothing else, for every string
    without a lone surrogate. *)
Theorem text_is_delivered entropy mbl rh (s : jsstring) (client peer : connection) :
  server client = false → readyState client = OPEN →
  out_truthy (outStream client) = false →
  readyState peer = OPEN → buffer peer = [] → frameBuffer peer = VString [] →
  0 <= mbl → len s <= kMaxLength → well_formed s = true →
  ∃ client' bytes peer',
    Connection.sendText entropy s client = Some (Sent client') ∧
    written (socket client') = written (socket client) ++ [bytes] ∧
    AppConnection.doRead mbl rh (Some bytes) peer = Some peer' ∧
    emitted peer' = emitted peer ++ [EText s] ∧
    frameBuffer peer' = VString [] ∧ buffer peer' = [] ∧
    readyState peer' = OPEN ∧ socket peer' = socket peer.
Proof.
  intros Hs Hr Ho Hpr Hpb Hpf Hm Hl Hw.
  pose proof (from_bound s Hl) as Hlen.
  unfold Connection.sendText. rewrite Hr, Ho, Hs.
  rewrite bool_decide_true by done. cbn [negb].
  unfold write_frame, frame.createTextFrame. rewrite createFrame_bytes by done.
  cbn [mbind option_bind].
  destruct (AppConnection_text_frame peer (from s) Hpr Hpf)
    as (peer' & Hp & He & Hf & Hr' & Hsock).
  eexists _, _, peer'. split; [reflexivity|]. split; [done|].
  split.
  { apply AppConnection_doRead_frame; try done; by rewrite Hpr. }
  rewrite He, toString_from by done. repeat split; try done.
  apply AppConnection_processFrame_buffer in Hp. by rewrite Hp.
Qed.

(** [Connection.doRead] on a chunk that is one whole frame, read with an
    empty buffer. *)
Lemma Connection_doRead_frame entropy mbl rh c fin opcode (payload : Buffer) key c' :
  0 <= mbl → readyState c ≠ CONNECTING → readyState c ≠ CLOSED → buffer c = [] →
  valid_opcode opcode = true → (8 <= opcode → fin = true) →
  len payload < 2 ^ 64 →
  Connection.processFrame entropy fin opcode payload c = Some (true, c') →
  ∀ masked, server c = masked →
  Connection.doRead entropy mbl rh
    (Some (frame_bytes fin opcode masked payload key)) c
  = Some c'.
Proof.
  intros Hm Hr1 Hr2 Hb Hop Hctl Hlen Hp masked <-.
  pose proof (processFrame_effect _ _ _ _ _ _ _ Hp) as (_ & _ & Hb').
  unfold Connection.doRead. rewrite Hb. cbn [app].
  unfold Connection.handshaken. cbn [readyState set_buffer].
  rewrite bool_decide_false by done.
  cbn [mbind option_bind]. cbn [negb readyState set_buffer].
  rewrite bool_decide_false by done. cbn [negb buffer set_buffer].
  pose proof (len_frame_bytes_ge2 fin opcode (server c) payload key) as H2.
  destruct (length (frame_bytes fin opcode (server c) payload key)) as [|fuel] eqn:Hf;
    [lia|].
  cbn [Connection.extractLoop]. unfold Connection.extractFrame at 1.
  cbn [buffer set_buffer].
  rewrite <- (app_nil_r (frame_bytes fin opcode (server c) payload key)).
  rewrite decode_frame_bytes; try done.
  2:{ unfold Connection.violation. cbn [server set_buffer]. by destruct (server c). }
  cbn [mbind option_bind].
  assert (set_buffer []
            (set_buffer (frame_bytes fin opcode (server c) payload key ++ []) c) = c)
    as -> by (rewrite <- (set_buffer_id c [] Hb) at 3; by destruct c).
  rewrite Hp. cbn [mbind option_bind].
  assert (Connection.extractLoop entropy fuel c' = Some (None, c')) as ->.
  { assert (He : Connection.extractFrame entropy c' = Some (None, c')).
    { unfold Connection.extractFrame. rewrite Hb', Hb. by cbn. }
    destruct fuel; cbn [Connection.extractLoop]; by rewrite He. }
  cbn [mbind option_bind]. rewrite Hb', Hb.
  assert ((mbl <? len (@nil Z)) = false) as -> by (apply Z.ltb_ge; unfold len; cbn; lia).
  done.
Qed.

(** X2.  A ping is answered and the answer is heard: [sendPing] of an
    open client writes one frame; the open [AppConnection] that reads it
    writes one frame back and emits nothing; the client that reads this
    answer emits [pong] with the data it sent (a string without a lone
    surrogate) and writes nothing. *)
Theorem ping_pong_round_trip entropy mbl mbl' rh rh' (data : jsstring)
    (client peer : connection) :
  server client = false → readyState client = OPEN → buffer client = [] →
  readyState peer = OPEN → buffer peer = [] →
  0 <= mbl → 0 <= mbl' → len data <= kMaxLength → well_formed data = true →
  ∃ client1 ping peer' pong client2,
    Connection.sendPing entropy (Some data) client = Some (Sent client1) ∧
    written (socket client1) = written (socket client) ++ [ping] ∧
    AppConnection.doRead mbl' rh' (Some ping) peer = Some peer' ∧
    written (socket peer') = written (socket peer) ++ [pong] ∧
    emitted peer' = emitted peer ∧
    Connection.doRead entropy mbl rh (Some pong) client1 = Some client2 ∧
    emitted client2 = emitted client ++ [EPong data] ∧
    written (socket client2) = written (socket client1) ∧
    readyState client2 = OPEN.
Proof.
  intros Hs Hr Hb Hpr Hpb Hm Hm' Hl Hw.
  pose proof (from_bound data Hl) as Hlen.
  unfold Connection.sendPing. cbn [default from_option id]. rewrite Hr, Hs.
  rewrite bool_decide_true by done. cbn [negb].
  unfold write_frame, frame.createPingFrame. rewrite createFrame_bytes by done.
  cbn [mbind option_bind].
  set (client1 := socket_write _ _).
  assert (Hpong : from (toString (from data)) = from data)
    by (by rewrite toString_from).
  eexists client1, _, _, _, _. split; [reflexivity|]. split; [done|].
  split.
  { apply AppConnection_doRead_frame; try done; try (by rewrite Hpr).
    apply AppConnection_ping; [done|]. by rewrite Hpong. }
  split; [done|]. split; [done|].
  split.
  { apply Connection_doRead_frame; try done; try (by cbn; rewrite Hr).
    by rewrite Hpong. }
  rewrite Hpong, toString_from by done. by repeat split.
Qed.

(** The payload of a close frame: empty for the codes 0 and 1005, else the
    code as two bytes followed by the reason. *)
Lemma createCloseFrame_bytes code (reason : option jsstring) masked key :
  0 <= code <= 65535 → len (default [] reason) <= kMaxLength →
  frame.createCloseFrame code reason masked key
  = Some (frame_bytes true 8 masked
            (if (code =? 0) || (code =? 1005) then []
             else code / 256 :: code mod 256 :: from (default [] reason)) key).
Proof.
  intros Hc Hl. pose proof (from_bound _ Hl) as Hlen.
  pose proof (len_nonneg (from (default [] reason))) as H0.
  unfold frame.createCloseFrame. cbv zeta.
  destruct (code =? 0) eqn:E0; cbn [negb andb orb].
  { cbn [mbind option_bind]. apply createFrame_bytes. by cbn. }
  destruct (code =? 1005) eqn:E1; cbn [negb andb orb].
  { cbn [mbind option_bind]. apply createFrame_bytes. by cbn. }
  change (str "--" ++ default [] reason) with (45 :: 45 :: default [] reason).
  change (from (45 :: 45 :: default [] reason))
    with (45 :: 45 :: from (default [] reason)).
  unfold writeUInt16BE.
  assert ((0 <=? code) && (code <=? 65535) && (0 <=? 0)
          && (0 + 2 <=? len (45 :: 45 :: from (default [] reason))) = true) as ->.
  { rewrite !andb_true_iff, !Z.leb_le. unfold len in *. cbn [length]. lia. }
  change (<[Z.to_nat (0 + 1):=code mod 256]>
            (<[Z.to_nat 0:=code / 256]> (45 :: 45 :: from (default [] reason))))
    with (code / 256 :: code mod 256 :: from (default [] reason)).
  cbn [mbind option_bind]. apply createFrame_bytes.
  pose proof (len_from (default [] reason)) as H4.
  unfold kMaxLength in Hl. change (2 ^ 53 - 1) with 9007199254740991 in Hl.
  change (2 ^ 64) with 18446744073709551616 in *.
  unfold len in *. cbn [length]. lia.
Qed.

Lemma close_payload_read code (rest : Buffer) :
  0 <= code <= 65535 →
  readUInt16BE (code / 256 :: code mod 256 :: rest) 0 = Some code ∧
  slice_from (code / 256 :: code mod 256 :: rest) 2 = Some rest ∧
  (2 <=? len (code / 256 :: code mod 256 :: rest)) = true.
Proof.
  intros Hc. split; [|split].
  - change (readUInt16BE (code / 256 :: code mod 256 :: rest) 0)
      with (Some (code / 256 * 256 + code mod 256)).
    f_equal. zlia.
  - change (code / 256 :: code mod 256 :: rest)
      with ([code / 256; code mod 256] ++ rest).
    apply (slice_from_app [code / 256; code mod 256] rest).
  - apply Z.leb_le. unfold len. cbn [length]. lia.
Qed.

Lemma len_close_payload code reason :
  len reason <= kMaxLength → len (close_payload code reason) < 2 ^ 64.
Proof.
  intros Hl. pose proof (len_from reason) as H4. unfold close_payload.
  destruct ((code =? 0) || (code =? 1005)); [by cbn|].
  unfold kMaxLength in Hl. change (2 ^ 53 - 1) with 9007199254740991 in Hl.
  change (2 ^ 64) with 18446744073709551616 in *.
  unfold len in *. cbn [length]. lia.
Qed.

(** What [AppConnection.processCloseFrame] does with the payload of a
    close frame made by [createCloseFrame]. *)
Lemma AppConnection_processCloseFrame_echo code (reason : jsstring) c :
  0 <= code <= 65535 → len reason <= kMaxLength → well_formed reason = true →
  let plain := (code =? 0) || (code =? 1005) in
  let code' := if plain then 1005 else code in
  let reason' := if plain then [] else reason in
  AppConnection.processCloseFrame (close_payload code reason) c
  = Some (emit (EClose code' (Some reason'))
            (set_readyState CLOSED
               (socket_write
                  (frame_bytes true 8 false (close_payload code reason) (λ _, 0)) c))).
Proof.
  intros Hc Hl Hw plain code' reason'.
  unfold AppConnection.processCloseFrame, close_payload. fold plain.
  assert (Hplain' : (code' =? 0) || (code' =? 1005) = plain).
  { subst code' plain. destruct (code =? 0) eqn:E0; [done|].
    destruct (code =? 1005) eqn:E1; [done|]. cbn [orb]. by rewrite E0, E1. }
  assert (Hw' : ∀ c0, AppConnection.write_unmasked
                  (frame.createCloseFrame code' (Some reason')) c0
                = Some (socket_write
                          (frame_bytes true 8 false
                             (if plain then []
                              else code / 256 :: code mod 256 :: from reason)
                             (λ _, 0)) c0)).
  { intros c0. unfold AppConnection.write_unmasked, write_frame.
    rewrite createCloseFrame_bytes.
    - rewrite Hplain'. cbn [default from_option id mbind option_bind].
      subst code' reason'. by destruct plain.
    - subst code'. destruct plain; lia.
    - subst reason'. cbn [default from_option id]. destruct plain; [by cbn|done]. }
  destruct plain.
  - assert ((2 <=? len (@nil Z)) = false) as -> by done.
    cbn [mbind option_bind].
    subst code' reason'. cbv iota. rewrite Hw'. done.
  - destruct (close_payload_read code (from reason) Hc) as (-> & -> & ->).
    cbn [mbind option_bind]. rewrite toString_from by done.
    subst code' reason'. cbv iota. rewrite Hw'. done.
Qed.

(** X3.  The closing handshake between a client [Connection] and an
    [AppConnection]: [close(code, reason)] on the open client writes one
    close frame, emits [close] and leaves the client [CLOSING]; the peer
    that reads the frame echoes one close frame, becomes [CLOSED] and
    emits [close] with the same code and reason (with 1005 and the empty
    reason when the code is 0 or 1005, whose frame has no payload); the
    client that reads the echo ends its socket, writes nothing, emits
    nothing more and stays [CLOSING]. *)
Theorem close_handshake entropy mbl mbl' rh rh' code (reason : option jsstring)
    (client peer : connection) :
  server client = false → readyState client = OPEN → buffer client = [] →
  readyState peer = OPEN → buffer peer = [] →
  0 <= mbl → 0 <= mbl' →
  0 <= code <= 65535 →
  len (default [] reason) <= kMaxLength → well_formed (default [] reason) = true →
  let plain := (code =? 0) || (code =? 1005) in
  let code' := if plain then 1005 else code in
  let reason' := if plain then [] else default [] reason in
  ∃ client1 closing peer' echo client2,
    Connection.close entropy code reason client = Some client1 ∧
    written (socket client1) = written (socket client) ++ [closing] ∧
    readyState client1 = CLOSING ∧
    emitted client1 = emitted client ++ [EClose code reason] ∧
    AppConnection.doRead mbl' rh' (Some closing) peer = Some peer' ∧
    written (socket peer') = written (socket peer) ++ [echo] ∧
    readyState peer' = CLOSED ∧
    emitted peer' = emitted peer ++ [EClose code' (Some reason')] ∧
    Connection.doRead entropy mbl rh (Some echo) client1 = Some client2 ∧
    finished (socket client2) = true ∧
    written (socket client2) = written (socket client1) ∧
    readyState client2 = CLOSING ∧
    emitted client2 = emitted client1.
Proof.
  intros Hs Hr Hb Hpr Hpb Hm Hm' Hc Hl Hw plain code' reason'.
  pose proof (len_close_payload code _ Hl) as Hpl.
  unfold Connection.close. rewrite Hr, Hs. cbn [negb].
  unfold write_frame. rewrite createCloseFrame_bytes by done.
  fold (close_payload code (default [] reason)). cbn [mbind option_bind].
  set (client1 := emit _ _).
  eexists client1, _, _, _, _. split; [reflexivity|]. split; [done|].
  split; [done|]. split; [done|].
  split.
  { apply AppConnection_doRead_frame; try done; try (by rewrite Hpr).
    unfold AppConnection.processFrame. cbn [Z.eqb]. rewrite Hpr.
    rewrite AppConnection_processCloseFrame_echo by done.
    cbn [mbind option_bind]. reflexivity. }
  split; [done|]. split; [done|]. split; [done|].
  split.
  { by apply Connection_doRead_frame. }
  by repeat split.
Qed.

(** ** The frames of an [OutStream] *)

Lemma frame_bytes_ext fin op masked (p : Buffer) (key key' : nat → Z) :
  (∀ i, key i = key' i) →
  frame_bytes fin op masked p key = frame_bytes fin op masked p key'.
Proof. intros H. unfold frame_bytes. by rewrite !H. Qed.

Lemma fragments_snoc op masked entropy d (ps : list Buffer) (p : Buffer) :
  fragments true op masked entropy d (ps ++ [p])
  = fragments false op masked entropy d ps
    ++ [frame_bytes true (match ps with [] => op | _ => 0 end) masked p
          (λ i, entropy ((if masked then d + 4 * length ps else d) + i)%nat)].
Proof.
  revert op d. induction ps as [|q ps IH]; intros op d.
  - cbn. f_equal. apply frame_bytes_ext. intros i. f_equal.
    destruct masked; lia.
  - cbn [app fragments]. rewrite IH. cbn [andb app].
    assert (match ps ++ [p] with [] => true | _ :: _ => false end = false) as ->
      by (by destruct ps).
    assert (match ps with [] => 0 | _ :: _ => 0 end = 0) as -> by (by destruct ps).
    f_equal. f_equal. f_equal.
    apply frame_bytes_ext. intros i. f_equal.
    destruct masked; cbn [length]; lia.
Qed.

Lemma write_all_fragments entropy minSize (chunks : list Buffer) :
  ∀ c (acc : Buffer) hs,
  readyState c = OPEN →
  outStream c = OOutStream {| o_buffer := acc; hasSent := hs |} →
  len (acc ++ concat chunks) < 2 ^ 64 →
  acc = [] ∨ len acc < minSize →
  ∃ c' (ps : list Buffer) (acc' : Buffer),
    Connection.write_all entropy minSize chunks c = Some c' ∧
    readyState c' = OPEN ∧ server c' = server c ∧ emitted c' = emitted c ∧
    finished (socket c') = finished (socket c) ∧
    outStream c'
    = OOutStream {| o_buffer := acc';
                    hasSent := hs || match ps with [] => false | _ => true end |} ∧
    acc ++ concat chunks = concat ps ++ acc' ∧
    written (socket c')
    = written (socket c)
      ++ fragments false (if hs then 0 else 2) (negb (server c)) entropy (drawn c) ps ∧
    drawn c' = (if negb (server c) then drawn c + 4 * length ps else drawn c)%nat ∧
    Forall (λ p, minSize <= len p) ps ∧
    (acc' = [] ∨ len acc' < minSize).
Proof.
  induction chunks as [|chunk chunks IH]; intros c acc hs Hr Ho Hlen Hacc.
  { exists c, [], acc. cbn [Connection.write_all concat fragments length].
    rewrite !app_nil_r, orb_false_r. repeat split; try done.
    destruct (negb (server c)); lia. }
  cbn [Connection.write_all concat]. unfold Connection._write. rewrite Ho.
  cbn [o_buffer hasSent].
  cbn [concat] in Hlen. rewrite app_assoc in Hlen.
  assert (Hb0 : len (acc ++ chunk) < 2 ^ 64).
  { rewrite len_app in Hlen. pose proof (len_nonneg (concat chunks)). lia. }
  destruct (minSize <=? len (acc ++ chunk)) eqn:Hflush.
  - apply Z.leb_le in Hflush. rewrite Hr, bool_decide_true by done.
    unfold write_frame, frame.createBinaryFrame.
    rewrite createFrame_bytes by done. cbn [mbind option_bind].
    set (f := frame_bytes false _ _ _ _).
    set (c1 := set_outStream _ _).
    destruct (IH c1 [] true) as (c' & ps & acc' & Hw & Hr' & Hs' & He' & Hf' & Ho' & Hcat
                                  & Hwr & Hd & Hall & Hacc').
    + subst c1. by destruct (negb (server c)).
    + done.
    + cbn [app]. rewrite len_app in Hlen. pose proof (len_nonneg (acc ++ chunk)). lia.
    + by left.
    + exists c', ((acc ++ chunk) :: ps), acc'.
      assert (Hsrv : server c1 = server c) by (subst c1; by destruct (negb (server c))).
      rewrite Hsrv in *.
      split; [done|]. split; [done|]. split; [done|].
      split; [rewrite He'; subst c1; by destruct (negb (server c))|].
      split; [rewrite Hf'; subst c1; by destruct (negb (server c))|].
      split; [rewrite Ho'; cbn [orb]; by rewrite orb_true_r|].
      split; [cbn [app] in Hcat; cbn [concat]; by rewrite <- !app_assoc, Hcat|].
      split.
      { rewrite Hwr. cbn [fragments andb].
        assert (written (socket c1) = written (socket c) ++ [f]) as ->.
        { subst c1. by destruct (negb (server c)). }
        rewrite <- app_assoc. cbn [app]. f_equal. f_equal.
        - subst f. by destruct hs.
        - f_equal. subst c1. by destruct (negb (server c)). }
      split.
      { rewrite Hd. subst c1. cbn [length]. destruct (negb (server c)); cbn; lia. }
      split; [by constructor|done].
  - apply Z.leb_gt in Hflush.
    set (c1 := set_outStream _ c).
    destruct (IH c1 (acc ++ chunk) hs) as (c' & ps & acc' & Hw & Hr' & Hs' & He' & Hf'
                                            & Ho' & Hcat & Hwr & Hd & Hall & Hacc').
    + done.
    + done.
    + done.
    + by right.
    + exists c', ps, acc'. cbn [concat]. rewrite app_assoc. by repeat split.
Qed.

Lemma OutStream_fragments_written entropy minSize (chunks : list Buffer) c :
  readyState c = OPEN → out_truthy (outStream c) = false →
  len (concat chunks) <= kMaxLength →
  ∃ c1 c2 c3 (ps : list Buffer) (last : Buffer),
    Connection.beginBinary c = Some (Sent c1) ∧
    Connection.write_all entropy minSize chunks c1 = Some c2 ∧
    Connection.finish entropy c2 = Some c3 ∧
    written (socket c3)
    = written (socket c)
      ++ fragments true 2 (negb (server c)) entropy (drawn c) (ps ++ [last]) ∧
    concat ps ++ last = concat chunks ∧
    Forall (λ p, minSize <= len p) ps ∧
    (last = [] ∨ len last < minSize) ∧
    outStream c3 = OUndefined ∧ readyState c3 = OPEN ∧ emitted c3 = emitted c.
Proof.
  intros Hr Ho Hlen.
  assert (Hlen' : len (concat chunks) < 2 ^ 64).
  { unfold kMaxLength in Hlen. change (2 ^ 53 - 1) with 9007199254740991 in Hlen.
    change (2 ^ 64) with 18446744073709551616. lia. }
  unfold Connection.beginBinary. rewrite Hr, Ho, bool_decide_true by done.
  cbn [negb]. set (c1 := set_outStream _ c).
  destruct (write_all_fragments entropy minSize chunks c1 [] false)
    as (c2 & ps & last & Hw & Hr2 & Hs2 & He2 & Hf2 & Ho2 & Hcat & Hwr & Hd & Hall & Hl);
    [done|done|done|by left|].
  assert (Hll : len last < 2 ^ 64).
  { cbn [app] in Hcat. rewrite Hcat, len_app in Hlen'.
    pose proof (len_nonneg (concat ps)). lia. }
  exists c1, c2. unfold Connection.finish. rewrite Ho2, Hr2.
  rewrite bool_decide_true by done. cbn [o_buffer hasSent orb].
  unfold write_frame, frame.createBinaryFrame.
  rewrite createFrame_bytes by done. cbn [mbind option_bind].
  eexists _, ps, last. split; [done|]. split; [done|]. split; [done|].
  split.
  { rewrite fragments_snoc. cbn [written socket set_outStream socket_write set_socket].
    assert (∀ x, written (socket (if negb (server c2) then set_drawn x c2 else c2))
                 = written (socket c2)) as -> by (intros; by destruct (negb (server c2))).
    rewrite Hwr. cbn [server set_outStream drawn] in *. rewrite <- app_assoc.
    f_equal. f_equal. f_equal. rewrite Hs2, Hd.
    destruct ps; cbn [negb]; apply frame_bytes_ext; intros i; f_equal;
      destruct (negb (server c)); lia. }
  split; [by rewrite <- Hcat|]. split; [done|]. split; [done|].
  split; [done|]. split.
  - cbn. by destruct (negb (server c2)).
  - cbn. destruct (negb (server c2)); by rewrite ?He2.
Qed.

(** X4.  What an [OutStream] sends: after [beginBinary] on an open
    connection with no stream pending, the writes of any chunks and the
    end of the stream all succeed and add to the socket the frames of one
    fragmented binary message -- the first with opcode 2, the others
    continuation frames, only the last one final, masked on a client --
    whose payloads, put together, are the chunks put together; every
    payload but the last is at least [minSize] long, and the last is
    shorter than [minSize] or empty.  The slot [outStream] is free again
    and nothing was emitted. *)
Theorem OutStream_sends_fragments entropy minSize (chunks : list Buffer) c :
  readyState c = OPEN → out_truthy (outStream c) = false →
  len (concat chunks) <= kMaxLength →
  ∃ c1 c2 c3 (ps : list Buffer) (last : Buffer),
    Connection.beginBinary c = Some (Sent c1) ∧
    Connection.write_all entropy minSize chunks c1 = Some c2 ∧
    Connection.finish entropy c2 = Some c3 ∧
    written (socket c3)
    = written (socket c)
      ++ fragments true 2 (negb (server c)) entropy (drawn c) (ps ++ [last]) ∧
    concat ps ++ last = concat chunks ∧
    Forall (λ p, minSize <= len p) ps ∧
    (last = [] ∨ len last < minSize) ∧
    outStream c3 = OUndefined ∧ readyState c3 = OPEN ∧ emitted c3 = emitted c.
Proof. apply OutStream_fragments_written. Qed.

(** ** A message in fragments, read by [AppConnection] *)

Lemma utf8_decode_missing st (p : Buffer) :
  u_missing st ≠ 0%nat → utf8_decode st p ≠ [].
Proof.
  revert st. induction p as [|b p IH]; intros st Hm; cbn [utf8_decode].
  - by destruct (u_missing st).
  - destruct (u_missing st) as [|m]; [done|].
    destruct ((u_lower st <=? b) && (b <=? u_upper st)).
    + destruct m as [|m].
      * unfold utf16. by destruct (_ <? 65536).
      * by apply IH.
    + by destruct (utf8_lead b).
Qed.

Lemma toString_nonempty (p : Buffer) : p ≠ [] → truthy (toString p) = true.
Proof.
  destruct p as [|b p]; [done|]. intros _. unfold toString.
  cbn [utf8_decode utf8_start u_missing].
  destruct (utf8_lead b) as [out st] eqn:E.
  destruct out as [|o out]; [|done]. cbn [app].
  assert (Hm : u_missing st ≠ 0%nat).
  { unfold utf8_lead in E.
    repeat (destruct (_ && _) in E); inversion E; subst; cbn; lia. }
  pose proof (utf8_decode_missing st p Hm). by destruct (utf8_decode st p).
Qed.

Lemma truthy_app (s t : jsstring) : truthy s = true → truthy (s ++ t) = true.
Proof. by destruct s. Qed.

(** One pass of the loop of [AppConnection.doRead] over a frame at the
    head of the buffer. *)
Lemma AppConnection_extractLoop_step c fin op (p : Buffer) key rest c1 fuel :
  buffer c = frame_bytes fin op true p key ++ rest →
  valid_opcode op = true → (8 <= op → fin = true) → len p < 2 ^ 64 →
  AppConnection.processFrame fin op p (set_buffer rest c) = Some (true, c1) →
  AppConnection.extractLoop (S fuel) c = AppConnection.extractLoop fuel c1.
Proof.
  intros Hb Hop Hctl Hlen Hp. cbn [AppConnection.extractLoop].
  unfold AppConnection.extractFrame at 1. rewrite Hb.
  rewrite decode_frame_bytes by done. cbn [mbind option_bind].
  rewrite Hp. cbn [mbind option_bind]. done.
Qed.

Lemma AppConnection_extractLoop_empty c fuel :
  buffer c = [] → AppConnection.extractLoop fuel c = Some (None, c).
Proof.
  intros Hb.
  assert (He : AppConnection.extractFrame c = Some (None, c)).
  { unfold AppConnection.extractFrame. rewrite Hb. by cbn. }
  destruct fuel; cbn [AppConnection.extractLoop]; by rewrite He.
Qed.

Lemma AppConnection_continuations entropy (ps : list Buffer) :
  ∀ c (s : jsstring) d fuel,
  ps ≠ [] → readyState c = OPEN → frameBuffer c = VString s → truthy s = true →
  buffer c = concat (fragments true 0 true entropy d ps) →
  (length ps <= fuel)%nat → Forall (λ p, len p < 2 ^ 64) ps →
  ∃ c', AppConnection.extractLoop fuel c = Some (None, c') ∧
        emitted c' = emitted c ++ [EText (s ++ concat (toString <$> ps))] ∧
        frameBuffer c' = VString [] ∧ buffer c' = [] ∧
        readyState c' = OPEN ∧ socket c' = socket c ∧ streams c' = streams c.
Proof.
  induction ps as [|p ps IH]; intros c s d fuel Hne Hr Hf Ht Hb Hfuel Hall; [done|].
  apply Forall_cons in Hall as [Hp Hall].
  destruct fuel as [|fuel]; [cbn in Hfuel; lia|].
  cbn [fragments concat] in Hb.
  destruct ps as [|p2 ps].
  - cbn [andb fragments concat] in Hb.
    erewrite AppConnection_extractLoop_step; [|exact Hb|done|done|done|].
    2:{ rewrite (AppConnection_text_continuation _ s) by done. reflexivity. }
    rewrite AppConnection_extractLoop_empty by done.
    eexists. split; [reflexivity|]. cbn. rewrite app_nil_r. by repeat split.
  - cbn [andb] in Hb.
    erewrite AppConnection_extractLoop_step; [|exact Hb|done|done|done|].
    2:{ rewrite (AppConnection_text_continuation _ s) by done. reflexivity. }
    destruct (IH (set_frameBuffer (VString (s ++ toString p))
                    (set_buffer (concat (fragments true 0 true entropy (d + 4) (p2 :: ps))) c))
                (s ++ toString p) (d + 4)%nat fuel)
      as (c' & Hl & He & Hf' & Hb' & Hr' & Hs' & Hst'); try done.
    + by apply truthy_app.
    + cbn in Hfuel. cbn. lia.
    + exists c'. split; [exact Hl|]. rewrite He. cbn [emitted set_frameBuffer set_buffer].
      cbn [fmap list_fmap concat]. rewrite <- !app_assoc. by repeat split.
Qed.

Lemma length_fragments lf op masked entropy d (ps : list Buffer) :
  (2 * length ps <= length (concat (fragments lf op masked entropy d ps)))%nat.
Proof.
  revert op d. induction ps as [|p ps IH]; intros op d; cbn [fragments concat length].
  - lia.
  - rewrite length_app.
    pose proof (len_frame_bytes_ge2
                  (lf && match ps with [] => true | _ => false end) op masked p
                  (λ i, entropy (d + i)%nat)).
    specialize (IH 0 (if masked then d + 4 else d)%nat). lia.
Qed.

(** [AppConnection]: a data frame that opens a message, text or binary. *)
Lemma AppConnection_first_frame (c : connection) (fin : bool) opcode (payload : Buffer) :
  opcode = 1 ∨ opcode = 2 →
  readyState c = OPEN → frameBuffer c = VString [] →
  AppConnection.processFrame fin opcode payload c
  = Some (true,
          if fin
          then set_frameBuffer (VString [])
                 (emit (EText (toString payload))
                    (set_frameBuffer (VString (toString payload)) c))
          else set_frameBuffer (VString (toString payload)) c).
Proof.
  intros Hop Hr Hf. unfold AppConnection.processFrame.
  destruct Hop as [-> | ->]; cbn [Z.eqb]; rewrite Hr, Hf; cbn; by destruct fin.
Qed.

Lemma AppConnection_fragments_read entropy d mbl rh opcode
    (ps : list Buffer) (peer : connection) :
  opcode = 1 ∨ opcode = 2 →
  ps ≠ [] →
  match ps with p :: _ :: _ => p ≠ [] | _ => True end →
  Forall is_buffer ps →
  readyState peer = OPEN → buffer peer = [] → frameBuffer peer = VString [] →
  0 <= mbl →
  ∃ peer',
    AppConnection.doRead mbl rh
      (Some (concat (fragments true opcode true entropy d ps))) peer = Some peer' ∧
    emitted peer' = emitted peer ++ [EText (concat (toString <$> ps))] ∧
    frameBuffer peer' = VString [] ∧ buffer peer' = [] ∧
    readyState peer' = OPEN ∧ socket peer' = socket peer ∧
    streams peer' = streams peer.
Proof.
  intros Hop Hne Hfirst Hall Hr Hb Hf Hm.
  assert (Hlens : Forall (λ p : Buffer, len p < 2 ^ 64) ps).
  { eapply Forall_impl; [exact Hall|]. intros p. apply is_buffer_len. }
  assert (Hv : valid_opcode opcode = true) by (by destruct Hop as [-> | ->]).
  assert (Hctl : ∀ fin, 8 <= opcode → fin = true) by (intros; destruct Hop; lia).
  unfold AppConnection.doRead. rewrite Hb. cbn [app].
  unfold AppConnection.handshaken. cbn [readyState set_buffer]. rewrite Hr.
  rewrite bool_decide_false by done. cbn [mbind option_bind negb].
  cbn [readyState set_buffer]. rewrite Hr, bool_decide_false by done.
  cbn [negb buffer set_buffer].
  pose proof (length_fragments true opcode true entropy d ps) as Hfuel.
  set (chunk := concat (fragments true opcode true entropy d ps)) in *.
  destruct ps as [|p ps]; [done|]. apply Forall_cons in Hlens as [Hp Hlens].
  destruct (length chunk) as [|fuel]; [cbn in Hfuel; lia|].
  assert (Hend : ∀ c' : connection, buffer c' = [] →
            (if mbl <? len (buffer c') then AppConnection.close 1009 None c'
             else Some c') = Some c').
  { intros c' ->. by assert ((mbl <? len (@nil Z)) = false) as ->
      by (apply Z.ltb_ge; unfold len; cbn; lia). }
  destruct ps as [|p2 ps].
  - erewrite AppConnection_extractLoop_step;
      [|subst chunk; cbn [fragments concat andb]; reflexivity|done|by apply Hctl|done|].
    2:{ rewrite AppConnection_first_frame by done. reflexivity. }
    rewrite AppConnection_extractLoop_empty by done.
    cbn [mbind option_bind]. rewrite Hend by done.
    eexists. split; [reflexivity|]. cbn. rewrite app_nil_r. by repeat split.
  - rewrite (AppConnection_extractLoop_step (set_buffer chunk peer) false opcode p
               (λ i, entropy (d + i)%nat)
               (concat (fragments true 0 true entropy (d + 4)%nat (p2 :: ps)))
               (set_frameBuffer (VString (toString p))
                  (set_buffer (concat (fragments true 0 true entropy (d + 4) (p2 :: ps)))
                     (set_buffer chunk peer))) fuel);
      [|reflexivity|done|by apply Hctl|done|].
    2:{ by rewrite AppConnection_first_frame. }
    destruct (AppConnection_continuations entropy (p2 :: ps)
                (set_frameBuffer (VString (toString p))
                   (set_buffer (concat (fragments true 0 true entropy (d + 4) (p2 :: ps)))
                      (set_buffer chunk peer)))
                (toString p) (d + 4)%nat fuel)
      as (c' & Hl & He & Hf' & Hb' & Hr' & Hs' & Hst'); try done.
    + by apply toString_nonempty.
    + cbn in Hfuel. cbn. lia.
    + rewrite Hl. cbn [mbind option_bind]. rewrite Hend by done.
      exists c'. split; [done|]. rewrite He. by repeat split.
Qed.

(** X5.  [AppConnection] puts a fragmented message together: an open
    connection with an empty buffer and no message in progress that reads,
    in one chunk, the masked frames of a message of opcode 1 or 2 sent in
    any number of fragments (the first one not empty when others follow)
    emits exactly one event, [text], with the UTF-8 decodings of the
    fragments one after the other -- also for opcode 2, since its slot
    [frameBuffer] holds a string -- and is ready for the next message. *)
Theorem fragmented_message_is_one_text entropy d mbl rh opcode
    (ps : list Buffer) (peer : connection) :
  opcode = 1 ∨ opcode = 2 →
  ps ≠ [] →
  match ps with p :: _ :: _ => p ≠ [] | _ => True end →
  Forall is_buffer ps →
  readyState peer = OPEN → buffer peer = [] → frameBuffer peer = VString [] →
  0 <= mbl →
  ∃ peer',
    AppConnection.doRead mbl rh
      (Some (concat (fragments true opcode true entropy d ps))) peer = Some peer' ∧
    emitted peer' = emitted peer ++ [EText (concat (toString <$> ps))] ∧
    frameBuffer peer' = VString [] ∧ buffer peer' = [] ∧
    readyState peer' = OPEN ∧ socket peer' = socket peer ∧
    streams peer' = streams peer.
Proof. apply AppConnection_fragments_read. Qed.

(** ** More data does not change what was decoded *)

Lemma get_app (buf more : Buffer) i x :
  get buf i = Some x → get (buf ++ more) i = Some x.
Proof.
  unfold get. destruct (i <? 0); [done|]. intros H.
  by apply lookup_app_l_Some.
Qed.

Lemma readUInt16BE_app (buf more : Buffer) off v :
  readUInt16BE buf off = Some v → readUInt16BE (buf ++ more) off = Some v.
Proof.
  unfold readUInt16BE.
  destruct (get buf off) as [b0|] eqn:E0; cbn [mbind option_bind]; [|done].
  destruct (get buf (off + 1)) as [b1|] eqn:E1; cbn [mbind option_bind]; [|done].
  intros <-. by rewrite (get_app _ more _ _ E0), (get_app _ more _ _ E1).
Qed.

Lemma readUInt32BE_app (buf more : Buffer) off v :
  readUInt32BE buf off = Some v → readUInt32BE (buf ++ more) off = Some v.
Proof.
  unfold readUInt32BE.
  destruct (get buf off) as [b0|] eqn:E0; cbn [mbind option_bind]; [|done].
  destruct (get buf (off + 1)) as [b1|] eqn:E1; cbn [mbind option_bind]; [|done].
  destruct (get buf (off + 2)) as [b2|] eqn:E2; cbn [mbind option_bind]; [|done].
  destruct (get buf (off + 3)) as [b3|] eqn:E3; cbn [mbind option_bind]; [|done].
  intros <-.
  by rewrite (get_app _ more _ _ E0), (get_app _ more _ _ E1),
    (get_app _ more _ _ E2), (get_app _ more _ _ E3).
Qed.

Lemma slice_app (buf more : Buffer) s e r :
  slice buf s e = Some r → slice (buf ++ more) s e = Some r.
Proof.
  intros H. apply slice_Some in H as H'. destruct H' as (H0 & H1 & H2).
  rewrite slice_in_bounds in H by done. injection H as <-.
  pose proof (len_nonneg more).
  rewrite slice_in_bounds by (rewrite ?len_app; lia). f_equal.
  rewrite drop_app_le by (unfold len in *; lia).
  rewrite take_app_le; [done|]. rewrite length_drop. unfold len in *. lia.
Qed.

Lemma slice_from_app_more (buf more : Buffer) s r :
  slice_from buf s = Some r → slice_from (buf ++ more) s = Some (r ++ more).
Proof.
  intros H. apply slice_from_Some in H as (H0 & H1 & ->).
  pose proof (len_nonneg more).
  rewrite slice_from_in_bounds by (rewrite ?len_app; lia). f_equal.
  apply drop_app_le. unfold len in *. lia.
Qed.

Lemma decodeFrame_app violation (buf more : Buffer) d :
  decodeFrame violation buf = Some d → d ≠ NeedMoreData →
  decodeFrame violation (buf ++ more) = Some (more_rest more d).
Proof.
  pose proof (len_nonneg more) as Hmore.
  unfold decodeFrame.
  destruct (len buf <? 2) eqn:E2; [by intros [= <-]|]. apply Z.ltb_ge in E2.
  assert ((len (buf ++ more) <? 2) = false) as ->
    by (apply Z.ltb_ge; rewrite len_app; lia).
  destruct (get buf 0) as [B0|] eqn:EB0; cbn [mbind option_bind]; [|done].
  rewrite (get_app _ more _ _ EB0). cbn [mbind option_bind].
  do 3 (split_if; [by intros [= <-]|]).
  destruct (get buf 1) as [B1|] eqn:EB1; cbn [mbind option_bind]; [|done].
  rewrite (get_app _ more _ _ EB1). cbn [mbind option_bind].
  split_if; [by intros [= <-]|].
  set (start := if negb (B1 ≫ 7 =? 0) then 6 else 2).
  destruct (len buf <? start + B1 mod 128) eqn:E3; [by intros [= <-]|].
  apply Z.ltb_ge in E3.
  assert ((len (buf ++ more) <? start + B1 mod 128) = false) as ->
    by (apply Z.ltb_ge; rewrite len_app; lia).
  destruct (if B1 mod 128 =? 126 then _ else _) as [[len_ start']|] eqn:Hext;
    cbn [mbind option_bind]; [|done].
  assert ((if B1 mod 128 =? 126
           then l ← readUInt16BE (buf ++ more) 2; Some (l, start + 2)
           else if B1 mod 128 =? 127
                then hi ← readUInt32BE (buf ++ more) 2;
                     lo ← readUInt32BE (buf ++ more) 6;
                     Some (hi * 2 ^ 32 + lo, start + 8)
                else Some (B1 mod 128, start)) = Some (len_, start')) as ->.
  { destruct (B1 mod 128 =? 126).
    - destruct (readUInt16BE buf 2) as [l|] eqn:El; cbn [mbind option_bind] in Hext;
        [|done].
      by rewrite (readUInt16BE_app _ more _ _ El).
    - destruct (B1 mod 128 =? 127); [|done].
      destruct (readUInt32BE buf 2) as [hi|] eqn:Eh; cbn [mbind option_bind] in Hext;
        [|done].
      destruct (readUInt32BE buf 6) as [lo|] eqn:El; cbn [mbind option_bind] in Hext;
        [|done].
      by rewrite (readUInt32BE_app _ more _ _ Eh), (readUInt32BE_app _ more _ _ El). }
  cbn [mbind option_bind].
  destruct (len buf <? start' + len_) eqn:E4; [by intros [= <-]|].
  apply Z.ltb_ge in E4.
  assert ((len (buf ++ more) <? start' + len_) = false) as ->
    by (apply Z.ltb_ge; rewrite len_app; lia).
  destruct (slice buf start' (start' + len_)) as [p|] eqn:Hp;
    cbn [mbind option_bind]; [|done].
  rewrite (slice_app _ more _ _ _ Hp). cbn [mbind option_bind].
  clearbody start.
  destruct (negb (B1 ≫ 7 =? 0)).
  - destruct (slice buf (start' - 4) start') as [mask|] eqn:Hmask;
      cbn [mbind option_bind]; [|done].
    rewrite (slice_app _ more _ _ _ Hmask). cbn [mbind option_bind].
    destruct (slice_from buf (start' + len_)) as [r|] eqn:Hr;
      cbn [mbind option_bind]; [|done].
    rewrite (slice_from_app_more _ more _ _ Hr). cbn [mbind option_bind].
    by intros [= <-].
  - cbn [mbind option_bind].
    destruct (slice_from buf (start' + len_)) as [r|] eqn:Hr;
      cbn [mbind option_bind]; [|done].
    rewrite (slice_from_app_more _ more _ _ Hr). cbn [mbind option_bind].
    by intros [= <-].
Qed.

(** ** [processFrame] does not look at the buffer *)

Lemma write_frame_set_buffer entropy masked create b c :
  write_frame entropy masked create (set_buffer b c)
  = set_buffer b <$> write_frame entropy masked create c.
Proof.
  unfold write_frame. cbn [drawn set_buffer].
  destruct (create _ _); cbn; [|done]. by destruct masked.
Qed.

Lemma AppConnection_processFrame_set_buffer fin opcode payload b c :
  AppConnection.processFrame fin opcode payload (set_buffer b c)
  = (λ rc, (rc.1, set_buffer b rc.2))
      <$> AppConnection.processFrame fin opcode payload c.
Proof.
  unfold AppConnection.processFrame, AppConnection.processCloseFrame,
    AppConnection.write_unmasked.
  cbn [readyState frameBuffer set_buffer].
  destruct (opcode =? 8).
  { destruct (readyState c); try done.
    destruct (if 2 <=? len payload then _ else _) as [[code reason]|];
      cbn [mbind option_bind]; [|done].
    rewrite write_frame_set_buffer.
    by destruct (write_frame _ _ _ c). }
  destruct (opcode =? 9).
  { destruct (readyState c); try done.
    rewrite write_frame_set_buffer.
    by destruct (write_frame _ _ _ c). }
  destruct (opcode =? 10); [done|].
  destruct (negb (bool_decide (readyState c = OPEN))); [done|].
  destruct ((opcode =? 0) && negb (slot_truthy (frameBuffer c))); [done|].
  destruct (negb (opcode =? 0) && slot_truthy (frameBuffer c)); [done|].
  destruct (frameBuffer c) as [| |s|ref], fin; done.
Qed.

Lemma set_buffer_twice b b' c : set_buffer b (set_buffer b' c) = set_buffer b c.
Proof. done. Qed.

Lemma AppConnection_extractFrame_more b c r c' :
  AppConnection.extractFrame c = Some (Some r, c') →
  AppConnection.extractFrame (received b c) = Some (Some r, received b c').
Proof.
  unfold AppConnection.extractFrame, received. cbn [buffer set_buffer].
  destruct (decodeFrame _ (buffer c)) as [[| |fin opcode payload rest]|] eqn:Hd;
    cbn [mbind option_bind]; try done.
  - intros [= <- <-].
    rewrite (decodeFrame_app _ _ b _ Hd) by done. done.
  - rewrite (decodeFrame_app _ _ b _ Hd) by done. cbn [more_rest mbind option_bind].
    rewrite !set_buffer_twice.
    rewrite AppConnection_processFrame_set_buffer.
    rewrite (AppConnection_processFrame_set_buffer _ _ _ (rest ++ b)).
    destruct (AppConnection.processFrame fin opcode payload c) as [[r0 c0]|] eqn:Hp;
      cbn; [|done].
    intros [= <- <-]. cbn. by rewrite set_buffer_twice.
Qed.

Lemma AppConnection_extractLoop_fuel m m' c :
  (length (buffer c) <= m)%nat → (length (buffer c) <= m')%nat →
  AppConnection.extractLoop m c = AppConnection.extractLoop m' c.
Proof.
  revert m' c. induction m as [|m IH]; intros m' c Hm Hm'.
  { rewrite !AppConnection_extractLoop_empty; [done| |];
      by destruct (buffer c); [|cbn in Hm; lia]. }
  destruct m' as [|m'].
  { rewrite !AppConnection_extractLoop_empty; [done| |];
      by destruct (buffer c); [|cbn in Hm'; lia]. }
  cbn [AppConnection.extractLoop].
  destruct (AppConnection.extractFrame c) as [[t c1]|] eqn:He;
    cbn [mbind option_bind]; [|done].
  destruct t as [[]|]; try done.
  apply AppConnection_extractFrame_buffer in He as (Hl & _).
  apply IH; unfold len in Hl; lia.
Qed.

Lemma AppConnection_extractLoop_more b n c c1 m :
  AppConnection.extractLoop n c = Some (None, c1) →
  (length (buffer c1 ++ b) <= m)%nat →
  AppConnection.extractLoop (n + m) (received b c)
  = AppConnection.extractLoop m (received b c1).
Proof.
  revert c. induction n as [|n IH]; intros c Hl Hm.
  - cbn [AppConnection.extractLoop] in Hl.
    destruct (AppConnection.extractFrame c) as [[t c0]|] eqn:He;
      cbn [mbind option_bind] in Hl; [|done].
    assert (t = None ∧ c0 = c1) as [-> ->] by (destruct t as [[]|]; by injection Hl).
    apply AppConnection_extractFrame_None in He as [_ ->]. done.
  - cbn [AppConnection.extractLoop] in Hl.
    destruct (AppConnection.extractFrame c) as [[t c0]|] eqn:He;
      cbn [mbind option_bind] in Hl; [|done].
    destruct t as [[]|].
    + change (S n + m)%nat with (S (n + m)). cbn [AppConnection.extractLoop].
      rewrite (AppConnection_extractFrame_more b _ _ _ He). cbn [mbind option_bind].
      by apply IH.
    + done.
    + injection Hl as ->. apply AppConnection_extractFrame_None in He as [_ ->].
      apply AppConnection_extractLoop_fuel; cbn [buffer received set_buffer]; lia.
Qed.

Lemma AppConnection_close_not_open code reason c c' :
  AppConnection.close code reason c = Some c' → readyState c' ≠ OPEN.
Proof.
  unfold AppConnection.close, AppConnection.write_unmasked.
  destruct (readyState c) eqn:Hr; cbn [mbind option_bind].
  - by intros [= <-].
  - destruct (write_frame _ _ _ _) as [c1|] eqn:Hw; cbn; [|done]. by intros [= <-].
  - by intros [= <-].
  - intros [= <-]. cbn. by rewrite Hr.
Qed.

(** X6.  How the socket cuts the bytes into chunks does not matter to an
    [AppConnection] that stays open: if reading [a] leaves the connection
    [OPEN], then reading [a ++ b] at once gives what reading [a] and then
    [b] gives -- the same state, events and writes, or the same failure. *)
Theorem AppConnection_reads_compose mbl rh (a b : Buffer) (c c1 : connection) :
  readyState c = OPEN →
  AppConnection.doRead mbl rh (Some a) c = Some c1 →
  readyState c1 = OPEN →
  AppConnection.doRead mbl rh (Some (a ++ b)) c
  = AppConnection.doRead mbl rh (Some b) c1.
Proof.
  intros Hr Ha Hr1.
  unfold AppConnection.doRead in *. unfold AppConnection.handshaken in *.
  cbn [readyState set_buffer] in *.
  rewrite Hr, Hr1 in *. rewrite !bool_decide_false in * by done.
  cbn [mbind option_bind negb] in *. cbn [readyState set_buffer buffer] in *.
  rewrite Hr, Hr1 in *. rewrite !bool_decide_false in * by done.
  cbn [negb] in *.
  destruct (AppConnection.extractLoop (length (buffer c ++ a))
              (set_buffer (buffer c ++ a) c)) as [[t c2]|] eqn:Hl;
    cbn [mbind option_bind] in Ha; [|done].
  pose proof (AppConnection_extractLoop_ends _ _ _ _ (le_n _) Hl) as [Ht _].
  destruct t as [[]|]; [done| |].
  { apply AppConnection_close_not_open in Ha. done. }
  destruct (mbl <? len (buffer c2)).
  { apply AppConnection_close_not_open in Ha. done. }
  injection Ha as ->.
  pose proof (AppConnection_extractLoop_more b _ _ _ (length (buffer c1 ++ b)) Hl
                (le_n _)) as Hmore.
  unfold received in Hmore. cbn [buffer set_buffer] in Hmore.
  rewrite set_buffer_twice, <- app_assoc in Hmore.
  rewrite <- Hmore.
  rewrite (AppConnection_extractLoop_fuel (length (buffer c ++ a ++ b))
             (length (buffer c ++ a) + length (buffer c1 ++ b))); [done| |].
  - cbn [buffer set_buffer]. lia.
  - cbn [buffer set_buffer]. rewrite !length_app. lia.
Qed.

(** ** The same for [Connection] *)

Lemma Connection_processFrame_set_buffer entropy fin opcode payload b c :
  Connection.processFrame entropy fin opcode payload (set_buffer b c)
  = (λ rc, (rc.1, set_buffer b rc.2))
      <$> Connection.processFrame entropy fin opcode payload c.
Proof.
  unfold Connection.processFrame, Connection.processCloseFrame.
  cbn [readyState frameBuffer server set_buffer].
  destruct (opcode =? 8).
  { destruct (readyState c); try done.
    destruct (if 2 <=? len payload then _ else _) as [[code reason]|];
      cbn [mbind option_bind]; [|done].
    rewrite write_frame_set_buffer.
    by destruct (write_frame _ _ _ c). }
  destruct (opcode =? 9).
  { destruct (readyState c); try done.
    rewrite write_frame_set_buffer.
    by destruct (write_frame _ _ _ c). }
  destruct (opcode =? 10); [done|].
  destruct (negb (bool_decide (readyState c = OPEN))); [done|].
  destruct ((opcode =? 0) && is_null (frameBuffer c)); [done|].
  destruct (negb (opcode =? 0) && negb (is_null (frameBuffer c))); [done|].
  destruct (frameBuffer c) as [| |s|ref], fin; done.
Qed.

Lemma Connection_extractLoop_empty entropy c fuel :
  buffer c = [] → Connection.extractLoop entropy fuel c = Some (None, c).
Proof.
  intros Hb.
  assert (He : Connection.extractFrame entropy c = Some (None, c)).
  { unfold Connection.extractFrame. rewrite Hb. by cbn. }
  destruct fuel; cbn [Connection.extractLoop]; by rewrite He.
Qed.

Lemma Connection_extractFrame_more entropy b c r c' :
  Connection.extractFrame entropy c = Some (Some r, c') →
  Connection.extractFrame entropy (received b c) = Some (Some r, received b c').
Proof.
  unfold Connection.extractFrame, received. cbn [buffer set_buffer].
  change (Connection.violation (set_buffer (buffer c ++ b) c))
    with (Connection.violation c).
  destruct (decodeFrame _ (buffer c)) as [[| |fin opcode payload rest]|] eqn:Hd;
    cbn [mbind option_bind]; try done.
  - intros [= <- <-].
    rewrite (decodeFrame_app _ _ b _ Hd) by done. done.
  - rewrite (decodeFrame_app _ _ b _ Hd) by done. cbn [more_rest mbind option_bind].
    rewrite !set_buffer_twice.
    rewrite Connection_processFrame_set_buffer.
    rewrite (Connection_processFrame_set_buffer _ _ _ _ (rest ++ b)).
    destruct (Connection.processFrame entropy fin opcode payload c) as [[r0 c0]|] eqn:Hp;
      cbn; [|done].
    intros [= <- <-]. cbn. by rewrite set_buffer_twice.
Qed.

Lemma Connection_extractLoop_fuel entropy m m' c :
  (length (buffer c) <= m)%nat → (length (buffer c) <= m')%nat →
  Connection.extractLoop entropy m c = Connection.extractLoop entropy m' c.
Proof.
  revert m' c. induction m as [|m IH]; intros m' c Hm Hm'.
  { rewrite !Connection_extractLoop_empty; [done| |];
      by destruct (buffer c); [|cbn in Hm; lia]. }
  destruct m' as [|m'].
  { rewrite !Connection_extractLoop_empty; [done| |];
      by destruct (buffer c); [|cbn in Hm'; lia]. }
  cbn [Connection.extractLoop].
  destruct (Connection.extractFrame entropy c) as [[t c1]|] eqn:He;
    cbn [mbind option_bind]; [|done].
  destruct t as [[]|]; try done.
  apply Connection_extractFrame_buffer in He as (Hl & _).
  apply IH; unfold len in Hl; lia.
Qed.

Lemma Connection_extractLoop_more entropy b n c c1 m :
  Connection.extractLoop entropy n c = Some (None, c1) →
  (length (buffer c1 ++ b) <= m)%nat →
  Connection.extractLoop entropy (n + m) (received b c)
  = Connection.extractLoop entropy m (received b c1).
Proof.
  revert c. induction n as [|n IH]; intros c Hl Hm.
  - cbn [Connection.extractLoop] in Hl.
    destruct (Connection.extractFrame entropy c) as [[t c0]|] eqn:He;
      cbn [mbind option_bind] in Hl; [|done].
    assert (t = None ∧ c0 = c1) as [-> ->] by (destruct t as [[]|]; by injection Hl).
    apply Connection_extractFrame_None in He as [_ ->]. done.
  - cbn [Connection.extractLoop] in Hl.
    destruct (Connection.extractFrame entropy c) as [[t c0]|] eqn:He;
      cbn [mbind option_bind] in Hl; [|done].
    destruct t as [[]|].
    + change (S n + m)%nat with (S (n + m)). cbn [Connection.extractLoop].
      rewrite (Connection_extractFrame_more entropy b _ _ _ He). cbn [mbind option_bind].
      by apply IH.
    + done.
    + injection Hl as ->. apply Connection_extractFrame_None in He as [_ ->].
      apply Connection_extractLoop_fuel; cbn [buffer received set_buffer]; lia.
Qed.

(** X7.  How the socket cuts the bytes into chunks does not matter to a
    [Connection] that stays open: if reading [a] leaves the connection
    [OPEN], then reading [a ++ b] at once gives what reading [a] and then
    [b] gives. *)
Theorem Connection_reads_compose entropy mbl rh (a b : Buffer) (c c1 : connection) :
  readyState c = OPEN →
  Connection.doRead entropy mbl rh (Some a) c = Some c1 →
  readyState c1 = OPEN →
  Connection.doRead entropy mbl rh (Some (a ++ b)) c
  = Connection.doRead entropy mbl rh (Some b) c1.
Proof.
  intros Hr Ha Hr1.
  unfold Connection.doRead in *. unfold Connection.handshaken in *.
  cbn [readyState set_buffer] in *.
  rewrite Hr, Hr1 in *. rewrite !bool_decide_false in * by done.
  cbn [mbind option_bind negb] in *. cbn [readyState set_buffer buffer] in *.
  rewrite Hr, Hr1 in *. rewrite !bool_decide_false in * by done.
  cbn [negb] in *.
  destruct (Connection.extractLoop entropy (length (buffer c ++ a))
              (set_buffer (buffer c ++ a) c)) as [[t c2]|] eqn:Hl;
    cbn [mbind option_bind] in Ha; [|done].
  pose proof (Connection_extractLoop_ends _ _ _ _ _ (le_n _) Hl) as [Ht _].
  assert (Hc : ∀ code c', Connection.close entropy code None c2 = Some c' →
                 readyState c' ≠ OPEN).
  { intros code c' Hc. apply close_effect in Hc as (_ & Hal & _).
    unfold alive in Hal. intros E. by rewrite E in Hal. }
  destruct t as [[]|]; [done| |].
  { by apply Hc in Ha. }
  destruct (mbl <? len (buffer c2)).
  { by apply Hc in Ha. }
  injection Ha as ->.
  pose proof (Connection_extractLoop_more entropy b _ _ _ (length (buffer c1 ++ b)) Hl
                (le_n _)) as Hmore.
  unfold received in Hmore. cbn [buffer set_buffer] in Hmore.
  rewrite set_buffer_twice, <- app_assoc in Hmore.
  rewrite <- Hmore.
  rewrite (Connection_extractLoop_fuel entropy (length (buffer c ++ a ++ b))
             (length (buffer c ++ a) + length (buffer c1 ++ b))); [done| |].
  - cbn [buffer set_buffer]. lia.
  - cbn [buffer set_buffer]. rewrite !length_app. lia.
Qed.

(** ** Once a connection is closing *)

Lemma alive_false c : alive c = false ↔ readyState c = CLOSING ∨ readyState c = CLOSED.
Proof. unfold alive. destruct (readyState c); intuition congruence. Qed.

Lemma Connection_processFrame_closing entropy fin opcode payload c r c' :
  alive c = false →
  Connection.processFrame entropy fin opcode payload c = Some (r, c') →
  written (socket c') = written (socket c) ∧ alive c' = false.
Proof.
  intros Ha. unfold Connection.processFrame. unfold alive in *.
  destruct (opcode =? 8).
  { destruct (readyState c) eqn:Hr; try done; intros [= <- <-]; cbn; by rewrite ?Hr. }
  destruct (opcode =? 9).
  { destruct (readyState c) eqn:Hr; try done; intros [= <- <-]; cbn; by rewrite ?Hr. }
  destruct (opcode =? 10).
  { intros [= <- <-]. cbn. done. }
  destruct (readyState c) eqn:Hr; try done.
  all: rewrite bool_decide_false by done; cbn [negb]; intros [= <- <-]; by rewrite Hr.
Qed.

Lemma Connection_extractFrame_closing entropy c t c' :
  alive c = false →
  Connection.extractFrame entropy c = Some (t, c') →
  written (socket c') = written (socket c) ∧ alive c' = false.
Proof.
  intros Ha. unfold Connection.extractFrame.
  destruct (decodeFrame _ _) as [[| |fin opcode payload rest]|];
    cbn [mbind option_bind]; try done; try (by intros [= <- <-]).
  destruct (Connection.processFrame _ _ _ _ _) as [[r c1]|] eqn:Hp;
    cbn [mbind option_bind]; [|done].
  intros [= <- <-].
  by apply Connection_processFrame_closing in Hp.
Qed.

Lemma Connection_extractLoop_closing entropy fuel c t c' :
  alive c = false →
  Connection.extractLoop entropy fuel c = Some (t, c') →
  written (socket c') = written (socket c) ∧ alive c' = false.
Proof.
  revert c. induction fuel as [|fuel IH]; intros c Ha; cbn [Connection.extractLoop].
  - destruct (Connection.extractFrame entropy c) as [[t0 c0]|] eqn:He;
      cbn [mbind option_bind]; [|done].
    apply Connection_extractFrame_closing in He; [|done].
    destruct t0 as [[]|]; by intros [= <- <-].
  - destruct (Connection.extractFrame entropy c) as [[t0 c0]|] eqn:He;
      cbn [mbind option_bind]; [|done].
    apply Connection_extractFrame_closing in He as [Hw Ha0]; [|done].
    destruct t0 as [[]|]; try (by intros [= <- <-]).
    intros Hl. apply IH in Hl as [Hw' Ha']; [|done]. by rewrite Hw'.
Qed.

Lemma Connection_close_closing entropy code reason c c' :
  alive c = false →
  Connection.close entropy code reason c = Some c' →
  written (socket c') = written (socket c) ∧ alive c' = false.
Proof.
  unfold alive, Connection.close.
  destruct (readyState c) eqn:Hr; try done; intros _ [= <-]; cbn; by rewrite ?Hr.
Qed.

Lemma Connection_perform_closing entropy mbl rh k c c' :
  alive c = false →
  Connection.perform entropy mbl rh k c = Some c' →
  written (socket c') = written (socket c) ∧ alive c' = false.
Proof.
  intros Ha. pose proof Ha as Ha'. unfold alive in Ha'.
  assert (Hno : bool_decide (readyState c = OPEN) = false).
  { apply bool_decide_false. intros E. by rewrite E in Ha'. }
  assert (Hnc : bool_decide (readyState c = CONNECTING) = false).
  { apply bool_decide_false. intros E. by rewrite E in Ha'. }
  destruct k as [data|code reason|data|data| |minSize chunk| |]; cbn [Connection.perform].
  - destruct data as [chunk|]; cbn [Connection.doRead]; [|by intros [= <-]].
    unfold Connection.handshaken. cbn [readyState set_buffer]. rewrite Hnc.
    cbn [mbind option_bind negb].
    destruct (bool_decide (readyState (set_buffer (buffer c ++ chunk) c) = CLOSED));
      cbn [negb]; [by intros [= <-]|].
    destruct (Connection.extractLoop _ _ _) as [[t c1]|] eqn:Hl;
      cbn [mbind option_bind]; [|done].
    apply Connection_extractLoop_closing in Hl as [Hw Ha1]; [|done].
    cbn [socket set_buffer] in Hw.
    assert (Hc : ∀ code, Connection.close entropy code None c1 = Some c' →
                   written (socket c') = written (socket c) ∧ alive c' = false).
    { intros code Hc. apply Connection_close_closing in Hc as [Hw' ?]; [|done].
      by rewrite Hw'. }
    destruct t as [[]|]; try (by apply Hc).
    all: destruct (mbl <? len (buffer c1)); [by apply Hc|by intros [= <-]].
  - by apply Connection_close_closing.
  - destruct data as [s|b|]; cbn [Connection.send]; [| |done].
    + unfold Connection.sendText. rewrite Hno. cbn. by intros [= <-].
    + unfold Connection.sendBinary. rewrite Hno. cbn. by intros [= <-].
  - unfold Connection.sendPing. rewrite Hno. cbn. by intros [= <-].
  - unfold Connection.beginBinary. rewrite Hno. cbn. by intros [= <-].
  - unfold Connection._write. rewrite Hno.
    destruct (outStream c) as [|s|o]; try (by intros [= <-]).
    destruct (minSize <=? len (o_buffer o ++ chunk)); cbn; by intros [= <-].
  - unfold Connection.finish. rewrite Hno.
    destruct (outStream c) as [|s|o]; cbn; by intros [= <-].
  - intros [= <-]. unfold Connection.onclose.
    destruct (readyState c) eqn:Hr; try done.
    all: cbn; destruct (frameBuffer c); cbn; destruct (outStream c); cbn; done.
Qed.

(** X8.  Once a [Connection] is [CLOSING] or [CLOSED], nothing is written
    to its socket any more: whatever is then called ([send], [sendPing],
    [beginBinary], the writes and the end of a stream, [close]) or received
    ([doRead] of any bytes, the end of the transport), in any order, the
    frames written stay the same and the connection stays closing or
    closed. *)
Theorem nothing_is_written_once_closing entropy mbl rh (ks : list Connection.call)
    (c c' : connection) :
  alive c = false →
  Connection.perform_all entropy mbl rh ks c = Some c' →
  written (socket c') = written (socket c) ∧ alive c' = false.
Proof.
  revert c. induction ks as [|k ks IH]; intros c Ha; cbn [Connection.perform_all].
  - by intros [= <-].
  - destruct (Connection.perform entropy mbl rh k c) as [c1|] eqn:Hp;
      cbn [mbind option_bind]; [|done].
    apply Connection_perform_closing in Hp as [Hw Ha1]; [|done].
    intros Hall. apply IH in Hall as [Hw' Ha']; [|done]. by rewrite Hw'.
Qed.

(** ** [AppConnection] knows no binary messages *)

Lemma textual_emit c0 c e :
  (∀ ref, e ≠ EBinary ref) →
  (∀ ref, EBinary ref ∈ emitted c → EBinary ref ∈ emitted c0) →
  ∀ ref, EBinary ref ∈ emitted c ++ [e] → EBinary ref ∈ emitted c0.
Proof.
  intros He H ref Hin. apply elem_of_app in Hin as [Hin|Hin]; [by apply H|].
  apply list_elem_of_singleton in Hin. by destruct (He ref).
Qed.

Lemma AppConnection_write_unmasked_textual create c c' :
  AppConnection.write_unmasked create c = Some c' →
  frameBuffer c' = frameBuffer c ∧ readyState c' = readyState c ∧
  streams c' = streams c ∧ emitted c' = emitted c.
Proof.
  unfold AppConnection.write_unmasked, write_frame.
  destruct (create _ _); cbn; [|done]. by intros [= <-].
Qed.

Lemma AppConnection_processFrame_textual c0 fin opcode payload c r c' :
  textual c0 c →
  AppConnection.processFrame fin opcode payload c = Some (r, c') →
  textual c0 c'.
Proof.
  intros ([s Hs] & Hr & Hst & Hev). unfold AppConnection.processFrame.
  destruct (opcode =? 8).
  { destruct (readyState c) eqn:Hrc; try (intros [= <- <-]; unfold textual; cbn; rewrite ?Hrc; solve [repeat split; eauto]).
    unfold AppConnection.processCloseFrame.
    destruct (if 2 <=? len payload then _ else _) as [[code reason]|];
      cbn [mbind option_bind]; [|done].
    destruct (AppConnection.write_unmasked _ _) as [c1|] eqn:Hw;
      cbn [mbind option_bind]; [|done].
    apply AppConnection_write_unmasked_textual in Hw as (Hf1 & Hr1 & Hs1 & He1).
    intros [= <- <-]. split; [exists s; cbn; congruence|]. split; [done|].
    split; [cbn; congruence|]. cbn [emitted emit set_readyState]. rewrite He1.
    by apply textual_emit. }
  destruct (opcode =? 9).
  { destruct (readyState c) eqn:Hrc; try (intros [= <- <-]; unfold textual; cbn; rewrite ?Hrc; solve [repeat split; eauto]).
    destruct (AppConnection.write_unmasked _ _) as [c1|] eqn:Hw;
      cbn [mbind option_bind]; [|done].
    apply AppConnection_write_unmasked_textual in Hw as (Hf1 & Hr1 & Hs1 & He1).
    intros [= <- <-]. split; [exists s; congruence|]. split; [congruence|].
    split; [congruence|]. by rewrite He1. }
  destruct (opcode =? 10).
  { intros [= <- <-]. split; [by exists s|]. split; [done|]. split; [done|].
    by apply textual_emit. }
  destruct (negb (bool_decide (readyState c = OPEN)));
    [intros [= <- <-]; solve [repeat split; eauto]|].
  destruct ((opcode =? 0) && negb (slot_truthy (frameBuffer c)));
    [intros [= <- <-]; solve [repeat split; eauto]|].
  destruct (negb (opcode =? 0) && slot_truthy (frameBuffer c));
    [intros [= <- <-]; solve [repeat split; eauto]|].
  rewrite Hs. destruct fin; intros [= <- <-].
  - split; [by eexists|]. split; [done|]. split; [done|].
    cbn [emitted emit set_frameBuffer]. by apply textual_emit.
  - split; [by eexists|]. by repeat split.
Qed.

Lemma textual_set_buffer c0 b c : textual c0 c → textual c0 (set_buffer b c).
Proof. done. Qed.

Lemma AppConnection_extractLoop_textual c0 fuel c t c' :
  textual c0 c →
  AppConnection.extractLoop fuel c = Some (t, c') → textual c0 c'.
Proof.
  assert (Hstep : ∀ c t c', textual c0 c →
            AppConnection.extractFrame c = Some (t, c') → textual c0 c').
  { clear. intros c t c' Ht. unfold AppConnection.extractFrame.
    destruct (decodeFrame _ _) as [[| |fin opcode payload rest]|];
      cbn [mbind option_bind]; try done; try (by intros [= <- <-]).
    destruct (AppConnection.processFrame _ _ _ _) as [[r c1]|] eqn:Hp;
      cbn [mbind option_bind]; [|done].
    intros [= <- <-].
    eapply AppConnection_processFrame_textual; [|exact Hp].
    by apply textual_set_buffer. }
  revert c. induction fuel as [|fuel IH]; intros c Ht; cbn [AppConnection.extractLoop].
  - destruct (AppConnection.extractFrame c) as [[t0 c1]|] eqn:He;
      cbn [mbind option_bind]; [|done].
    apply Hstep in He; [|done]. destruct t0 as [[]|]; by intros [= <- <-].
  - destruct (AppConnection.extractFrame c) as [[t0 c1]|] eqn:He;
      cbn [mbind option_bind]; [|done].
    apply Hstep in He; [|done].
    destruct t0 as [[]|]; try (by intros [= <- <-]). by apply IH.
Qed.

Lemma AppConnection_close_textual c0 code reason c c' :
  textual c0 c → AppConnection.close code reason c = Some c' → textual c0 c'.
Proof.
  intros ([s Hs] & Hr & Hst & Hev). unfold AppConnection.close.
  destruct (readyState c) eqn:Hrc; cbn [mbind option_bind]; try done.
  - destruct (AppConnection.write_unmasked _ _) as [c1|] eqn:Hw;
      cbn [mbind option_bind]; [|done].
    apply AppConnection_write_unmasked_textual in Hw as (Hf1 & Hr1 & Hs1 & He1).
    intros [= <-]. split; [exists s; cbn; congruence|]. split; [done|].
    split; [cbn; congruence|]. cbn [emitted emit set_readyState]. rewrite He1.
    by apply textual_emit.
  - intros [= <-]. split; [by exists s|]. split; [done|]. split; [done|].
    by apply textual_emit.
  - intros [= <-]. split; [by exists s|]. split; [cbn; by rewrite Hrc|].
    split; [done|]. by apply textual_emit.
Qed.

Lemma AppConnection_perform_textual mbl rh c0 k c c' :
  textual c0 c → AppConnection.perform mbl rh k c = Some c' → textual c0 c'.
Proof.
  intros Ht. pose proof Ht as ([s Hs] & Hr & Hst & Hev).
  destruct k as [data|code reason|data|]; cbn [AppConnection.perform].
  - destruct data as [chunk|]; cbn [AppConnection.doRead]; [|by intros [= <-]].
    unfold AppConnection.handshaken. cbn [readyState set_buffer].
    rewrite bool_decide_false by done. cbn [mbind option_bind negb].
    destruct (bool_decide (readyState (set_buffer (buffer c ++ chunk) c) = CLOSED));
      cbn [negb]; [by intros [= <-]|].
    destruct (AppConnection.extractLoop _ _) as [[t c1]|] eqn:Hl;
      cbn [mbind option_bind]; [|done].
    apply (AppConnection_extractLoop_textual c0) in Hl; [|done].
    destruct t as [[]|]; try (by apply AppConnection_close_textual).
    all: destruct (mbl <? len (buffer c1));
      [by apply AppConnection_close_textual|by intros [= <-]].
  - by apply AppConnection_close_textual.
  - destruct data as [str|b|]; cbn [AppConnection.send]; [| |done].
    + unfold AppConnection.sendText.
      destruct (bool_decide (readyState c = OPEN)); [|by intros [= <-]].
      destruct (negb (out_truthy (outStream c))); [|by intros [= <-]].
      destruct (AppConnection.write_unmasked _ _) as [c1|] eqn:Hw;
        cbn [mbind option_bind]; [|done].
      apply AppConnection_write_unmasked_textual in Hw as (Hf1 & Hr1 & Hs1 & He1).
      intros [= <-]. split; [exists s; congruence|]. split; [congruence|].
      split; [congruence|]. by rewrite He1.
    + unfold AppConnection.sendBinary.
      destruct (bool_decide (readyState c = OPEN)); [|by intros [= <-]].
      destruct (negb (out_truthy (outStream c))); [|by intros [= <-]].
      destruct (AppConnection.write_unmasked _ _) as [c1|] eqn:Hw;
        cbn [mbind option_bind]; [|done].
      apply AppConnection_write_unmasked_textual in Hw as (Hf1 & Hr1 & Hs1 & He1).
      intros [= <-]. split; [exists s; congruence|]. split; [congruence|].
      split; [congruence|]. by rewrite He1.
  - intros [= <-]. unfold AppConnection.onclose.
    assert (He : ∀ c1 : connection, emitted c1 = emitted c ∨
                   emitted c1 = emitted c ++ [EClose 1006 (Some [])] →
                 ∀ ref, EBinary ref ∈ emitted c1 → EBinary ref ∈ emitted c0).
    { intros c1 [-> | ->]; [done|]. by apply textual_emit. }
    destruct (readyState c) eqn:Hrc; try done; cbn; rewrite Hs; cbn;
      destruct (outStream c); cbn;
      (split; [by exists s|]); (split; [done|]); (split; [done|]);
      apply He; cbn; auto.
Qed.

Lemma AppConnection_perform_all_textual mbl rh c0 (ks : list AppConnection.call) :
  ∀ c c', textual c0 c → AppConnection.perform_all mbl rh ks c = Some c' →
          textual c0 c'.
Proof.
  induction ks as [|k ks IH]; intros c c' Ht; cbn [AppConnection.perform_all].
  - by intros [= <-].
  - destruct (AppConnection.perform mbl rh k c) as [c2|] eqn:Hp;
      cbn [mbind option_bind]; [|done].
    apply IH. by eapply AppConnection_perform_textual.
Qed.

(** X9.  [AppConnection] knows no binary messages: its slot [frameBuffer]
    starts as a string, and whatever is called ([send], [close]) or
    received afterwards, the slot holds a string, no [InStream] is created
    and no [binary] event is emitted; a binary frame is taken as text. *)
Theorem AppConnection_knows_no_binary mbl rh (ks : list AppConnection.call)
    (c c' : connection) :
  readyState c ≠ CONNECTING →
  (∃ s, frameBuffer c = VString s) →
  AppConnection.perform_all mbl rh ks c = Some c' →
  (∃ s, frameBuffer c' = VString s) ∧
  streams c' = streams c ∧
  ∀ ref, EBinary ref ∈ emitted c' → EBinary ref ∈ emitted c.
Proof.
  intros Hr Hs Hall.
  assert (Ht : textual c c) by (unfold textual; auto).
  destruct (AppConnection_perform_all_textual mbl rh c ks c c' Ht Hall)
    as (H1 & _ & H3 & H4).
  auto.
Qed.

(** ** Protocol errors *)

(** A header the decoder rejects on sight: a reserved bit, an opcode that
    is not known, a control frame that is not final, or (for a connection
    of the server side) a frame without mask. *)
Lemma decodeFrame_rejects violation b0 b1 (tail : Buffer) :
  Z.shiftr b0 4 mod 8 ≠ 0 ∨ valid_opcode (b0 mod 16) = false ∨
  (8 <= b0 mod 16 ∧ Z.shiftr b0 4 ≠ 8) ∨
  violation (negb (Z.shiftr b1 7 =? 0)) = true →
  decodeFrame violation (b0 :: b1 :: tail) = Some ProtocolError.
Proof.
  intros H. unfold decodeFrame.
  assert ((len (b0 :: b1 :: tail) <? 2) = false) as ->.
  { apply Z.ltb_ge. unfold len. simpl. lia. }
  change (get (b0 :: b1 :: tail) 0) with (Some b0).
  change (get (b0 :: b1 :: tail) 1) with (Some b1).
  cbn [mbind option_bind].
  destruct (negb (b0 ≫ 4 mod 8 =? 0)) eqn:E1; [done|].
  destruct (negb (valid_opcode (b0 mod 16))) eqn:E2; [done|].
  destruct ((8 <=? b0 mod 16) && negb (b0 ≫ 4 =? 8)) eqn:E3; [done|].
  apply negb_false_iff in E1, E2. apply Z.eqb_eq in E1.
  destruct H as [H|[H|[[H H']|H]]]; [done|congruence| |by rewrite H].
  apply andb_false_iff in E3 as [E3|E3].
  - apply Z.leb_gt in E3. lia.
  - apply negb_false_iff, Z.eqb_eq in E3. done.
Qed.

(** X10.  A frame header that [extractFrame] rejects (a reserved bit, an
    unknown opcode, a control frame that is not final, a frame without
    mask) makes an open [AppConnection] close with 1002: the close frame
    is written, [close] is emitted, the state is [CLOSING].  The rejected
    bytes stay in the buffer, so the next chunk, whatever it holds, meets
    the same error: [close] is emitted with 1002 a second time, the socket
    is ended and the state is [CLOSED]. *)
Theorem protocol_error_is_reported_again mbl rh b0 b1 (tail : Buffer) (c : connection) :
  readyState c = OPEN → buffer c = [] →
  Z.shiftr b0 4 mod 8 ≠ 0 ∨ valid_opcode (b0 mod 16) = false ∨
  (8 <= b0 mod 16 ∧ Z.shiftr b0 4 ≠ 8) ∨ Z.shiftr b1 7 = 0 →
  ∃ c1,
    AppConnection.doRead mbl rh (Some (b0 :: b1 :: tail)) c = Some c1 ∧
    emitted c1 = emitted c ++ [EClose 1002 None] ∧
    readyState c1 = CLOSING ∧
    written (socket c1) = written (socket c) ++ [[136; 2; 3; 234]] ∧
    finished (socket c1) = finished (socket c) ∧
    buffer c1 = b0 :: b1 :: tail ∧
    ∀ next : Buffer, ∃ c2,
      AppConnection.doRead mbl rh (Some next) c1 = Some c2 ∧
      emitted c2 = emitted c1 ++ [EClose 1002 None] ∧
      readyState c2 = CLOSED ∧
      written (socket c2) = written (socket c1) ∧
      finished (socket c2) = true.
Proof.
  intros Hr Hb Hbad.
  assert (Hd : ∀ more : Buffer,
            decodeFrame AppConnection.violation ((b0 :: b1 :: tail) ++ more)
            = Some ProtocolError).
  { intros more. apply decodeFrame_rejects.
    destruct Hbad as [H|[H|[H|H]]]; auto.
    do 3 right. unfold AppConnection.violation. by rewrite H. }
  assert (Hloop : ∀ fuel c0 more, buffer c0 = (b0 :: b1 :: tail) ++ more →
            AppConnection.extractLoop fuel c0 = Some (Some false, c0)).
  { intros fuel c0 more Hb0.
    assert (He : AppConnection.extractFrame c0 = Some (Some false, c0)).
    { unfold AppConnection.extractFrame. by rewrite Hb0, Hd. }
    destruct fuel; cbn [AppConnection.extractLoop]; by rewrite He. }
  unfold AppConnection.doRead at 1. rewrite Hb. cbn [app].
  unfold AppConnection.handshaken. cbn [readyState set_buffer]. rewrite Hr.
  rewrite bool_decide_false by done. cbn [mbind option_bind negb].
  cbn [readyState set_buffer]. rewrite Hr, bool_decide_false by done. cbn [negb].
  rewrite (Hloop _ _ []) by (by rewrite app_nil_r). cbn [mbind option_bind].
  unfold AppConnection.close at 1. cbn [readyState set_buffer]. rewrite Hr.
  eexists. split; [reflexivity|].
  split; [done|]. split; [done|]. split; [done|]. split; [done|]. split; [done|].
  intros next.
  unfold AppConnection.doRead, AppConnection.handshaken.
  cbn [readyState set_buffer emit set_readyState socket_write set_socket].
  rewrite bool_decide_false by done. cbn [mbind option_bind negb].
  rewrite bool_decide_false by done. cbn [negb].
  rewrite (Hloop _ _ next) by done. cbn [mbind option_bind].
  eexists. split; [reflexivity|]. by repeat split.
Qed.

(** X11.  [AppConnection] takes the empty string in [frameBuffer] for "no
    message in progress": after a first fragment (opcode 1 or 2, not
    final) with an empty payload, the continuation frame that follows is a
    protocol error; [doRead] closes with 1002 and no [text] is emitted. *)
Theorem empty_first_fragment_breaks_message mbl rh opcode (fin : bool)
    (p : Buffer) key key' (c : connection) :
  opcode = 1 ∨ opcode = 2 →
  readyState c = OPEN → buffer c = [] → frameBuffer c = VString [] →
  is_buffer p →
  ∃ c',
    AppConnection.doRead mbl rh
      (Some (frame_bytes false opcode true [] key ++ frame_bytes fin 0 true p key')) c
    = Some c' ∧
    emitted c' = emitted c ++ [EClose 1002 None] ∧
    readyState c' = CLOSING ∧
    frameBuffer c' = VString [] ∧ buffer c' = [].
Proof.
  intros Hop Hr Hb Hf Hp. pose proof (is_buffer_len _ Hp) as Hlen.
  assert (Hv : valid_opcode opcode = true) by (by destruct Hop as [-> | ->]).
  unfold AppConnection.doRead. rewrite Hb. cbn [app].
  unfold AppConnection.handshaken. cbn [readyState set_buffer]. rewrite Hr.
  rewrite bool_decide_false by done. cbn [mbind option_bind negb].
  cbn [readyState set_buffer]. rewrite Hr, bool_decide_false by done.
  cbn [negb buffer set_buffer].
  set (chunk := frame_bytes false opcode true [] key ++ frame_bytes fin 0 true p key').
  assert (Hfuel : (2 <= length chunk)%nat).
  { subst chunk. rewrite length_app.
    pose proof (len_frame_bytes_ge2 false opcode true [] key). lia. }
  destruct (length chunk) as [|fuel]; [lia|].
  rewrite (AppConnection_extractLoop_step (set_buffer chunk c) false opcode [] key
             (frame_bytes fin 0 true p key')
             (set_frameBuffer (VString [])
                (set_buffer (frame_bytes fin 0 true p key') (set_buffer chunk c))) fuel);
    [|done|done|intros; destruct Hop; lia|done|].
  2:{ by rewrite AppConnection_first_frame. }
  set (c1 := set_frameBuffer _ _).
  assert (He : AppConnection.extractFrame c1 = Some (Some false, set_buffer [] c1)).
  { unfold AppConnection.extractFrame. subst c1. cbn [buffer set_frameBuffer set_buffer].
    rewrite <- (app_nil_r (frame_bytes fin 0 true p key')).
    rewrite decode_frame_bytes by done.
    cbn [mbind option_bind]. rewrite app_nil_r.
    rewrite AppConnection_continuation_rejected by done. done. }
  assert (AppConnection.extractLoop fuel c1 = Some (Some false, set_buffer [] c1)) as ->.
  { destruct fuel; cbn [AppConnection.extractLoop]; by rewrite He. }
  cbn [mbind option_bind]. unfold AppConnection.close. subst c1.
  cbn [readyState set_frameBuffer set_buffer]. rewrite Hr.
  eexists. split; [reflexivity|]. by repeat split.
Qed.

(** ** A binary stream, read by [AppConnection] *)

Lemma toString_ascii (p : Buffer) :
  Forall (λ b, 0 <= b < 128) p → toString p = p.
Proof.
  unfold toString. induction 1 as [|b p Hb Hp IH]; [done|].
  cbn [utf8_decode utf8_start u_missing]. unfold utf8_lead.
  assert ((0 <=? b) && (b <=? 127) = true) as ->
    by (apply andb_true_iff; split; apply Z.leb_le; lia).
  cbn [app]. by rewrite IH.
Qed.

Lemma concat_toString_ascii (ps : list Buffer) :
  Forall (λ b, 0 <= b < 128) (concat ps) →
  concat (toString <$> ps) = concat ps.
Proof.
  induction ps as [|p ps IH]; [done|]. cbn [concat fmap list_fmap].
  intros [Hp Hps]%Forall_app. by rewrite toString_ascii, IH.
Qed.

Lemma elem_of_concat {A} (x : A) (l : list A) (ls : list (list A)) :
  x ∈ l → l ∈ ls → x ∈ concat ls.
Proof.
  intros Hx. induction ls as [|k ls IH]; [by intros ?%elem_of_nil|].
  cbn [concat]. intros [->|Hin]%elem_of_cons; apply elem_of_app; auto.
Qed.

(** X12.  A binary stream of a client [Connection] arrives at an
    [AppConnection] as text: the frames that [beginBinary], the writes of
    chunks of ASCII bytes and the end of the stream put on the socket
    ([minSize] positive), read in one chunk by an open [AppConnection],
    give one [text] event whose string is the bytes of the chunks, and no
    [binary] event nor stream. *)
Theorem binary_stream_arrives_as_text entropy minSize mbl rh (chunks : list Buffer)
    (client peer : connection) :
  server client = false → readyState client = OPEN →
  out_truthy (outStream client) = false →
  0 < minSize →
  Forall (λ b, 0 <= b < 128) (concat chunks) → len (concat chunks) <= kMaxLength →
  readyState peer = OPEN → buffer peer = [] → frameBuffer peer = VString [] →
  0 <= mbl →
  ∃ c1 c2 c3 (frames : list Buffer) peer',
    Connection.beginBinary client = Some (Sent c1) ∧
    Connection.write_all entropy minSize chunks c1 = Some c2 ∧
    Connection.finish entropy c2 = Some c3 ∧
    written (socket c3) = written (socket client) ++ frames ∧
    AppConnection.doRead mbl rh (Some (concat frames)) peer = Some peer' ∧
    emitted peer' = emitted peer ++ [EText (concat chunks)] ∧
    streams peer' = streams peer ∧ frameBuffer peer' = VString [].
Proof.
  intros Hs Hr Ho Hmin Hascii Hlen Hpr Hpb Hpf Hm.
  destruct (OutStream_fragments_written entropy minSize chunks client Hr Ho Hlen)
    as (c1 & c2 & c3 & ps & last & Hb & Hw & Hf & Hwr & Hcat & Hall & Hlast & _).
  rewrite Hs in Hwr. cbn [negb] in Hwr.
  assert (Hbuf : Forall is_buffer (ps ++ [last])).
  { apply Forall_forall. intros p Hin. split.
    - apply Forall_forall. intros b Hb'.
      assert (b ∈ concat chunks).
      { rewrite <- Hcat. apply elem_of_app in Hin as [Hin|Hin%list_elem_of_singleton].
        - apply elem_of_app. left. by apply (elem_of_concat b p ps).
        - subst. apply elem_of_app. by right. }
      rewrite Forall_forall in Hascii. specialize (Hascii b H). unfold is_byte. lia.
    - assert (len p <= len (concat chunks)); [|lia].
      rewrite <- Hcat, len_app.
      pose proof (len_nonneg last). pose proof (len_nonneg (concat ps)).
      apply elem_of_app in Hin as [Hin|Hin%list_elem_of_singleton]; [|subst; lia].
      assert (len p <= len (concat ps)); [|lia].
      clear -Hin. induction ps as [|q ps IH]; [by apply elem_of_nil in Hin|].
      cbn [concat]. rewrite len_app. pose proof (len_nonneg q).
      pose proof (len_nonneg (concat ps)).
      apply elem_of_cons in Hin as [->|Hin]; [lia|]. specialize (IH Hin). lia. }
  destruct (AppConnection_fragments_read entropy (drawn client) mbl rh 2
              (ps ++ [last]) peer)
    as (peer' & Hd & He & Hf' & Hb' & Hr' & Hs' & Hst'); try done.
  - by right.
  - by destruct ps.
  - destruct ps as [|p ps]; [done|]. cbn [app].
    destruct (ps ++ [last]) eqn:E; [done|].
    apply Forall_cons in Hall as [Hp _]. intros ->. unfold len in Hp. cbn in Hp. lia.
  - exists c1, c2, c3, (fragments true 2 true entropy (drawn client) (ps ++ [last])), peer'.
    repeat split; try done.
    rewrite He. do 2 f_equal.
    rewrite concat_toString_ascii; rewrite concat_app; cbn [concat];
      rewrite app_nil_r, Hcat; done.
Qed.

(** ** Instances

    Each property above that has hypotheses, at an input that meets
    them. *)

Lemma text_is_delivered_witness :
  let entropy := λ i : nat, Z.of_nat i in
  let rh := λ c : connection, Some (true, c) in
  let s := str "hi" in
  let client := Connection.opened false in
  let peer := AppConnection.opened in
  server client = false ∧ readyState client = OPEN ∧
  out_truthy (outStream client) = false ∧
  readyState peer = OPEN ∧ buffer peer = [] ∧ frameBuffer peer = VString [] ∧
  0 <= default_maxBufferLength ∧ len s <= kMaxLength ∧ well_formed s = true ∧
  ∃ client' bytes peer',
    Connection.sendText entropy s client = Some (Sent client') ∧
    written (socket client') = written (socket client) ++ [bytes] ∧
    AppConnection.doRead default_maxBufferLength rh (Some bytes) peer = Some peer' ∧
    emitted peer' = emitted peer ++ [EText s] ∧
    frameBuffer peer' = VString [] ∧ buffer peer' = [] ∧
    readyState peer' = OPEN ∧ socket peer' = socket peer.
Proof.
  intros entropy rh s client peer.
  assert (H1 : server client = false) by reflexivity.
  assert (H2 : readyState client = OPEN) by reflexivity.
  assert (H3 : out_truthy (outStream client) = false) by reflexivity.
  assert (H4 : readyState peer = OPEN) by reflexivity.
  assert (H5 : buffer peer = []) by reflexivity.
  assert (H6 : frameBuffer peer = VString []) by reflexivity.
  assert (H7 : 0 <= default_maxBufferLength) by (by vm_compute).
  assert (H8 : len s <= kMaxLength) by (by vm_compute).
  assert (H9 : well_formed s = true) by reflexivity.
  repeat (split; [assumption|]).
  exact (text_is_delivered entropy default_maxBufferLength rh s client peer
           H1 H2 H3 H4 H5 H6 H7 H8 H9).
Defined.

Lemma ping_pong_round_trip_witness :
  let entropy := λ i : nat, Z.of_nat i in
  let rh := λ c : connection, Some (true, c) in
  let mbl := default_maxBufferLength in
  let data := str "beat" in
  let client := Connection.opened false in
  let peer := AppConnection.opened in
  server client = false ∧ readyState client = OPEN ∧ buffer client = [] ∧
  readyState peer = OPEN ∧ buffer peer = [] ∧
  0 <= mbl ∧ len data <= kMaxLength ∧ well_formed data = true ∧
  ∃ client1 ping peer' pong client2,
    Connection.sendPing entropy (Some data) client = Some (Sent client1) ∧
    written (socket client1) = written (socket client) ++ [ping] ∧
    AppConnection.doRead mbl rh (Some ping) peer = Some peer' ∧
    written (socket peer') = written (socket peer) ++ [pong] ∧
    emitted peer' = emitted peer ∧
    Connection.doRead entropy mbl rh (Some pong) client1 = Some client2 ∧
    emitted client2 = emitted client ++ [EPong data] ∧
    written (socket client2) = written (socket client1) ∧
    readyState client2 = OPEN.
Proof.
  intros entropy rh mbl data client peer.
  assert (H1 : server client = false) by reflexivity.
  assert (H2 : readyState client = OPEN) by reflexivity.
  assert (H3 : buffer client = []) by reflexivity.
  assert (H4 : readyState peer = OPEN) by reflexivity.
  assert (H5 : buffer peer = []) by reflexivity.
  assert (H6 : 0 <= mbl) by (by vm_compute).
  assert (H7 : len data <= kMaxLength) by (by vm_compute).
  assert (H8 : well_formed data = true) by reflexivity.
  repeat (split; [assumption|]).
  exact (ping_pong_round_trip entropy mbl mbl rh rh data client peer
           H1 H2 H3 H4 H5 H6 H6 H7 H8).
Defined.

Lemma close_handshake_witness :
  let entropy := λ i : nat, Z.of_nat i in
  let rh := λ c : connection, Some (true, c) in
  let mbl := default_maxBufferLength in
  let code := 1000 in
  let reason := Some (str "bye") in
  let client := Connection.opened false in
  let peer := AppConnection.opened in
  server client = false ∧ readyState client = OPEN ∧ buffer client = [] ∧
  readyState peer = OPEN ∧ buffer peer = [] ∧
  0 <= mbl ∧ 0 <= code <= 65535 ∧
  len (default [] reason) <= kMaxLength ∧ well_formed (default [] reason) = true ∧
  ∃ client1 closing peer' echo client2,
    Connection.close entropy code reason client = Some client1 ∧
    written (socket client1) = written (socket client) ++ [closing] ∧
    readyState client1 = CLOSING ∧
    emitted client1 = emitted client ++ [EClose code reason] ∧
    AppConnection.doRead mbl rh (Some closing) peer = Some peer' ∧
    written (socket peer') = written (socket peer) ++ [echo] ∧
    readyState peer' = CLOSED ∧
    emitted peer' = emitted peer ++ [EClose 1000 (Some (str "bye"))] ∧
    Connection.doRead entropy mbl rh (Some echo) client1 = Some client2 ∧
    finished (socket client2) = true ∧
    written (socket client2) = written (socket client1) ∧
    readyState client2 = CLOSING ∧
    emitted client2 = emitted client1.
Proof.
  intros entropy rh mbl code reason client peer.
  assert (H1 : server client = false) by reflexivity.
  assert (H2 : readyState client = OPEN) by reflexivity.
  assert (H3 : buffer client = []) by reflexivity.
  assert (H4 : readyState peer = OPEN) by reflexivity.
  assert (H5 : buffer peer = []) by reflexivity.
  assert (H6 : 0 <= mbl) by (by vm_compute).
  assert (H7 : 0 <= code <= 65535) by (by vm_compute).
  assert (H8 : len (default [] reason) <= kMaxLength) by (by vm_compute).
  assert (H9 : well_formed (default [] reason) = true) by reflexivity.
  repeat (split; [assumption|]).
  exact (close_handshake entropy mbl mbl rh rh code reason client peer
           H1 H2 H3 H4 H5 H6 H6 H7 H8 H9).
Defined.

Lemma OutStream_sends_fragments_witness :
  let entropy := λ i : nat, Z.of_nat i in
  let minSize := 4 in
  let chunks := [[1; 2; 3]; [4; 5]; [6]] in
  let c := Connection.opened false in
  readyState c = OPEN ∧ out_truthy (outStream c) = false ∧
  len (concat chunks) <= kMaxLength ∧
  ∃ c1 c2 c3 (ps : list Buffer) (last : Buffer),
    Connection.beginBinary c = Some (Sent c1) ∧
    Connection.write_all entropy minSize chunks c1 = Some c2 ∧
    Connection.finish entropy c2 = Some c3 ∧
    written (socket c3)
    = written (socket c)
      ++ fragments true 2 (negb (server c)) entropy (drawn c) (ps ++ [last]) ∧
    concat ps ++ last = concat chunks ∧
    Forall (λ p, minSize <= len p) ps ∧
    (last = [] ∨ len last < minSize) ∧
    outStream c3 = OUndefined ∧ readyState c3 = OPEN ∧ emitted c3 = emitted c.
Proof.
  intros entropy minSize chunks c.
  assert (H1 : readyState c = OPEN) by reflexivity.
  assert (H2 : out_truthy (outStream c) = false) by reflexivity.
  assert (H3 : len (concat chunks) <= kMaxLength) by (by vm_compute).
  repeat (split; [assumption|]).
  exact (OutStream_sends_fragments entropy minSize chunks c H1 H2 H3).
Defined.

Lemma fragmented_message_is_one_text_witness :
  let entropy := λ i : nat, Z.of_nat i in
  let rh := λ c : connection, Some (true, c) in
  let mbl := default_maxBufferLength in
  let ps := [[72; 101]; [108; 108]; [111]] in
  let peer := AppConnection.opened in
  (1 = 1 ∨ 1 = 2) ∧ ps ≠ [] ∧
  match ps with p :: _ :: _ => p ≠ [] | _ => True end ∧
  Forall is_buffer ps ∧
  readyState peer = OPEN ∧ buffer peer = [] ∧ frameBuffer peer = VString [] ∧
  0 <= mbl ∧
  ∃ peer',
    AppConnection.doRead mbl rh
      (Some (concat (fragments true 1 true entropy 0 ps))) peer = Some peer' ∧
    emitted peer' = emitted peer ++ [EText (concat (toString <$> ps))] ∧
    frameBuffer peer' = VString [] ∧ buffer peer' = [] ∧
    readyState peer' = OPEN ∧ socket peer' = socket peer ∧
    streams peer' = streams peer.
Proof.
  intros entropy rh mbl ps peer.
  assert (H1 : 1 = 1 ∨ 1 = 2) by (by left).
  assert (H2 : ps ≠ []) by discriminate.
  assert (H3 : match ps with p :: _ :: _ => p ≠ [] | _ => True end) by discriminate.
  assert (H4 : Forall is_buffer ps).
  { repeat constructor; unfold is_byte; try lia; by vm_compute. }
  assert (H5 : readyState peer = OPEN) by reflexivity.
  assert (H6 : buffer peer = []) by reflexivity.
  assert (H7 : frameBuffer peer = VString []) by reflexivity.
  assert (H8 : 0 <= mbl) by (by vm_compute).
  repeat (split; [assumption|]).
  exact (fragmented_message_is_one_text entropy 0%nat mbl rh 1 ps peer
           H1 H2 H3 H4 H5 H6 H7 H8).
Defined.

Lemma AppConnection_reads_compose_witness :
  let rh := λ c : connection, Some (true, c) in
  let mbl := default_maxBufferLength in
  let a := [129; 130; 0] in
  let b := [0; 0; 0; 104; 105] in
  let c := AppConnection.opened in
  let c1 := set_buffer a c in
  readyState c = OPEN ∧
  AppConnection.doRead mbl rh (Some a) c = Some c1 ∧
  readyState c1 = OPEN ∧
  AppConnection.doRead mbl rh (Some (a ++ b)) c
  = AppConnection.doRead mbl rh (Some b) c1.
Proof.
  intros rh mbl a b c c1.
  assert (H1 : readyState c = OPEN) by reflexivity.
  assert (H2 : AppConnection.doRead mbl rh (Some a) c = Some c1) by reflexivity.
  assert (H3 : readyState c1 = OPEN) by reflexivity.
  repeat (split; [assumption|]).
  exact (AppConnection_reads_compose mbl rh a b c c1 H1 H2 H3).
Defined.

Lemma Connection_reads_compose_witness :
  let entropy := λ i : nat, Z.of_nat i in
  let rh := λ c : connection, Some (true, c) in
  let mbl := default_maxBufferLength in
  let a := [138; 2; 104] in
  let b := [105] in
  let c := Connection.opened false in
  let c1 := set_buffer a c in
  readyState c = OPEN ∧
  Connection.doRead entropy mbl rh (Some a) c = Some c1 ∧
  readyState c1 = OPEN ∧
  Connection.doRead entropy mbl rh (Some (a ++ b)) c
  = Connection.doRead entropy mbl rh (Some b) c1.
Proof.
  intros entropy rh mbl a b c c1.
  assert (H1 : readyState c = OPEN) by reflexivity.
  assert (H2 : Connection.doRead entropy mbl rh (Some a) c = Some c1) by reflexivity.
  assert (H3 : readyState c1 = OPEN) by reflexivity.
  repeat (split; [assumption|]).
  exact (Connection_reads_compose entropy mbl rh a b c c1 H1 H2 H3).
Defined.

Lemma nothing_is_written_once_closing_witness :
  let entropy := λ i : nat, Z.of_nat i in
  let rh := λ c : connection, Some (true, c) in
  let mbl := default_maxBufferLength in
  let ks := [Connection.Send (AString (str "late"));
             Connection.DoRead (Some [137; 0]);
             Connection.SendPing None;
             Connection.Close 1000 None;
             Connection.OnClose] in
  let c := set_readyState CLOSING (Connection.opened false) in
  alive c = false ∧
  ∃ c', Connection.perform_all entropy mbl rh ks c = Some c' ∧
        written (socket c') = written (socket c) ∧ alive c' = false.
Proof.
  intros entropy rh mbl ks c.
  assert (H1 : alive c = false) by reflexivity.
  split; [assumption|].
  eexists. split; [vm_compute; reflexivity|].
  apply (nothing_is_written_once_closing entropy mbl rh ks c _ H1).
  vm_compute. reflexivity.
Defined.

Lemma AppConnection_knows_no_binary_witness :
  let rh := λ c : connection, Some (true, c) in
  let mbl := default_maxBufferLength in
  let ks := [AppConnection.DoRead (Some [130; 130; 0; 0; 0; 0; 104; 105]);
             AppConnection.Send (ABuffer [1; 2; 3]);
             AppConnection.Close 1000 None] in
  let c := AppConnection.opened in
  readyState c ≠ CONNECTING ∧ (∃ s, frameBuffer c = VString s) ∧
  ∃ c', AppConnection.perform_all mbl rh ks c = Some c' ∧
        (∃ s, frameBuffer c' = VString s) ∧
        streams c' = streams c ∧
        ∀ ref, EBinary ref ∈ emitted c' → EBinary ref ∈ emitted c.
Proof.
  intros rh mbl ks c.
  assert (H1 : readyState c ≠ CONNECTING) by discriminate.
  assert (H2 : ∃ s, frameBuffer c = VString s) by (by exists []).
  split; [assumption|]. split; [assumption|].
  eexists. split; [vm_compute; reflexivity|].
  apply (AppConnection_knows_no_binary mbl rh ks c _ H1 H2).
  vm_compute. reflexivity.
Defined.

Lemma protocol_error_is_reported_again_witness :
  let rh := λ c : connection, Some (true, c) in
  let mbl := default_maxBufferLength in
  let c := AppConnection.opened in
  readyState c = OPEN ∧ buffer c = [] ∧
  (Z.shiftr 193 4 mod 8 ≠ 0 ∨ valid_opcode (193 mod 16) = false ∨
   (8 <= 193 mod 16 ∧ Z.shiftr 193 4 ≠ 8) ∨ Z.shiftr 128 7 = 0) ∧
  ∃ c1,
    AppConnection.doRead mbl rh (Some [193; 128]) c = Some c1 ∧
    emitted c1 = emitted c ++ [EClose 1002 None] ∧
    readyState c1 = CLOSING ∧
    written (socket c1) = written (socket c) ++ [[136; 2; 3; 234]] ∧
    finished (socket c1) = finished (socket c) ∧
    buffer c1 = [193; 128] ∧
    ∀ next : Buffer, ∃ c2,
      AppConnection.doRead mbl rh (Some next) c1 = Some c2 ∧
      emitted c2 = emitted c1 ++ [EClose 1002 None] ∧
      readyState c2 = CLOSED ∧
      written (socket c2) = written (socket c1) ∧
      finished (socket c2) = true.
Proof.
  intros rh mbl c.
  assert (H1 : readyState c = OPEN) by reflexivity.
  assert (H2 : buffer c = []) by reflexivity.
  assert (H3 : Z.shiftr 193 4 mod 8 ≠ 0 ∨ valid_opcode (193 mod 16) = false ∨
               (8 <= 193 mod 16 ∧ Z.shiftr 193 4 ≠ 8) ∨ Z.shiftr 128 7 = 0)
    by (left; by vm_compute).
  repeat (split; [assumption|]).
  exact (protocol_error_is_reported_again mbl rh 193 128 [] c H1 H2 H3).
Defined.

Lemma empty_first_fragment_breaks_message_witness :
  let rh := λ c : connection, Some (true, c) in
  let mbl := default_maxBufferLength in
  let key := λ i : nat, Z.of_nat i in
  let p := [104; 105] in
  let c := AppConnection.opened in
  (1 = 1 ∨ 1 = 2) ∧
  readyState c = OPEN ∧ buffer c = [] ∧ frameBuffer c = VString [] ∧
  is_buffer p ∧
  ∃ c',
    AppConnection.doRead mbl rh
      (Some (frame_bytes false 1 true [] key ++ frame_bytes true 0 true p key)) c
    = Some c' ∧
    emitted c' = emitted c ++ [EClose 1002 None] ∧
    readyState c' = CLOSING ∧
    frameBuffer c' = VString [] ∧ buffer c' = [].
Proof.
  intros rh mbl key p c.
  assert (H1 : 1 = 1 ∨ 1 = 2) by (by left).
  assert (H2 : readyState c = OPEN) by reflexivity.
  assert (H3 : buffer c = []) by reflexivity.
  assert (H4 : frameBuffer c = VString []) by reflexivity.
  assert (H5 : is_buffer p).
  { split; [repeat constructor; unfold is_byte; lia|]. by vm_compute. }
  repeat (split; [assumption|]).
  exact (empty_first_fragment_breaks_message mbl rh 1 true p key key c
           H1 H2 H3 H4 H5).
Defined.

Lemma binary_stream_arrives_as_text_witness :
  let entropy := λ i : nat, Z.of_nat i in
  let rh := λ c : connection, Some (true, c) in
  let mbl := default_maxBufferLength in
  let minSize := 3 in
  let chunks := [[104; 101]; [108; 108; 111]] in
  let client := Connection.opened false in
  let peer := AppConnection.opened in
  server client = false ∧ readyState client = OPEN ∧
  out_truthy (outStream client) = false ∧
  0 < minSize ∧
  Forall (λ b, 0 <= b < 128) (concat chunks) ∧ len (concat chunks) <= kMaxLength ∧
  readyState peer = OPEN ∧ buffer peer = [] ∧ frameBuffer peer = VString [] ∧
  0 <= mbl ∧
  ∃ c1 c2 c3 (frames : list Buffer) peer',
    Connection.beginBinary client = Some (Sent c1) ∧
    Connection.write_all entropy minSize chunks c1 = Some c2 ∧
    Connection.finish entropy c2 = Some c3 ∧
    written (socket c3) = written (socket client) ++ frames ∧
    AppConnection.doRead mbl rh (Some (concat frames)) peer = Some peer' ∧
    emitted peer' = emitted peer ++ [EText (concat chunks)] ∧
    streams peer' = streams peer ∧ frameBuffer peer' = VString [].
Proof.
  intros entropy rh mbl minSize chunks client peer.
  assert (H1 : server client = false) by reflexivity.
  assert (H2 : readyState client = OPEN) by reflexivity.
  assert (H3 : out_truthy (outStream client) = false) by reflexivity.
  assert (H4 : 0 < minSize) by reflexivity.
  assert (H5 : Forall (λ b, 0 <= b < 128) (concat chunks)).
  { cbn. repeat constructor; lia. }
  assert (H6 : len (concat chunks) <= kMaxLength) by (by vm_compute).
  assert (H7 : readyState peer = OPEN) by reflexivity.
  assert (H8 : buffer peer = []) by reflexivity.
  assert (H9 : frameBuffer peer = VString []) by reflexivity.
  assert (H10 : 0 <= mbl) by (by vm_compute).
  repeat (split; [assumption|]).
  exact (binary_stream_arrives_as_text entropy minSize mbl rh chunks client peer
           H1 H2 H3 H4 H5 H6 H7 H8 H9 H10).
Defined.
